(** * rdtmon: core-group configuration and polling of collectd's RDT monitor

    A shallow embedding of [src/rdtmon.c] and the properties of its
    core-list parser, its overlap validator, its group table and its poll
    entry point.

    Conventions of the embedding:
    - [uint64_t] and [unsigned] values are [Z] with the wrap-around written
      out ([mod 2^64], [mod 2^32]);
    - a C string is the [string] (or [list ascii]) of the characters before
      its terminating NUL;
    - a pointer that may be [NULL] is an [option];
    - the global [g_rdtmon], the allocator, the PQoS library and the metric
      sink are fields of an explicit [world] threaded through a small
      state monad. *)

From Stdlib Require Import ZArith String Ascii List Bool Lia DecimalString.
From stdpp Require Import base list.
Import ListNotations.

Local Open Scope Z_scope.

(** * The embedding *)

(** ** Constants of the source *)

Definition RDTMON_MAX_SOCKETS : Z := 8.
Definition RDTMON_MAX_SOCKET_CORES : Z := 64.
Definition RDTMON_MAX_CORES : Z := RDTMON_MAX_SOCKET_CORES * RDTMON_MAX_SOCKETS.

(** The two [errno] values the source returns, as Linux has them. *)
Definition EINVAL : Z := 22.
Definition ENOMEM : Z := 12.

Definition ULLONG_MAX : Z := 2 ^ 64 - 1.
Definition UINT_MODULUS : Z := 2 ^ 32.
Definition UINT_MAX : Z := UINT_MODULUS - 1.

(** ** The C library functions the parser calls *)

Module LibC.

Definition char_code (c : ascii) : Z := Z.of_N (N_of_ascii c).

(** [isspace] in the "C" locale: space, and \t \n \v \f \r. *)
Definition isspace (c : ascii) : bool :=
  let n := char_code c in
  (n =? 32) || ((9 <=? n) && (n <=? 13)).

(** Value of a character as a digit, letters standing for 10..35. *)
Definition digit_value (c : ascii) : option Z :=
  let n := char_code c in
  if (48 <=? n) && (n <=? 57) then Some (n - 48)
  else if (97 <=? n) && (n <=? 122) then Some (n - 87)
  else if (65 <=? n) && (n <=? 90) then Some (n - 55)
  else None.

Definition digit_in_base (base : Z) (c : ascii) : option Z :=
  match digit_value c with
  | Some d => if d <? base then Some d else None
  | None => None
  end.

Fixpoint skip_spaces (s : list ascii) : list ascii :=
  match s with
  | c :: s' => if isspace c then skip_spaces s' else s
  | [] => []
  end.

(** The digit loop of [strtoull]: the value saturates at [ULLONG_MAX]
    once it overflows, and the digits are consumed all the same. *)
Fixpoint scan_digits (base acc : Z) (ovf : bool) (s : list ascii)
  : Z * bool * list ascii :=
  match s with
  | c :: s' =>
      match digit_in_base base c with
      | Some d =>
          let v := acc * base + d in
          if ovf || (ULLONG_MAX <? v)
          then scan_digits base ULLONG_MAX true s'
          else scan_digits base v false s'
      | None => (acc, ovf, s)
      end
  | [] => (acc, ovf, [])
  end.

Definition is_x (c : ascii) : bool :=
  (char_code c =? 120) || (char_code c =? 88).

(** An optional sign. *)
Definition strtoull_sign (s : list ascii) : bool * list ascii :=
  match s with
  | c :: t =>
      if char_code c =? 45 then (true, t)
      else if char_code c =? 43 then (false, t)
      else (false, s)
  | [] => (false, s)
  end.

(** Base 0: 16 after [0x] followed by a hexadecimal digit, 8 after a
    leading [0], else 10; with the string the digits start at. *)
Definition strtoull_base (s : list ascii) : Z * list ascii :=
  match s with
  | z :: x :: h :: t =>
      if (char_code z =? 48) && is_x x
         && match digit_in_base 16 h with Some _ => true | None => false end
      then (16, h :: t)
      else if char_code z =? 48 then (8, s) else (10, s)
  | z :: _ => if char_code z =? 48 then (8, s) else (10, s)
  | [] => (10, s)
  end.

(** The conversion proper.  Without any digit the value is 0 and
    [endptr] is [nptr]; a value that overflowed is [ULLONG_MAX]; a
    negated value wraps at [2^64]. *)
Definition strtoull_convert (nptr : list ascii) (neg : bool) (base : Z)
  (s : list ascii) : Z * list ascii :=
  match s with
  | c :: _ =>
      match digit_in_base base c with
      | Some _ =>
          let '(v, ovf, rest) := scan_digits base 0 false s in
          (if ovf then ULLONG_MAX
           else if neg then (2 ^ 64 - v) mod 2 ^ 64
           else v, rest)
      | None => (0, nptr)
      end
  | [] => (0, nptr)
  end.

(** [strtoull(nptr, &endptr, 0)]: the converted value and the rest of the
    string [endptr] points to. *)
Definition strtoull (nptr : list ascii) : Z * list ascii :=
  let '(neg, s2) := strtoull_sign (skip_spaces nptr) in
  let '(base, s3) := strtoull_base s2 in
  strtoull_convert nptr neg base s3.

(** [strchr(s, c)]: the characters before the first [c] and those after
    it, or [None] for a [NULL] result. *)
Fixpoint strchr (s : list ascii) (c : ascii)
  : option (list ascii * list ascii) :=
  match s with
  | [] => None
  | d :: s' =>
      if Ascii.eqb d c then Some ([], s')
      else match strchr s' c with
           | Some (a, b) => Some (d :: a, b)
           | None => None
           end
  end.

(** The successive results of [strtok_r(s, delim, &saveptr)] with a
    one-character delimiter: the maximal runs of other characters.
    [cur] holds the token being read, reversed. *)
Fixpoint strtok_from (delim : ascii) (cur s : list ascii)
  : list (list ascii) :=
  match s with
  | [] => match cur with [] => [] | _ => [rev cur] end
  | c :: s' =>
      if Ascii.eqb c delim
      then match cur with
           | [] => strtok_from delim [] s'
           | _ => rev cur :: strtok_from delim [] s'
           end
      else strtok_from delim (c :: cur) s'
  end.

Definition strtok_all (delim : ascii) (s : list ascii) : list (list ascii) :=
  strtok_from delim [] s.

End LibC.

(** ** The core-list parser *)

(** [isdup(nums, size, val)], where [nums] holds the [size] values written
    so far. *)
Definition isdup (nums : list Z) (val : Z) : bool :=
  existsb (Z.eqb val) nums.

(** [strtouint64]: [Some n] for a return of 0 with [*n = n], [None] for
    [-EINVAL]. *)
Definition strtouint64 (s : list ascii) : option Z :=
  let '(n, endptr) := LibC.strtoull s in
  match s, endptr with
  | _ :: _, [] => Some n
  | _, _ => None
  end.

(** What one token does to the loop of [strlisttonums]. *)
Inductive step_result : Type :=
| Next (nums : list Z)      (* go on with the next token *)
| Return (nums : list Z).   (* [return index] or [return 0] *)

(** [nums[index] = n; index++] unless [n] is there already. *)
Definition append_new (nums : list Z) (n : Z) : list Z :=
  if isdup nums n then nums else nums ++ [n].

(** The loop [for (n = start; n <= end; n++)]; [n++] wraps at [2^64].
    [fuel] bounds the iterations: [max] of them always suffice, see
    [range_loop_fuel]. *)
Fixpoint range_loop (fuel : nat) (max : nat) (n end_ : Z) (nums : list Z)
  : step_result :=
  match fuel with
  | O => Return nums
  | S fuel' =>
      if n <=? end_ then
        let nums' := append_new nums n in
        if (max <=? length nums')%nat then Return nums'
        else range_loop fuel' max ((n + 1) mod 2 ^ 64) end_ nums'
      else Next nums
  end.

Definition comma : ascii := "," % char.
Definition hyphen : ascii := "-" % char.

(** One iteration of the [for (;;)] loop on a token [strtok_r] returned. *)
Definition parse_token (max : nat) (token : list ascii) (nums : list Z)
  : step_result :=
  match LibC.skip_spaces token with
  | [] => Next nums
  | token =>
      match LibC.strchr token hyphen with
      | Some (a, b) =>
          match strtouint64 a with
          | None => Return []
          | Some start =>
              match strtouint64 b with
              | None => Return []
              | Some end_ =>
                  let '(start, end_) :=
                    if end_ <? start then (end_, start) else (start, end_) in
                  range_loop max max start end_ nums
              end
          end
      | None =>
          match strtouint64 token with
          | None => Return []
          | Some val =>
              let nums' := append_new nums val in
              if (max <=? length nums')%nat then Return nums' else Next nums'
          end
      end
  end.

Fixpoint parse_tokens (max : nat) (tokens : list (list ascii))
  (nums : list Z) : list Z :=
  match tokens with
  | [] => nums
  | token :: rest =>
      match parse_token max token nums with
      | Return r => r
      | Next nums' => parse_tokens max rest nums'
      end
  end.

(** The tokens [strtok_r(s, ",", &saveptr)] yields one after the other. *)
Definition tokens_of (s : string) : list (list ascii) :=
  LibC.strtok_all comma (list_ascii_of_string s).

(** [strlisttonums(s, nums, max)] for non-[NULL] [s] and [nums]: the values
    [nums[0..ret)] where [ret] is the returned count; a parse error returns
    0, hence the empty sequence. *)
Definition strlisttonums (s : string) (max : nat) : list Z :=
  if (max =? 0)%nat then []
  else parse_tokens max (tokens_of s) [].

(** The output never exceeds the capacity: a step that goes on leaves
    room, a step that returns holds at most [max] values. *)
Definition within (max : nat) (r : step_result) : Prop :=
  match r with
  | Next nums => (length nums < max)%nat
  | Return nums => (length nums <= max)%nat
  end.

(** ** The grammar of a token

    What the parser takes for a number, written as a grammar over the
    characters of a token and without reference to the functions that
    read it; [strtouint64_literal] shows that [strtouint64] accepts
    exactly the integer literals. *)

Definition is_decimal_digit (c : ascii) : bool :=
  let n := LibC.char_code c in (48 <=? n) && (n <=? 57).

Definition is_octal_digit (c : ascii) : bool :=
  let n := LibC.char_code c in (48 <=? n) && (n <=? 55).

Definition is_hex_digit (c : ascii) : bool :=
  let n := LibC.char_code c in
  ((48 <=? n) && (n <=? 57)) || ((97 <=? n) && (n <=? 102))
  || ((65 <=? n) && (n <=? 70)).

Definition is_zero (c : ascii) : bool := LibC.char_code c =? 48.

Definition is_sign (c : ascii) : bool :=
  (LibC.char_code c =? 43) || (LibC.char_code c =? 45).

(** [0x] or [0X] and at least one hexadecimal digit; or [0] and octal
    digits only; or a decimal numeral that does not start with [0]. *)
Definition unsigned_literal (t : list ascii) : bool :=
  match t with
  | [] => false
  | z :: rest =>
      if is_zero z then
        match rest with
        | x :: h :: ds =>
            if LibC.is_x x && is_hex_digit h then forallb is_hex_digit ds
            else forallb is_octal_digit rest
        | _ => forallb is_octal_digit rest
        end
      else is_decimal_digit z && forallb is_decimal_digit rest
  end.

(** An integer literal: white space, an optional sign, an unsigned
    literal, and nothing after it. *)
Definition integer_literal (t : list ascii) : bool :=
  match LibC.skip_spaces t with
  | c :: rest =>
      if is_sign c then unsigned_literal rest else unsigned_literal (c :: rest)
  | [] => false
  end.





(** *** The grammar in the words of the specification

    An integer is a decimal numeral, or [0x] followed by hexadecimal
    digits; a range is two integers around a hyphen. *)
Definition spec_integer (t : list ascii) : bool :=
  match t with
  | [] => false
  | z :: x :: h :: ds =>
      if is_zero z && LibC.is_x x then forallb is_hex_digit (h :: ds)
      else forallb is_decimal_digit t
  | _ => forallb is_decimal_digit t
  end.

Definition spec_range (t : list ascii) : Prop :=
  exists a b,
    t = a ++ hyphen :: b /\ spec_integer a = true /\ spec_integer b = true.

Definition spec_bad_token (token : list ascii) : Prop :=
  let t := LibC.skip_spaces token in
  t <> [] /\ spec_integer t = false /\ ~ spec_range t.


(** ** The data model *)

(** [struct rdtmon_core_group_s]. *)
Record rdtmon_core_group_t : Type := {
  desc : option string;        (* char *desc *)
  num_cores : Z;               (* int num_cores *)
  cores : option (list Z);     (* unsigned *cores *)
  events : Z;                  (* enum pqos_mon_event events *)
}.

(** The types of [pqos.h] the source reads. *)
Module Pqos.

(** [struct pqos_event_values]; [ipc] is a [double], kept as its bits. *)
Record pqos_event_values : Type := {
  llc : Z;
  mbm_local : Z;
  mbm_total : Z;
  mbm_remote : Z;
  mbm_local_delta : Z;
  mbm_total_delta : Z;
  mbm_remote_delta : Z;
  ipc : Z;
}.

(** [struct pqos_mon_data], of which the source reads [values]. *)
Record pqos_mon_data : Type := {
  values : pqos_event_values;
}.

(** [struct pqos_coreinfo] and [struct pqos_cpuinfo]. *)
Record pqos_coreinfo : Type := {
  lcore : Z;                   (* unsigned lcore *)
}.

Record pqos_cpuinfo : Type := {
  cpu_num_cores : Z;           (* unsigned num_cores *)
  cpu_cores : list pqos_coreinfo;
}.

(** [struct pqos_monitor] and the [struct pqos_cap_mon] that
    [cap_mon->u.mon] points to. *)
Record pqos_monitor : Type := {
  type : Z;                    (* enum pqos_mon_event type *)
}.

Record pqos_cap_mon : Type := {
  num_events : Z;              (* unsigned num_events *)
  mon_events : list pqos_monitor;
}.

End Pqos.

Import Pqos.

(** [struct rdtmon_ctx_s].  Both tables hold [RDTMON_MAX_CORES] entries.
    [cap] stands for [struct pqos_cap], which only the library reads. *)
Record rdtmon_ctx_t (cap : Type) : Type := {
  cgroups : list rdtmon_core_group_t;
  pgroups : list (option pqos_mon_data);
  num_groups : Z;
  pqos_cpu : option pqos_cpuinfo;
  pqos_cap : option cap;
  cap_mon : option pqos_cap_mon;
}.

Arguments cgroups {cap} _.
Arguments pgroups {cap} _.
Arguments num_groups {cap} _.
Arguments pqos_cpu {cap} _.
Arguments pqos_cap {cap} _.
Arguments cap_mon {cap} _.

(** The configuration tree of collectd: [oconfig_value_t] is a tagged
    union, [oconfig_item_t] a key with values and children. *)
Inductive oconfig_value_t : Type :=
| OCONFIG_TYPE_STRING (s : option string)
| OCONFIG_TYPE_NUMBER (bits : Z)
| OCONFIG_TYPE_BOOLEAN (b : bool).

#[warnings="-register-all"]
Inductive oconfig_item_t : Type :=
| OconfigItem (key : string) (values : list oconfig_value_t)
    (children : list oconfig_item_t).

Definition item_key (ci : oconfig_item_t) : string :=
  match ci with OconfigItem k _ _ => k end.
Definition item_values (ci : oconfig_item_t) : list oconfig_value_t :=
  match ci with OconfigItem _ v _ => v end.
Definition item_children (ci : oconfig_item_t) : list oconfig_item_t :=
  match ci with OconfigItem _ _ c => c end.

(** A [gauge_t] is a [double]: either a [uint64_t] counter converted to
    it, or the [double] the library reported. *)
Inductive gauge_t : Type :=
| gauge_of_uint64 (n : Z)
| gauge_of_double (bits : Z).

(** The fields of [value_list_t] the source fills in. *)
Record value_list_t : Type := {
  vl_values : list gauge_t;
  vl_host : string;
  vl_plugin : string;
  vl_plugin_instance : string;
  vl_type : string;
}.

(** What the plugin does to the outside: calls into the PQoS library and
    records handed to [plugin_dispatch_values]. *)
Inductive event : Type :=
| EvPqosFini
| EvPqosInit
| EvPqosCapGet
| EvPqosCapGetType
| EvPqosMonPoll (num_groups : Z)
| EvPqosMonStart (num_cores : Z) (cores : option (list Z)) (events : Z)
    (context : option string)
| EvDispatch (vl : value_list_t).

(** ** The collaborators *)

(** The PQoS library, over its own state [P]: the constants of [pqos.h]
    the source names (two statuses and the event kinds of
    [enum pqos_mon_event]) and the functions it calls.  Each call returns
    its status, what it stored through its output pointers, and its new
    state. *)
Class PqosLib (P : Type) : Type := {
  PQOS_RETVAL_OK : Z;
  PQOS_RETVAL_PARAM : Z;
  PQOS_MON_EVENT_L3_OCCUP : Z;
  PQOS_MON_EVENT_LMEM_BW : Z;
  PQOS_MON_EVENT_TMEM_BW : Z;
  PQOS_MON_EVENT_RMEM_BW : Z;
  PQOS_PERF_EVENT_LLC_MISS : Z;
  PQOS_PERF_EVENT_IPC : Z;
  cap_t : Type;
  pqos_fini : P -> Z * P;
  pqos_init : P -> Z * P;
  pqos_cap_get : P -> Z * option cap_t * option pqos_cpuinfo * P;
  pqos_cap_get_type : P -> option cap_t -> Z * option pqos_cap_mon * P;
  pqos_mon_poll :
    P -> list (option pqos_mon_data) -> Z -> Z * list (option pqos_mon_data) * P;
  pqos_mon_start :
    P -> Z -> option (list Z) -> Z -> option string -> option pqos_mon_data ->
    Z * option pqos_mon_data * P;
}.

(** What the source takes from collectd's daemon: the size of its name
    buffers and the host name. *)
Class Daemon : Type := {
  DATA_MAX_NAME_LEN : nat;
  hostname_g : string;
}.

(** ** The world and its monad *)

(** [heap] lists the outcomes of the allocations to come (an allocation
    past its end succeeds); [trace] holds the events so far, latest
    first. *)
Record world (P : Type) `{PqosLib P} : Type := {
  g_rdtmon : option (rdtmon_ctx_t cap_t);
  heap : list bool;
  pqos : P;
  trace : list event;
}.

Arguments g_rdtmon {P _} _.
Arguments heap {P _} _.
Arguments pqos {P _} _.
Arguments trace {P _} _.
Arguments Build_world {P _} _ _ _ _.

(** A computation on the world; [None] is abnormal termination: a failed
    [assert], a [NULL] dereference or an access outside an array. *)
Definition M (P : Type) `{PqosLib P} (A : Type) : Type :=
  world P -> option (A * world P).

Definition pure {P : Type} `{PqosLib P} {A : Type} (a : A) : M P A :=
  fun w => Some (a, w).

Definition bind {P : Type} `{PqosLib P} {A B : Type}
  (m : M P A) (k : A -> M P B) : M P B :=
  fun w => match m w with
           | Some (a, w') => k a w'
           | None => None
           end.

Definition crash {P : Type} `{PqosLib P} {A : Type} : M P A :=
  fun _ => None.

Notation "'let*' x := m 'in' k" := (bind m (fun x => k))
  (at level 10, x name, m at level 100, k at level 200).
Notation "'let*' ' pat := m 'in' k" :=
  (bind m (fun x => match x with pat => k end))
  (at level 10, pat pattern, m at level 100, k at level 200).

(** [g_rdtmon->...]: the context [g_rdtmon] points to. *)
Definition deref_ctx {P : Type} `{PqosLib P} : M P (rdtmon_ctx_t cap_t) :=
  fun w => match g_rdtmon w with
           | Some ctx => Some (ctx, w)
           | None => None
           end.

Definition deref {P : Type} `{PqosLib P} {A : Type} (p : option A) : M P A :=
  match p with
  | Some a => pure a
  | None => crash
  end.

(** An assignment to [g_rdtmon] itself. *)
Definition set_g_rdtmon {P : Type} `{PqosLib P}
  (p : option (rdtmon_ctx_t cap_t)) : M P unit :=
  fun w => Some (tt, Build_world p (heap w) (pqos w) (trace w)).

(** An assignment to fields of [*g_rdtmon]. *)
Definition store_ctx {P : Type} `{PqosLib P} (ctx : rdtmon_ctx_t cap_t)
  : M P unit :=
  fun w => match g_rdtmon w with
           | Some _ => Some (tt, Build_world (Some ctx) (heap w) (pqos w) (trace w))
           | None => None
           end.

(** [malloc], [strdup] and [ssnprintf_alloc]: whether the allocation
    succeeded. *)
Definition malloc {P : Type} `{PqosLib P} : M P bool :=
  fun w => match heap w with
           | [] => Some (true, w)
           | ok :: h => Some (ok, Build_world (g_rdtmon w) h (pqos w) (trace w))
           end.

Definition emit {P : Type} `{PqosLib P} (e : event) : M P unit :=
  fun w => Some (tt, Build_world (g_rdtmon w) (heap w) (pqos w) (e :: trace w)).

(** A call into the library, recorded in the trace. *)
Definition call {P : Type} `{PqosLib P} {A : Type} (e : event)
  (f : P -> A * P) : M P A :=
  fun w => let '(a, p) := f (pqos w) in
           Some (a, Build_world (g_rdtmon w) (heap w) p (e :: trace w)).

(** ** More of the C library *)

(** An [unsigned] read as an [int], as [printf("%d")] and a conversion to
    [int] do. *)
Definition to_int (z : Z) : Z :=
  if z <? 2 ^ 31 then z else z - UINT_MODULUS.

(** [printf("%d", z)]. *)
Definition print_d (z : Z) : string :=
  DecimalString.NilZero.string_of_int (Z.to_int z).

(** [sstrncpy(dest, src, n)]: the first [n - 1] characters of [src]. *)
Definition sstrncpy (src : string) (n : nat) : string :=
  String.substring 0 (n - 1) src.

Definition tolower (c : ascii) : Z :=
  let n := LibC.char_code c in
  if (65 <=? n) && (n <=? 90) then n + 32 else n.

Fixpoint strcasecmp (a b : list ascii) : Z :=
  match a, b with
  | [], [] => 0
  | [], d :: _ => - tolower d
  | c :: _, [] => tolower c
  | c :: a', d :: b' =>
      if tolower c =? tolower d then strcasecmp a' b'
      else tolower c - tolower d
  end.

(** ** The group table *)

(** A slot as [memset] leaves it. *)
Definition zero_cgroup : rdtmon_core_group_t :=
  {| desc := None; num_cores := 0; cores := None; events := 0 |}.

Definition zero_ctx {cap : Type} : rdtmon_ctx_t cap :=
  {| cgroups := replicate (Z.to_nat RDTMON_MAX_CORES) zero_cgroup;
     pgroups := replicate (Z.to_nat RDTMON_MAX_CORES) None;
     num_groups := 0;
     pqos_cpu := None;
     pqos_cap := None;
     cap_mon := None |}.

(** [g_rdtmon->cgroups[i]] read and written; an index outside the table is
    abnormal termination. *)
Definition read_cgroup {P : Type} `{PqosLib P} (i : Z)
  : M P rdtmon_core_group_t :=
  let* ctx := deref_ctx in
  if i <? 0 then crash else deref (cgroups ctx !! Z.to_nat i).

Definition write_cgroup {P : Type} `{PqosLib P} (i : Z)
  (cg : rdtmon_core_group_t) : M P unit :=
  let* ctx := deref_ctx in
  if (0 <=? i) && (i <? Z.of_nat (length (cgroups ctx))) then
    store_ctx {| cgroups := <[Z.to_nat i := cg]> (cgroups ctx);
                 pgroups := pgroups ctx;
                 num_groups := num_groups ctx;
                 pqos_cpu := pqos_cpu ctx;
                 pqos_cap := pqos_cap ctx;
                 cap_mon := cap_mon ctx |}
  else crash.

Definition write_pgroup {P : Type} `{PqosLib P} (i : Z)
  (pg : option pqos_mon_data) : M P unit :=
  let* ctx := deref_ctx in
  if (0 <=? i) && (i <? Z.of_nat (length (pgroups ctx))) then
    store_ctx {| cgroups := cgroups ctx;
                 pgroups := <[Z.to_nat i := pg]> (pgroups ctx);
                 num_groups := num_groups ctx;
                 pqos_cpu := pqos_cpu ctx;
                 pqos_cap := pqos_cap ctx;
                 cap_mon := cap_mon ctx |}
  else crash.

(** ** Core groups *)

(** [tab[i]] for the core array of a group; the source reads it for
    [i < num_cores] only. *)
Definition core_at (cg : rdtmon_core_group_t) (i : nat) : Z :=
  match cores cg with
  | Some tab => nth i tab 0
  | None => 0
  end.

(** The two nested loops of [cgroup_cmp], which count the pairs [(i, j)]
    with [tab_a[i] == tab_b[j]]. *)
Definition cgroup_cmp_found (cg_a cg_b : rdtmon_core_group_t) : Z :=
  let sz_a := num_cores cg_a in
  let sz_b := num_cores cg_b in
  fold_left
    (fun found i =>
       fold_left
         (fun found j =>
            if core_at cg_a i =? core_at cg_b j then found + 1 else found)
         (seq 0 (Z.to_nat sz_b)) found)
    (seq 0 (Z.to_nat sz_a)) 0.

(** [cgroup_cmp]: 1 if both groups contain the same cores, 0 if none of
    their cores match, -1 if some but not all cores match. *)
Definition cgroup_cmp (cg_a cg_b : rdtmon_core_group_t) : Z :=
  let found := cgroup_cmp_found cg_a cg_b in
  let sz_a := num_cores cg_a in
  let sz_b := num_cores cg_b in
  if found =? 0 then 0
  else if (sz_a =? sz_b) && (sz_b =? found) then 1
  else -1.

Section Plugin.

Context {P : Type} `{PqosLib P} `{Daemon}.

(** [cgroup_set(cg, desc, cores, num_cores)]: the status and the group
    [cg] points to afterwards.  The [assert]s on [desc] and [num_cores]
    come first; a failed [malloc] has stored [NULL] in [cg->cores];
    each core is narrowed from [uint64_t] to [unsigned]. *)
Definition cgroup_set (cg : rdtmon_core_group_t) (a_desc : option string)
  (a_cores : list Z) (a_num_cores : Z) : M P (Z * rdtmon_core_group_t) :=
  match a_desc with
  | None => crash
  | Some _ =>
      if a_num_cores <=? 0 then crash
      else
        let* ok := malloc in
        if ok then
          pure (0,
                {| desc := a_desc;
                   num_cores := a_num_cores;
                   cores := Some (map (fun c => c mod UINT_MODULUS)
                                    (take (Z.to_nat a_num_cores) a_cores));
                   events := events cg |})
        else
          pure (- ENOMEM,
                {| desc := desc cg;
                   num_cores := num_cores cg;
                   cores := None;
                   events := events cg |})
  end.

(** The loop of [oconfig_to_cgroups] over [item->values], from the value
    at hand on, with [index] groups set so far.  [value] is the copy the
    parser works on, [desc] the [strdup] of the whole string. *)
Fixpoint oconfig_to_cgroups_loop (vals : list oconfig_value_t) (max : Z)
  (index : Z) : M P Z :=
  match vals with
  | [] => pure index
  | OCONFIG_TYPE_STRING None :: rest => oconfig_to_cgroups_loop rest max index
  | OCONFIG_TYPE_STRING (Some s) :: rest =>
      if (String.length s =? 0)%nat then oconfig_to_cgroups_loop rest max index
      else
        let value := sstrncpy s DATA_MAX_NAME_LEN in
        let parsed := strlisttonums value (Z.to_nat RDTMON_MAX_CORES) in
        let n := Z.of_nat (length parsed) in
        if n =? 0 then pure (- EINVAL)
        else
          let* ok := malloc in
          let a_desc := if ok then Some s else None in
          let* cg := read_cgroup index in
          let* '(r, cg') := cgroup_set cg a_desc parsed n in
          let* 'tt := write_cgroup index cg' in
          if r <? 0 then pure r
          else
            let index := index + 1 in
            if max <=? index then pure index
            else oconfig_to_cgroups_loop rest max index
  | _ :: _ => crash
  end.

(** [oconfig_to_cgroups(item, g_rdtmon->cgroups, max)]. *)
Definition oconfig_to_cgroups (item : oconfig_item_t) (max : Z) : M P Z :=
  if max <=? 0 then crash
  else oconfig_to_cgroups_loop (item_values item) max 0.

(** What [rdtmon_free_cgroups] does to one slot of each table. *)
Definition free_cgroup (cg : rdtmon_core_group_t) : rdtmon_core_group_t :=
  {| desc := None;
     num_cores := match cores cg with Some _ => 0 | None => num_cores cg end;
     cores := None;
     events := events cg |}.

(** [rdtmon_free_cgroups]: every slot of the two tables is visited. *)
Definition rdtmon_free_cgroups : M P unit :=
  let* ctx := deref_ctx in
  store_ctx {| cgroups := map free_cgroup (cgroups ctx);
               pgroups := map (fun _ => None) (pgroups ctx);
               num_groups := num_groups ctx;
               pqos_cpu := pqos_cpu ctx;
               pqos_cap := pqos_cap ctx;
               cap_mon := cap_mon ctx |}.

(** The loop of [rdtmon_default_cgroups] from core index [i] on, with
    [todo] iterations left: 0 when it ran to its end, else the error it
    returned. *)
Fixpoint rdtmon_default_cgroups_loop (todo : nat) (i : Z) : M P Z :=
  match todo with
  | O => pure 0
  | S todo' =>
      let* ctx := deref_ctx in
      let* cpu := deref (pqos_cpu ctx) in
      let* info := deref (cpu_cores cpu !! Z.to_nat i) in
      let core := i in
      let* ok := malloc in
      if ok then
        let a_desc := print_d (to_int (lcore info)) in
        let* cg := read_cgroup i in
        let* '(r, cg') := cgroup_set cg (Some a_desc) [core] 1 in
        let* 'tt := write_cgroup i cg' in
        if r <? 0 then pure r
        else rdtmon_default_cgroups_loop todo' (i + 1)
      else pure (- ENOMEM)
  end.

Definition rdtmon_default_cgroups : M P Z :=
  let* ctx := deref_ctx in
  let* cpu := deref (pqos_cpu ctx) in
  let* r := rdtmon_default_cgroups_loop (Z.to_nat (cpu_num_cores cpu)) 0 in
  if r <? 0 then pure r else pure (to_int (cpu_num_cores cpu)).

(** The events the platform offers, without [PQOS_PERF_EVENT_LLC_MISS]. *)
Definition available_events (mon : pqos_cap_mon) : Z :=
  let events :=
    fold_left (fun events m => Z.lor events (type m))
      (take (Z.to_nat (num_events mon)) (mon_events mon)) 0 in
  Z.land events (Z.lnot PQOS_PERF_EVENT_LLC_MISS).

(** The loop over [j < i]: whether [cgroup_cmp] found group [i] to share
    cores with an earlier group. *)
Definition overlaps_earlier (tab : list rdtmon_core_group_t) (i : nat) : bool :=
  existsb
    (fun j => negb (cgroup_cmp (nth j tab zero_cgroup) (nth i tab zero_cgroup) =? 0))
    (seq 0 i).

Definition set_events (cg : rdtmon_core_group_t) (a_events : Z)
  : rdtmon_core_group_t :=
  {| desc := desc cg; num_cores := num_cores cg; cores := cores cg;
     events := a_events |}.

(** The [struct pqos_mon_data] a [malloc] returns; its contents are
    indeterminate until the library fills them. *)
Definition fresh_mon_data : pqos_mon_data :=
  {| values := {| llc := 0; mbm_local := 0; mbm_total := 0; mbm_remote := 0;
                  mbm_local_delta := 0; mbm_total_delta := 0;
                  mbm_remote_delta := 0; ipc := 0 |} |}.

(** The loop over [i < n] at the end of [rdtmon_config_cgroups], from
    group [i] on. *)
Fixpoint rdtmon_config_cgroups_loop (todo : nat) (i : nat) (a_events : Z)
  : M P Z :=
  match todo with
  | O => pure 0
  | S todo' =>
      let* ctx := deref_ctx in
      if overlaps_earlier (cgroups ctx) i then
        let* 'tt := rdtmon_free_cgroups in
        pure (- EINVAL)
      else
        let* cg := read_cgroup (Z.of_nat i) in
        let* 'tt := write_cgroup (Z.of_nat i) (set_events cg a_events) in
        let* ok := malloc in
        let* 'tt := write_pgroup (Z.of_nat i)
                      (if ok then Some fresh_mon_data else None) in
        if ok then rdtmon_config_cgroups_loop todo' (S i) a_events
        else
          let* 'tt := rdtmon_free_cgroups in
          pure (- ENOMEM)
  end.

Definition is_string (v : oconfig_value_t) : bool :=
  match v with
  | OCONFIG_TYPE_STRING _ => true
  | _ => false
  end.

Definition set_num_groups (n : Z) : M P unit :=
  let* ctx := deref_ctx in
  store_ctx {| cgroups := cgroups ctx;
               pgroups := pgroups ctx;
               num_groups := n;
               pqos_cpu := pqos_cpu ctx;
               pqos_cap := pqos_cap ctx;
               cap_mon := cap_mon ctx |}.

(** The second half of [rdtmon_config_cgroups], once [n > 0] groups are
    set. *)
Definition rdtmon_config_cgroups_validate (n : Z) : M P Z :=
  let* ctx := deref_ctx in
  let* mon := deref (cap_mon ctx) in
  let a_events := available_events mon in
  let* 'tt := set_num_groups n in
  rdtmon_config_cgroups_loop (Z.to_nat n) 0 a_events.

Definition rdtmon_config_cgroups (item : option oconfig_item_t) : M P Z :=
  match item with
  | None => pure (- EINVAL)
  | Some item =>
      if forallb is_string (item_values item) then
        let* n := oconfig_to_cgroups item RDTMON_MAX_CORES in
        if n <? 0 then
          let* 'tt := rdtmon_free_cgroups in
          pure (- EINVAL)
        else if n =? 0 then
          let* n := rdtmon_default_cgroups in
          if n <? 0 then
            let* 'tt := rdtmon_free_cgroups in
            pure n
          else rdtmon_config_cgroups_validate n
        else rdtmon_config_cgroups_validate n
      else pure (- EINVAL)
  end.

(** ** Initialisation *)

Definition set_caps (a_cap : option cap_t) (a_cpu : option pqos_cpuinfo)
  : M P unit :=
  let* ctx := deref_ctx in
  store_ctx {| cgroups := cgroups ctx;
               pgroups := pgroups ctx;
               num_groups := num_groups ctx;
               pqos_cpu := a_cpu;
               pqos_cap := a_cap;
               cap_mon := cap_mon ctx |}.

Definition set_cap_mon (a_mon : option pqos_cap_mon) : M P unit :=
  let* ctx := deref_ctx in
  store_ctx {| cgroups := cgroups ctx;
               pgroups := pgroups ctx;
               num_groups := num_groups ctx;
               pqos_cpu := pqos_cpu ctx;
               pqos_cap := pqos_cap ctx;
               cap_mon := a_mon |}.

(** The labels [rdtmon_preinit_error2] and [rdtmon_preinit_error1]. *)
Definition rdtmon_preinit_error1 : M P Z :=
  let* 'tt := set_g_rdtmon None in
  pure (-1).

Definition rdtmon_preinit_error2 : M P Z :=
  let* _ := call EvPqosFini pqos_fini in
  rdtmon_preinit_error1.

Definition rdtmon_preinit : M P Z :=
  fun w =>
    match g_rdtmon w with
    | Some _ => pure 0 w
    | None =>
        (let* ok := malloc in
         if ok then
           let* 'tt := set_g_rdtmon (Some zero_ctx) in
           let* _ := call EvPqosFini pqos_fini in
           let* r := call EvPqosInit pqos_init in
           if r =? PQOS_RETVAL_OK then
             let* '(r, a_cap, a_cpu) := call EvPqosCapGet pqos_cap_get in
             let* 'tt := set_caps a_cap a_cpu in
             if r =? PQOS_RETVAL_OK then
               let* ctx := deref_ctx in
               let* '(r, a_mon) :=
                 call EvPqosCapGetType
                   (fun p => pqos_cap_get_type p (pqos_cap ctx)) in
               let* 'tt := set_cap_mon a_mon in
               if r =? PQOS_RETVAL_PARAM then rdtmon_preinit_error2
               else
                 match a_mon with
                 | None => rdtmon_preinit_error2
                 | Some _ => pure 0
                 end
             else rdtmon_preinit_error2
           else rdtmon_preinit_error1
         else pure (- ENOMEM)) w
    end.

(** ** Configuration *)

Definition Cores : list ascii := list_ascii_of_string "Cores".

(** The loop of [rdtmon_config] over the children of [ci]. *)
Fixpoint rdtmon_config_loop (children : list oconfig_item_t) : M P Z :=
  match children with
  | [] => pure 0
  | child :: rest =>
      if strcasecmp Cores (list_ascii_of_string (item_key child)) =? 0 then
        let* r := rdtmon_config_cgroups (Some child) in
        if r =? 0 then rdtmon_config_loop rest else pure r
      else rdtmon_config_loop rest
  end.

Definition rdtmon_config (ci : oconfig_item_t) : M P Z :=
  let* r := rdtmon_preinit in
  if r =? 0 then rdtmon_config_loop (item_children ci) else pure r.

(** ** Polling *)

Definition RDTMON_PLUGIN : string := "rdtmon".

(** [snprintf(vl.plugin_instance, sizeof(...), "[%s]", cgroup)]. *)
Definition plugin_instance_of (cgroup : string) : string :=
  sstrncpy (String.append "[" (String.append cgroup "]")) DATA_MAX_NAME_LEN.

Definition rdtmon_submit_gauge (cgroup : option string) (a_type : string)
  (value : gauge_t) : M P unit :=
  let* name := deref cgroup in
  emit (EvDispatch
          {| vl_values := [value];
             vl_host := sstrncpy hostname_g DATA_MAX_NAME_LEN;
             vl_plugin := sstrncpy RDTMON_PLUGIN DATA_MAX_NAME_LEN;
             vl_plugin_instance := plugin_instance_of name;
             vl_type := sstrncpy a_type DATA_MAX_NAME_LEN |}).

Definition rdtmon_submit_mbm (cgroup : option string) (pv : pqos_event_values)
  : M P unit :=
  let* name := deref cgroup in
  emit (EvDispatch
          {| vl_values := [gauge_of_uint64 (mbm_local pv);
                           gauge_of_uint64 (mbm_remote pv);
                           gauge_of_uint64 (mbm_total pv);
                           gauge_of_uint64 (mbm_local_delta pv);
                           gauge_of_uint64 (mbm_remote_delta pv);
                           gauge_of_uint64 (mbm_total_delta pv)];
             vl_host := sstrncpy hostname_g DATA_MAX_NAME_LEN;
             vl_plugin := sstrncpy RDTMON_PLUGIN DATA_MAX_NAME_LEN;
             vl_plugin_instance := plugin_instance_of name;
             vl_type := sstrncpy "mbm" DATA_MAX_NAME_LEN |}).

Definition when (b : bool) (m : M P unit) : M P unit :=
  if b then m else pure tt.

Definition has_event (a_events mask : Z) : bool :=
  negb (Z.land a_events mask =? 0).

(** The loop of [rdtmon_read] over the groups, from group [i] on. *)
Fixpoint rdtmon_read_loop (todo : nat) (i : Z) : M P unit :=
  match todo with
  | O => pure tt
  | S todo' =>
      let mbm_events :=
        Z.lor (Z.lor PQOS_MON_EVENT_LMEM_BW PQOS_MON_EVENT_TMEM_BW)
          PQOS_MON_EVENT_RMEM_BW in
      let* ctx := deref_ctx in
      let* slot := deref (pgroups ctx !! Z.to_nat i) in
      let* pg := deref slot in
      let pv := values pg in
      let* cg := read_cgroup i in
      let* 'tt := when (has_event (events cg) PQOS_MON_EVENT_L3_OCCUP)
                    (rdtmon_submit_gauge (desc cg) "llc"
                       (gauge_of_uint64 (llc pv))) in
      let* 'tt := when (has_event (events cg) PQOS_PERF_EVENT_IPC)
                    (rdtmon_submit_gauge (desc cg) "ipc"
                       (gauge_of_double (ipc pv))) in
      let* 'tt := when (has_event (events cg) mbm_events)
                    (rdtmon_submit_mbm (desc cg) pv) in
      rdtmon_read_loop todo' (i + 1)
  end.

(** What a poll leaves in the table: the library writes into the
    structures the pointers lead to, the pointers stay. *)
Definition refresh (old new : list (option pqos_mon_data))
  : list (option pqos_mon_data) :=
  imap (fun i slot =>
          match slot, new !! i with
          | Some _, Some (Some data) => Some data
          | _, _ => slot
          end) old.

Definition set_pgroups (a_pgroups : list (option pqos_mon_data)) : M P unit :=
  let* ctx := deref_ctx in
  store_ctx {| cgroups := cgroups ctx;
               pgroups := a_pgroups;
               num_groups := num_groups ctx;
               pqos_cpu := pqos_cpu ctx;
               pqos_cap := pqos_cap ctx;
               cap_mon := cap_mon ctx |}.

Definition rdtmon_read : M P Z :=
  fun w =>
    match g_rdtmon w with
    | None => pure (- EINVAL) w
    | Some ctx =>
        (let n := num_groups ctx mod UINT_MODULUS in
         let* '(r, polled) :=
           call (EvPqosMonPoll n)
             (fun p => pqos_mon_poll p (pgroups ctx) n) in
         let* 'tt := set_pgroups (refresh (pgroups ctx) polled) in
         if r =? PQOS_RETVAL_OK then
           let* 'tt := rdtmon_read_loop (Z.to_nat (num_groups ctx)) 0 in
           pure 0
         else pure (-1)) w
    end.

(** ** Start *)

(** The loop of [rdtmon_init] over the groups, from group [i] on. *)
Fixpoint rdtmon_init_loop (todo : nat) (i : Z) : M P Z :=
  match todo with
  | O => pure 0
  | S todo' =>
      let* cg := read_cgroup i in
      let* ctx := deref_ctx in
      let* slot := deref (pgroups ctx !! Z.to_nat i) in
      let* '(r, started) :=
        call (EvPqosMonStart (num_cores cg) (cores cg) (events cg) (desc cg))
          (fun p => pqos_mon_start p (num_cores cg) (cores cg) (events cg)
                      (desc cg) slot) in
      let* 'tt := write_pgroup i
                    (match slot, started with
                     | Some _, Some data => Some data
                     | _, _ => slot
                     end) in
      if r =? PQOS_RETVAL_OK then rdtmon_init_loop todo' (i + 1)
      else pure (-1)
  end.

Definition rdtmon_init : M P Z :=
  let* r := rdtmon_preinit in
  if r =? 0 then
    let* ctx := deref_ctx in
    rdtmon_init_loop (Z.to_nat (num_groups ctx)) 0
  else pure r.

End Plugin.

(** ** Notions the statements use *)

(** A group as [cgroup_set] builds it from a parsed list: [tab] is its
    core array, not empty and without a repeated core. *)
Definition well_formed (cg : rdtmon_core_group_t) (tab : list Z) : Prop :=
  cores cg = Some tab /\
  num_cores cg = Z.of_nat (length tab) /\
  tab <> [] /\
  NoDup tab.

(** How many cores of [tab_a] occur in [tab_b]. *)
Fixpoint shared_count (tab_a tab_b : list Z) : Z :=
  match tab_a with
  | [] => 0
  | a :: tab_a' => (if isdup tab_b a then 1 else 0) + shared_count tab_a' tab_b
  end.

(** The records a trace hands to the metric sink, latest first. *)
Fixpoint dispatched (t : list event) : list value_list_t :=
  match t with
  | [] => []
  | EvDispatch vl :: t' => vl :: dispatched t'
  | _ :: t' => dispatched t'
  end.

(** The polls a trace asked of the library. *)
Fixpoint polls_of (t : list event) : list Z :=
  match t with
  | [] => []
  | EvPqosMonPoll n :: t' => n :: polls_of t'
  | _ :: t' => polls_of t'
  end.

(** A slot of the group table that holds nothing: no description, no
    core array. *)
Definition released (cg : rdtmon_core_group_t) : bool :=
  match desc cg, cores cg with
  | None, None => true
  | _, _ => false
  end.

Definition absent {A : Type} (p : option A) : bool :=
  match p with
  | None => true
  | Some _ => false
  end.

(** The groups the plugin takes for live: the first [num_groups] slots of
    the table, over which [rdtmon_init], [rdtmon_read] and
    [rdtmon_shutdown] loop. *)
Definition live_groups {cap : Type} (ctx : rdtmon_ctx_t cap)
  : list rdtmon_core_group_t :=
  take (Z.to_nat (num_groups ctx)) (cgroups ctx).

(** Whether some event kind among the first [num_events] the platform
    advertises has bit [b]. *)
Definition advertises (mon : pqos_cap_mon) (b : Z) : bool :=
  existsb (fun m => Z.testbit (type m) b)
    (take (Z.to_nat (num_events mon)) (mon_events mon)).

(** The status of the poll [rdtmon_read] asks of the library. *)
Definition poll_status {P : Type} `{PqosLib P} (w : world P)
  (ctx : rdtmon_ctx_t cap_t) : Z :=
  (pqos_mon_poll (pqos w) (pgroups ctx) (num_groups ctx mod UINT_MODULUS)).1.1.

(** A group whose event mask is free of the LLC-miss event, and a world
    all of whose table slots are such groups. *)
Definition no_llc_miss {P : Type} `{PqosLib P} (cg : rdtmon_core_group_t)
  : Prop :=
  Z.land (events cg) PQOS_PERF_EVENT_LLC_MISS = 0.

Definition clean {P : Type} `{PqosLib P} (w : world P) : Prop :=
  match g_rdtmon w with
  | Some ctx => Forall no_llc_miss (cgroups ctx)
  | None => True
  end.

(** A computation that keeps worlds clean and whose result satisfies
    [Q]. *)
Definition keeps_clean {P : Type} `{PqosLib P} {A : Type} (m : M P A)
  (Q : A -> Prop) : Prop :=
  forall w a w', clean w -> m w = Some (a, w') -> clean w' /\ Q a.

(** ** A platform to run the plugin on *)

Module Mock.

(** The logical core identifiers of the topology, the event kinds the
    platform advertises and the statuses of the polls to come (a poll
    past the end of the script succeeds). *)
Record platform : Type := {
  lcores : list Z;
  advertised : list Z;
  poll_script : list Z;
}.

Definition cpuinfo (p : platform) : pqos_cpuinfo :=
  {| cpu_num_cores := Z.of_nat (length (lcores p));
     cpu_cores := map Build_pqos_coreinfo (lcores p) |}.

Definition monitoring (p : platform) : pqos_cap_mon :=
  {| num_events := Z.of_nat (length (advertised p));
     mon_events := map Build_pqos_monitor (advertised p) |}.

(** The values [pqos.h] gives its constants. *)
Definition RETVAL_OK : Z := 0.
Definition RETVAL_ERROR : Z := 1.
Definition RETVAL_PARAM : Z := 2.
Definition L3_OCCUP : Z := 1.
Definition LMEM_BW : Z := 2.
Definition TMEM_BW : Z := 4.
Definition RMEM_BW : Z := 8.
Definition LLC_MISS : Z := 16384.   (* 0x4000 *)
Definition IPC : Z := 32768.        (* 0x8000 *)

Definition lib : PqosLib platform :=
  {| PQOS_RETVAL_OK := RETVAL_OK;
     PQOS_RETVAL_PARAM := RETVAL_PARAM;
     PQOS_MON_EVENT_L3_OCCUP := L3_OCCUP;
     PQOS_MON_EVENT_LMEM_BW := LMEM_BW;
     PQOS_MON_EVENT_TMEM_BW := TMEM_BW;
     PQOS_MON_EVENT_RMEM_BW := RMEM_BW;
     PQOS_PERF_EVENT_LLC_MISS := LLC_MISS;
     PQOS_PERF_EVENT_IPC := IPC;
     cap_t := unit;
     pqos_fini := fun p => (RETVAL_OK, p);
     pqos_init := fun p => (RETVAL_OK, p);
     pqos_cap_get := fun p => (RETVAL_OK, Some tt, Some (cpuinfo p), p);
     pqos_cap_get_type :=
       fun p _ => (RETVAL_OK, Some (monitoring p), p);
     pqos_mon_poll :=
       fun p groups _ =>
         match poll_script p with
         | [] => (RETVAL_OK, groups, p)
         | r :: script =>
             (r, groups,
              {| lcores := lcores p; advertised := advertised p;
                 poll_script := script |})
         end;
     pqos_mon_start :=
       fun p _ a_cores _ _ slot =>
         match a_cores, slot with
         | Some _, Some data => (RETVAL_OK, Some data, p)
         | _, _ => (RETVAL_PARAM, None, p)
         end |}.

Definition daemon : Daemon :=
  {| DATA_MAX_NAME_LEN := 128; hostname_g := "localhost" |}.

(** The world before the plugin is loaded. *)
Definition boot (p : platform) (allocations : list bool) : @world platform lib :=
  @Build_world platform lib None allocations p [].

(** The world once [rdtmon_preinit] has run on the platform. *)
Definition ready (p : platform) (allocations : list bool) : @world platform lib :=
  match @rdtmon_preinit platform lib (boot p allocations) with
  | Some (_, w) => w
  | None => boot p allocations
  end.

Definition group_of (name : string) (tab : list Z) : rdtmon_core_group_t :=
  {| desc := Some name; num_cores := Z.of_nat (length tab);
     cores := Some tab; events := 0 |}.

(** A value of the [Cores] option. *)
Definition cores_option (values : list string) : oconfig_item_t :=
  OconfigItem "Cores" (map (fun s => OCONFIG_TYPE_STRING (Some s)) values) [].

(** The [<Plugin rdtmon>] block with one [Cores] option. *)
Definition plugin_block (values : list string) : oconfig_item_t :=
  OconfigItem "Plugin" [OCONFIG_TYPE_STRING (Some "rdtmon"%string)]
    [cores_option values].

Definition eight_cores : platform :=
  {| lcores := [0; 1; 2; 3; 4; 5; 6; 7];
     advertised := [L3_OCCUP; LLC_MISS; IPC];
     poll_script := [] |}.

(** A platform whose second core is off line: the cores at indices 0 and
    1 of the topology are the logical cores 0 and 2. *)
Definition sparse_cores : platform :=
  {| lcores := [0; 2];
     advertised := [L3_OCCUP];
     poll_script := [] |}.

(** The same platform with a first poll that fails. *)
Definition failing_poll : platform :=
  {| lcores := lcores eight_cores;
     advertised := advertised eight_cores;
     poll_script := [RETVAL_ERROR] |}.

(** The world once the plugin is configured with [values] and started. *)
Definition running (p : platform) (values : list string) : @world platform lib :=
  match @rdtmon_config platform lib daemon (plugin_block values) (boot p []) with
  | Some (_, w) =>
      match @rdtmon_init platform lib w with
      | Some (_, w') => w'
      | None => w
      end
  | None => boot p []
  end.

End Mock.

(** ** Further notions the properties below are stated with *)

(** The values a step leaves in the output. *)
Definition output_of (r : step_result) : list Z :=
  match r with Next nums => nums | Return nums => nums end.

Definition fits_uint64 (nums : list Z) : Prop :=
  Forall (fun v => 0 <= v <= ULLONG_MAX) nums.

(** The shape of the nested loops of [cgroup_cmp]: [found] is incremented
    for every pair the test holds for. *)
Definition count_row {B : Type} (test : B -> bool) (lb : list B) (found : Z)
  : Z :=
  fold_left (fun found b => if test b then found + 1 else found) lb found.

Definition count_pairs {A B : Type} (test : A -> B -> bool)
  (la : list A) (lb : list B) (found : Z) : Z :=
  fold_left (fun found a => count_row (test a) lb found) la found.

(** ** The groups a [Cores] option describes *)

Section GroupSpecs.

Context `{Daemon}.

(** The cores [oconfig_to_cgroups] reads out of a value: the parser works
    on the copy [sstrncpy] made of it. *)
Definition parsed_cores (s : string) : list Z :=
  strlisttonums (sstrncpy s DATA_MAX_NAME_LEN) (Z.to_nat RDTMON_MAX_CORES).

(** The group such a value stands for, in a slot that held [cg]: the
    description is the whole value, the cores are narrowed to
    [unsigned]. *)
Definition group_for (s : string) (cg : rdtmon_core_group_t)
  : rdtmon_core_group_t :=
  {| desc := Some s;
     num_cores := Z.of_nat (length (parsed_cores s));
     cores := Some (map (fun c => c mod UINT_MODULUS) (parsed_cores s));
     events := events cg |}.

(** The values that name a group: the strings that are not empty. *)
Definition group_values (vals : list oconfig_value_t) : list string :=
  omap (fun v => match v with
                 | OCONFIG_TYPE_STRING (Some s) =>
                     if (String.length s =? 0)%nat then None else Some s
                 | _ => None
                 end) vals.

End GroupSpecs.

(** The number of groups a [Cores] option stands for in a world: one for
    each value that is not empty, [RDTMON_MAX_CORES] at most; and when
    no value names a group, one for each core of the topology. *)
Definition group_count {P : Type} `{PqosLib P} (item : oconfig_item_t)
  (w : world P) : Z :=
  match group_values (item_values item) with
  | [] =>
      match g_rdtmon w with
      | Some ctx =>
          match pqos_cpu ctx with
          | Some cpu => to_int (cpu_num_cores cpu)
          | None => 0
          end
      | None => 0
      end
  | gv => Z.min (Z.of_nat (length gv)) RDTMON_MAX_CORES
  end.

(** ** Shutdown *)

(** [pqos_mon_stop], which [rdtmon_shutdown] alone calls: the status and
    the state of the library afterwards. *)
Class PqosStop (P : Type) : Type := {
  pqos_mon_stop : P -> option pqos_mon_data -> Z * P;
}.

Section Shutdown.

Context {P : Type} `{PqosLib P} `{PqosStop P}.

(** A call into the library the trace has no event for. *)
Definition call_unrecorded {A : Type} (f : P -> A * P) : M P A :=
  fun w => let '(a, p) := f (pqos w) in
           Some (a, Build_world (g_rdtmon w) (heap w) p (trace w)).

(** The loop of [rdtmon_shutdown] over the groups, from group [i] on; the
    status of [pqos_mon_stop] is dropped. *)
Fixpoint rdtmon_shutdown_loop (todo : nat) (i : Z) : M P unit :=
  match todo with
  | O => pure tt
  | S todo' =>
      let* ctx := deref_ctx in
      let* slot := deref (pgroups ctx !! Z.to_nat i) in
      let* _ := call_unrecorded (fun p => pqos_mon_stop p slot) in
      rdtmon_shutdown_loop todo' (i + 1)
  end.

(** [rdtmon_shutdown]; the status of [pqos_fini] is only logged, and
    [sfree] leaves [g_rdtmon] at [NULL]. *)
Definition rdtmon_shutdown : M P Z :=
  fun w =>
    match g_rdtmon w with
    | None => pure (- EINVAL) w
    | Some ctx =>
        (let* 'tt := rdtmon_shutdown_loop (Z.to_nat (num_groups ctx)) 0 in
         let* _ := call EvPqosFini pqos_fini in
         let* 'tt := rdtmon_free_cgroups in
         let* 'tt := set_g_rdtmon None in
         pure 0) w
    end.

(** The library once [pqos_mon_stop] was called on each of the slots, one
    after the other. *)
Definition stopped (slots : list (option pqos_mon_data)) (p : P) : P :=
  fold_left (fun p slot => (pqos_mon_stop p slot).2) slots p.

End Shutdown.

(** A library whose [pqos_mon_stop] always succeeds. *)
Definition mock_stop : PqosStop Mock.platform :=
  {| pqos_mon_stop := fun p _ => (Mock.RETVAL_OK, p) |}.

(** ** What a start and a cycle hand to the outside *)

Section Handed.

Context {P : Type} `{PqosLib P} `{Daemon}.

(** The call [rdtmon_init] makes for a group. *)
Definition start_event (cg : rdtmon_core_group_t) : event :=
  EvPqosMonStart (num_cores cg) (cores cg) (events cg) (desc cg).

(** What [pqos_mon_start] answers for the group in slot [i] of the
    tables [cgs] and [pgs] when the library is in state [p]: the status,
    what it left in the monitoring structure, and its next state. *)
Definition start_at (cgs : list rdtmon_core_group_t)
  (pgs : list (option pqos_mon_data)) (p : P) (i : nat)
  : Z * option pqos_mon_data * P :=
  let cg := nth i cgs zero_cgroup in
  pqos_mon_start p (num_cores cg) (cores cg) (events cg) (desc cg)
    (nth i pgs None).

(** The library once the groups in the [count] slots from [from] on were
    started one after the other, from the state [p]. *)
Definition lib_after_starts (cgs : list rdtmon_core_group_t)
  (pgs : list (option pqos_mon_data)) (from count : nat) (p : P) : P :=
  fold_left (fun p i => (start_at cgs pgs p i).2) (seq from count) p.

(** In such a run, the status the start of group [i] returns and the
    slot of the group afterwards: the library writes into the structure
    the pointer leads to, the pointer stays. *)
Definition start_status (cgs : list rdtmon_core_group_t)
  (pgs : list (option pqos_mon_data)) (from : nat) (p : P) (i : nat) : Z :=
  (start_at cgs pgs (lib_after_starts cgs pgs from (i - from) p) i).1.1.

Definition started_slot (cgs : list rdtmon_core_group_t)
  (pgs : list (option pqos_mon_data)) (from : nat) (p : P) (i : nat)
  : option pqos_mon_data :=
  match nth i pgs None,
        (start_at cgs pgs (lib_after_starts cgs pgs from (i - from) p) i).1.2
  with
  | Some _, Some data => Some data
  | slot, _ => slot
  end.

(** The records of [rdtmon_submit_gauge] and [rdtmon_submit_mbm]. *)
Definition gauge_record (name a_type : string) (value : gauge_t)
  : value_list_t :=
  {| vl_values := [value];
     vl_host := sstrncpy hostname_g DATA_MAX_NAME_LEN;
     vl_plugin := sstrncpy RDTMON_PLUGIN DATA_MAX_NAME_LEN;
     vl_plugin_instance := plugin_instance_of name;
     vl_type := sstrncpy a_type DATA_MAX_NAME_LEN |}.

Definition mbm_record (name : string) (pv : pqos_event_values)
  : value_list_t :=
  {| vl_values := [gauge_of_uint64 (mbm_local pv);
                   gauge_of_uint64 (mbm_remote pv);
                   gauge_of_uint64 (mbm_total pv);
                   gauge_of_uint64 (mbm_local_delta pv);
                   gauge_of_uint64 (mbm_remote_delta pv);
                   gauge_of_uint64 (mbm_total_delta pv)];
     vl_host := sstrncpy hostname_g DATA_MAX_NAME_LEN;
     vl_plugin := sstrncpy RDTMON_PLUGIN DATA_MAX_NAME_LEN;
     vl_plugin_instance := plugin_instance_of name;
     vl_type := sstrncpy "mbm" DATA_MAX_NAME_LEN |}.

(** The records a group named [name] with the values [pv] gives rise to
    in a cycle, in the order of their dispatch. *)
Definition group_records (cg : rdtmon_core_group_t) (name : string)
  (pv : pqos_event_values) : list value_list_t :=
  (if has_event (events cg) PQOS_MON_EVENT_L3_OCCUP
   then [gauge_record name "llc" (gauge_of_uint64 (llc pv))] else [])
  ++ (if has_event (events cg) PQOS_PERF_EVENT_IPC
      then [gauge_record name "ipc" (gauge_of_double (ipc pv))] else [])
  ++ (if has_event (events cg)
           (Z.lor (Z.lor PQOS_MON_EVENT_LMEM_BW PQOS_MON_EVENT_TMEM_BW)
              PQOS_MON_EVENT_RMEM_BW)
      then [mbm_record name pv] else []).

(** The same for slot [k] of the tables of a context. *)
Definition records_at (ctx : rdtmon_ctx_t cap_t) (k : nat)
  : list value_list_t :=
  match cgroups ctx !! k, pgroups ctx !! k with
  | Some cg, Some (Some data) =>
      match desc cg with
      | Some name => group_records cg name (values data)
      | None => []
      end
  | _, _ => []
  end.

(** Slot [k] of a context holds a group with a description and a
    monitoring structure. *)
Definition monitored (ctx : rdtmon_ctx_t cap_t) (k : nat) : Prop :=
  exists cg name data,
    cgroups ctx !! k = Some cg /\ desc cg = Some name /\
    pgroups ctx !! k = Some (Some data).

End Handed.


(** * Properties *)

(** ** Properties of the parser *)

Section ParserFacts.

Lemma append_new_length (nums : list Z) (n : Z) :
  (length nums <= length (append_new nums n) <= S (length nums))%nat.
Proof.
  unfold append_new. destruct (isdup nums n).
  - lia.
  - rewrite length_app. simpl. lia.
Qed.

Lemma isdup_elem_of (nums : list Z) (n : Z) :
  isdup nums n = true <-> n ∈ nums.
Proof.
  unfold isdup. rewrite existsb_exists, list_elem_of_In. split.
  - intros [x [Hx Heq]]. apply Z.eqb_eq in Heq. now subst.
  - intros H. exists n. split; [assumption | apply Z.eqb_refl].
Qed.

Lemma append_new_elem_of (nums : list Z) (n : Z) : n ∈ append_new nums n.
Proof.
  unfold append_new. destruct (isdup nums n) eqn:E.
  - now apply isdup_elem_of.
  - apply elem_of_app. right. now apply list_elem_of_singleton.
Qed.

Lemma append_new_incl (nums : list Z) (n x : Z) :
  x ∈ nums -> x ∈ append_new nums n.
Proof.
  unfold append_new. destruct (isdup nums n); [easy |].
  intros H. apply elem_of_app. now left.
Qed.

Lemma append_new_NoDup (nums : list Z) (n : Z) :
  NoDup nums -> NoDup (append_new nums n).
Proof.
  intros Hnd. unfold append_new. destruct (isdup nums n) eqn:E; [assumption |].
  apply NoDup_app; repeat split.
  - assumption.
  - intros x Hx Hin. apply list_elem_of_singleton in Hin. subst x.
    apply isdup_elem_of in Hx. congruence.
  - apply NoDup_singleton.
Qed.

Lemma range_loop_within (fuel max : nat) :
  forall n end_ nums,
    (length nums < max)%nat -> within max (range_loop fuel max n end_ nums).
Proof.
  induction fuel as [| fuel IH]; intros n end_ nums Hlen; simpl.
  - lia.
  - destruct (n <=? end_); [| exact Hlen].
    pose proof (append_new_length nums n) as Hl.
    destruct (max <=? length (append_new nums n))%nat eqn:E.
    + simpl. lia.
    + apply Nat.leb_gt in E. now apply IH.
Qed.

Lemma parse_token_within (max : nat) (token : list ascii) (nums : list Z) :
  (length nums < max)%nat -> within max (parse_token max token nums).
Proof.
  intros Hlen. unfold parse_token.
  destruct (LibC.skip_spaces token) as [| c t]; [exact Hlen |].
  destruct (LibC.strchr (c :: t) hyphen) as [[a b] |].
  - destruct (strtouint64 a) as [start |]; [| simpl; lia].
    destruct (strtouint64 b) as [end_ |]; [| simpl; lia].
    destruct (end_ <? start); now apply range_loop_within.
  - destruct (strtouint64 (c :: t)) as [val |]; [| simpl; lia].
    pose proof (append_new_length nums val) as Hl.
    destruct (max <=? length (append_new nums val))%nat eqn:E; simpl.
    + lia.
    + now apply Nat.leb_gt in E.
Qed.

Lemma parse_tokens_length (max : nat) (tokens : list (list ascii)) :
  forall nums,
    (length nums < max)%nat ->
    (length (parse_tokens max tokens nums) <= max)%nat.
Proof.
  induction tokens as [| token rest IH]; intros nums Hlen; simpl.
  - lia.
  - pose proof (parse_token_within max token nums Hlen) as Hw.
    destruct (parse_token max token nums); simpl in Hw.
    + now apply IH.
    + exact Hw.
Qed.

(** A run that ends with [max] values has returned at the capacity
    check, so the tokens that follow are never read. *)
Lemma parse_tokens_full (max : nat) (pre post : list (list ascii)) :
  forall nums,
    (length nums < max)%nat ->
    length (parse_tokens max pre nums) = max ->
    parse_tokens max (pre ++ post) nums = parse_tokens max pre nums.
Proof.
  induction pre as [| token rest IH]; intros nums Hlen Hfull; simpl in *.
  - lia.
  - pose proof (parse_token_within max token nums Hlen) as Hw.
    destruct (parse_token max token nums); simpl in Hw.
    + now apply IH.
    + reflexivity.
Qed.

(** *** The range loop never runs out of fuel

    Each iteration leaves the value it visited in [nums]; the values
    visited are distinct as long as there are at most [2^64] of them, so
    [k] iterations need [k] slots and the capacity check returns before
    [max] iterations are over. *)

Lemma visited_bound (k : nat) (n : Z) (nums : list Z) :
  Z.of_nat k <= 2 ^ 64 ->
  (forall i, (i < k)%nat -> (n - 1 - Z.of_nat i) mod 2 ^ 64 ∈ nums) ->
  (k <= length nums)%nat.
Proof.
  intros Hk Hvis.
  set (f := fun i : nat => (n - 1 - Z.of_nat i) mod 2 ^ 64).
  assert (Hnd : NoDup (f <$> seq 0 k)).
  { apply NoDup_fmap_2_strong; [| apply NoDup_seq].
    intros x y Hx Hy Hxy. apply elem_of_seq in Hx, Hy. unfold f in Hxy.
    assert (H64 : 0 < 2 ^ 64) by reflexivity.
    pose proof (Z.div_mod (n - 1 - Z.of_nat x) (2 ^ 64)) as Dx.
    pose proof (Z.div_mod (n - 1 - Z.of_nat y) (2 ^ 64)) as Dy.
    rewrite Hxy in Dx.
    set (qx := (n - 1 - Z.of_nat x) / 2 ^ 64) in *.
    set (qy := (n - 1 - Z.of_nat y) / 2 ^ 64) in *.
    set (M := 2 ^ 64) in *.
    assert (Z.of_nat y - Z.of_nat x = M * (qx - qy)) by lia.
    assert (qx - qy = 0) by nia.
    lia. }
  assert (Hsub : f <$> seq 0 k ⊆+ nums).
  { apply NoDup_submseteq; [exact Hnd |].
    intros x Hx. apply list_elem_of_fmap in Hx as [i [-> Hi]].
    apply elem_of_seq in Hi. apply Hvis. lia. }
  apply submseteq_length in Hsub.
  rewrite length_fmap, length_seq in Hsub. exact Hsub.
Qed.

Lemma visited_step (k : nat) (n : Z) (nums : list Z) :
  0 <= n < 2 ^ 64 ->
  (forall i, (i < k)%nat -> (n - 1 - Z.of_nat i) mod 2 ^ 64 ∈ nums) ->
  forall i, (i < S k)%nat ->
    ((n + 1) mod 2 ^ 64 - 1 - Z.of_nat i) mod 2 ^ 64 ∈ append_new nums n.
Proof.
  intros Hn Hvis i Hi.
  replace (((n + 1) mod 2 ^ 64 - 1 - Z.of_nat i) mod 2 ^ 64)
    with ((n - Z.of_nat i) mod 2 ^ 64).
  2:{ replace ((n + 1) mod 2 ^ 64 - 1 - Z.of_nat i)
        with ((n + 1) mod 2 ^ 64 - (1 + Z.of_nat i)) by lia.
      rewrite Zminus_mod_idemp_l. f_equal. lia. }
  destruct i as [| i].
  - rewrite Z.sub_0_r, Z.mod_small by lia. apply append_new_elem_of.
  - apply append_new_incl.
    replace (n - Z.of_nat (S i)) with (n - 1 - Z.of_nat i) by lia.
    apply Hvis. lia.
Qed.

Lemma range_loop_fuel_gen (max : nat) (end_ : Z) :
  Z.of_nat max <= 2 ^ 64 ->
  forall fuel1 fuel2 k n nums,
    0 <= n < 2 ^ 64 ->
    Z.of_nat k <= 2 ^ 64 ->
    (forall i, (i < k)%nat -> (n - 1 - Z.of_nat i) mod 2 ^ 64 ∈ nums) ->
    (length nums < max)%nat ->
    (max <= k + fuel1)%nat -> (max <= k + fuel2)%nat ->
    range_loop fuel1 max n end_ nums = range_loop fuel2 max n end_ nums.
Proof.
  intros Hmax. induction fuel1 as [| fuel1 IH];
    intros fuel2 k n nums Hn Hk Hvis Hlen Hf1 Hf2;
    pose proof (visited_bound k n nums Hk Hvis) as Hkl.
  - lia.
  - destruct fuel2 as [| fuel2]; [lia |].
    + simpl. destruct (n <=? end_); [| reflexivity].
      destruct (max <=? length (append_new nums n))%nat eqn:E; [reflexivity |].
      apply Nat.leb_gt in E.
      apply (IH fuel2 (S k)); try lia.
      * apply Z.mod_pos_bound. reflexivity.
      * now apply visited_step.
Qed.

(** More fuel than [max] changes nothing. *)
Lemma range_loop_fuel (fuel max : nat) (n end_ : Z) (nums : list Z) :
  Z.of_nat max <= UINT_MAX ->
  0 <= n <= ULLONG_MAX ->
  (length nums < max)%nat ->
  (max <= fuel)%nat ->
  range_loop fuel max n end_ nums = range_loop max max n end_ nums.
Proof.
  intros Hmax Hn Hlen Hfuel.
  apply (range_loop_fuel_gen max end_) with (k := O).
  - unfold UINT_MAX, UINT_MODULUS in Hmax. lia.
  - unfold ULLONG_MAX in Hn. lia.
  - lia.
  - intros i Hi. lia.
  - exact Hlen.
  - lia.
  - lia.
Qed.

(** With enough fuel, the loop returns only at the capacity check. *)
Lemma range_loop_return_gen (max : nat) (end_ : Z) :
  Z.of_nat max <= 2 ^ 64 ->
  forall fuel k n nums r,
    0 <= n < 2 ^ 64 ->
    Z.of_nat k <= 2 ^ 64 ->
    (forall i, (i < k)%nat -> (n - 1 - Z.of_nat i) mod 2 ^ 64 ∈ nums) ->
    (length nums < max)%nat ->
    (max <= k + fuel)%nat ->
    range_loop fuel max n end_ nums = Return r ->
    length r = max.
Proof.
  intros Hmax. induction fuel as [| fuel IH];
    intros k n nums r Hn Hk Hvis Hlen Hf Hret;
    pose proof (visited_bound k n nums Hk Hvis) as Hkl.
  - lia.
  - simpl in Hret. destruct (n <=? end_); [| discriminate].
    pose proof (append_new_length nums n) as Hl.
    destruct (max <=? length (append_new nums n))%nat eqn:E.
    + apply Nat.leb_le in E. injection Hret as <-. lia.
    + apply Nat.leb_gt in E.
      apply (IH (S k) ((n + 1) mod 2 ^ 64) (append_new nums n)); try lia.
      * apply Z.mod_pos_bound. reflexivity.
      * now apply visited_step.
      * exact Hret.
Qed.

(** *** The numbers [strtouint64] yields fit [uint64_t] *)

Lemma digit_in_base_nonneg (base : Z) (c : ascii) (d : Z) :
  LibC.digit_in_base base c = Some d -> 0 <= d < base.
Proof.
  unfold LibC.digit_in_base, LibC.digit_value.
  set (n := LibC.char_code c).
  destruct ((48 <=? n) && (n <=? 57)) eqn:E1.
  - destruct (n - 48 <? base) eqn:Eb; [| discriminate].
    intros [= <-]. apply andb_prop in E1 as [? ?]. lia.
  - destruct ((97 <=? n) && (n <=? 122)) eqn:E2.
    + destruct (n - 87 <? base) eqn:Eb; [| discriminate].
      intros [= <-]. apply andb_prop in E2 as [? ?]. lia.
    + destruct ((65 <=? n) && (n <=? 90)) eqn:E3; [| discriminate].
      destruct (n - 55 <? base) eqn:Eb; [| discriminate].
      intros [= <-]. apply andb_prop in E3 as [? ?]. lia.
Qed.

Lemma scan_digits_range (base : Z) (s : list ascii) :
  0 < base ->
  forall acc ovf v o rest,
    0 <= acc <= ULLONG_MAX ->
    LibC.scan_digits base acc ovf s = (v, o, rest) ->
    0 <= v <= ULLONG_MAX.
Proof.
  intros Hbase. induction s as [| c s IH]; intros acc ovf v o rest Hacc; simpl.
  - intros [= <- _ _]. exact Hacc.
  - destruct (LibC.digit_in_base base c) as [d |] eqn:Ed.
    + apply digit_in_base_nonneg in Ed.
      destruct (ovf || (ULLONG_MAX <? acc * base + d)) eqn:Eo.
      * apply IH. unfold ULLONG_MAX. lia.
      * apply IH. apply orb_false_elim in Eo as [_ Eo]. nia.
    + intros [= <- _ _]. exact Hacc.
Qed.

Lemma strtoull_base_pos (s : list ascii) : 0 < fst (LibC.strtoull_base s).
Proof.
  unfold LibC.strtoull_base.
  destruct s as [| z [| x [| h t]]];
    repeat match goal with
           | |- context [if ?b then _ else _] => destruct b
           end; simpl; lia.
Qed.

Lemma strtoull_convert_range (nptr : list ascii) (neg : bool) (base : Z)
  (s : list ascii) :
  0 < base -> 0 <= fst (LibC.strtoull_convert nptr neg base s) <= ULLONG_MAX.
Proof.
  intros Hb. unfold LibC.strtoull_convert.
  destruct s as [| c t]; [simpl; unfold ULLONG_MAX; lia |].
  destruct (LibC.digit_in_base base c); [| simpl; unfold ULLONG_MAX; lia].
  destruct (LibC.scan_digits base 0 false (c :: t)) as [[v ovf] rest] eqn:E.
  apply scan_digits_range in E; [| lia | unfold ULLONG_MAX; lia].
  simpl. destruct ovf; [unfold ULLONG_MAX; lia |].
  destruct neg; [| exact E].
  pose proof (Z.mod_pos_bound (2 ^ 64 - v) (2 ^ 64) eq_refl).
  unfold ULLONG_MAX. lia.
Qed.

Lemma strtoull_range (s : list ascii) :
  0 <= fst (LibC.strtoull s) <= ULLONG_MAX.
Proof.
  unfold LibC.strtoull.
  destruct (LibC.strtoull_sign (LibC.skip_spaces s)) as [neg s2].
  pose proof (strtoull_base_pos s2) as Hb.
  destruct (LibC.strtoull_base s2) as [base s3].
  now apply strtoull_convert_range.
Qed.

Lemma strtouint64_range (s : list ascii) (v : Z) :
  strtouint64 s = Some v -> 0 <= v <= ULLONG_MAX.
Proof.
  unfold strtouint64. pose proof (strtoull_range s) as H.
  destruct (LibC.strtoull s) as [n endptr]. simpl in H.
  destruct s; [discriminate |]. destruct endptr; [| discriminate].
  now intros [= <-].
Qed.

(** *** What a step that returns has returned *)

(** A token makes the parser return either 0 (an error) or a full
    output. *)
Lemma parse_token_return (max : nat) (token : list ascii) (nums r : list Z) :
  Z.of_nat max <= UINT_MAX ->
  (length nums < max)%nat ->
  parse_token max token nums = Return r ->
  r = [] \/ length r = max.
Proof.
  intros Hmax Hlen. unfold parse_token.
  destruct (LibC.skip_spaces token) as [| c t]; [discriminate |].
  destruct (LibC.strchr (c :: t) hyphen) as [[a b] |].
  - destruct (strtouint64 a) as [start |] eqn:Ea; [| intros [= <-]; now left].
    destruct (strtouint64 b) as [end_ |] eqn:Eb; [| intros [= <-]; now left].
    apply strtouint64_range in Ea, Eb. unfold ULLONG_MAX in Ea, Eb.
    unfold UINT_MAX, UINT_MODULUS in Hmax.
    intros Hret. right.
    destruct (end_ <? start);
      eapply (range_loop_return_gen max _ ltac:(lia) max 0%nat);
      try exact Hret; try lia; intros i Hi; lia.
  - destruct (strtouint64 (c :: t)) as [val |]; [| intros [= <-]; now left].
    pose proof (append_new_length nums val) as Hl.
    destruct (max <=? length (append_new nums val))%nat eqn:E; [| discriminate].
    apply Nat.leb_le in E. intros [= <-]. right. lia.
Qed.

End ParserFacts.

Example parse_plain : strlisttonums "0,1,2,3"%string 512 = [0; 1; 2; 3].
Proof. vm_compute. reflexivity. Qed.

Example parse_descending : strlisttonums "3-0"%string 512 = [0; 1; 2; 3].
Proof. vm_compute. reflexivity. Qed.

Example parse_dedup : strlisttonums "1,1,2"%string 512 = [1; 2].
Proof. vm_compute. reflexivity. Qed.

Example parse_empty :
  strlisttonums ""%string 512 = [] /\ strlisttonums " , "%string 512 = [].
Proof. vm_compute. split; reflexivity. Qed.

Example parse_garbage : strlisttonums "abc"%string 512 = [].
Proof. vm_compute. reflexivity. Qed.

Example parse_wraps :
  strlisttonums "0xfffffffffffffffe-0xffffffffffffffff"%string 4
  = [ULLONG_MAX - 1; ULLONG_MAX; 0; 1].
Proof. vm_compute. reflexivity. Qed.


(** ** A smaller capacity keeps the first values *)

Section Truncation.

Lemma append_new_extends (nums : list Z) (n : Z) :
  exists t, append_new nums n = nums ++ t.
Proof.
  unfold append_new. destruct (isdup nums n).
  - exists []. now rewrite app_nil_r.
  - now exists [n].
Qed.

Lemma range_loop_extends (fuel max : nat) (end_ : Z) :
  forall n nums,
    match range_loop fuel max n end_ nums with
    | Next r | Return r => exists t, r = nums ++ t
    end.
Proof.
  induction fuel as [| fuel IH]; intros n nums; simpl.
  - exists []. now rewrite app_nil_r.
  - destruct (n <=? end_); [| exists []; now rewrite app_nil_r].
    destruct (append_new_extends nums n) as [t Ht].
    destruct (max <=? length (append_new nums n))%nat.
    + now exists t.
    + specialize (IH ((n + 1) mod 2 ^ 64) (append_new nums n)).
      destruct (range_loop fuel max ((n + 1) mod 2 ^ 64) end_ (append_new nums n));
        destruct IH as [t' ->]; exists (t ++ t'); rewrite Ht; symmetry; apply app_assoc.
Qed.

Lemma parse_token_extends (max : nat) (token : list ascii) (nums : list Z) :
  match parse_token max token nums with
  | Next r => exists t, r = nums ++ t
  | Return r => r = [] \/ exists t, r = nums ++ t
  end.
Proof.
  unfold parse_token.
  destruct (LibC.skip_spaces token) as [| c s];
    [exists []; now rewrite app_nil_r |].
  destruct (LibC.strchr (c :: s) hyphen) as [[a b] |].
  - destruct (strtouint64 a) as [start |]; [| now left].
    destruct (strtouint64 b) as [end_ |]; [| now left].
    destruct (end_ <? start).
    + pose proof (range_loop_extends max max start end_ nums) as Hx.
      destruct (range_loop max max end_ start nums); [exact Hx | now right].
    + pose proof (range_loop_extends max max end_ start nums) as Hx.
      destruct (range_loop max max start end_ nums); [exact Hx | now right].
  - destruct (strtouint64 (c :: s)) as [val |]; [| now left].
    destruct (append_new_extends nums val) as [t Ht].
    destruct (max <=? length (append_new nums val))%nat;
      [right |]; now exists t.
Qed.

Lemma parse_tokens_extends (max : nat) (tokens : list (list ascii)) :
  forall nums,
    parse_tokens max tokens nums = []
    \/ exists t, parse_tokens max tokens nums = nums ++ t.
Proof.
  induction tokens as [| token rest IH]; intros nums; simpl.
  - right. exists []. now rewrite app_nil_r.
  - pose proof (parse_token_extends max token nums) as Hx.
    destruct (parse_token max token nums) as [r | r].
    + destruct Hx as [t ->]. destruct (IH (nums ++ t)) as [Hnil | [t' Ht']].
      * now left.
      * right. exists (t ++ t'). rewrite Ht'. symmetry. apply app_assoc.
    + destruct Hx as [-> | Hx]; [now left | now right].
Qed.

(** The range loop under two capacities: the runs agree until the smaller
    capacity is reached, and the larger run goes on from the output the
    smaller one returned. *)
Lemma range_loop_sim (max max' : nat) (end_ : Z) :
  (max <= max')%nat ->
  Z.of_nat max <= 2 ^ 64 ->
  forall fuel fuel' k n nums,
    (fuel <= fuel')%nat ->
    0 <= n < 2 ^ 64 ->
    Z.of_nat k <= 2 ^ 64 ->
    (forall i, (i < k)%nat -> (n - 1 - Z.of_nat i) mod 2 ^ 64 ∈ nums) ->
    (length nums < max)%nat ->
    (max <= k + fuel)%nat ->
    match range_loop fuel max n end_ nums with
    | Next r => range_loop fuel' max' n end_ nums = Next r
    | Return r =>
        length r = max /\
        match range_loop fuel' max' n end_ nums with
        | Next r' | Return r' => exists t, r' = r ++ t
        end
    end.
Proof.
  intros Hle Hmax. induction fuel as [| fuel IH];
    intros fuel' k n nums Hfuel Hn Hk Hvis Hlen Hf;
    pose proof (visited_bound k n nums Hk Hvis) as Hkl.
  - lia.
  - destruct fuel' as [| fuel']; [lia |]. simpl.
    destruct (n <=? end_); [| reflexivity].
    pose proof (append_new_length nums n) as Hl.
    destruct (max <=? length (append_new nums n))%nat eqn:E.
    + apply Nat.leb_le in E. split; [lia |].
      destruct (max' <=? length (append_new nums n))%nat.
      * exists []. now rewrite app_nil_r.
      * apply range_loop_extends.
    + apply Nat.leb_gt in E.
      destruct (max' <=? length (append_new nums n))%nat eqn:E';
        [apply Nat.leb_le in E'; lia |].
      apply (IH fuel' (S k)); try lia.
      * apply Z.mod_pos_bound. reflexivity.
      * now apply visited_step.
Qed.

Lemma parse_token_sim (max max' : nat) (token : list ascii) (nums : list Z) :
  (max <= max')%nat ->
  Z.of_nat max <= UINT_MAX ->
  (length nums < max)%nat ->
  match parse_token max token nums with
  | Next r => parse_token max' token nums = Next r
  | Return r =>
      (r = [] /\ parse_token max' token nums = Return [])
      \/ (length r = max /\
          match parse_token max' token nums with
          | Next r' | Return r' => exists t, r' = r ++ t
          end)
  end.
Proof.
  intros Hle Hmax Hlen. unfold parse_token.
  destruct (LibC.skip_spaces token) as [| c s]; [reflexivity |].
  destruct (LibC.strchr (c :: s) hyphen) as [[a b] |].
  - destruct (strtouint64 a) as [start |] eqn:Ea; [| now left].
    destruct (strtouint64 b) as [end_ |] eqn:Eb; [| now left].
    apply strtouint64_range in Ea, Eb. unfold ULLONG_MAX in Ea, Eb.
    unfold UINT_MAX, UINT_MODULUS in Hmax.
    assert (Hsim : forall lo hi, 0 <= lo < 2 ^ 64 ->
              match range_loop max max lo hi nums with
              | Next r => range_loop max' max' lo hi nums = Next r
              | Return r =>
                  length r = max /\
                  match range_loop max' max' lo hi nums with
                  | Next r' | Return r' => exists t, r' = r ++ t
                  end
              end).
    { intros lo hi Hlo.
      apply (range_loop_sim max max' hi Hle ltac:(lia) max max' 0%nat);
        first [lia | intros i Hi; lia]. }
    destruct (end_ <? start).
    + specialize (Hsim end_ start ltac:(lia)).
      destruct (range_loop max max end_ start nums); [exact Hsim | now right].
    + specialize (Hsim start end_ ltac:(lia)).
      destruct (range_loop max max start end_ nums); [exact Hsim | now right].
  - destruct (strtouint64 (c :: s)) as [val |]; [| now left].
    pose proof (append_new_length nums val) as Hl.
    destruct (max <=? length (append_new nums val))%nat eqn:E.
    + apply Nat.leb_le in E. right. split; [lia |].
      destruct (max' <=? length (append_new nums val))%nat;
        exists []; now rewrite app_nil_r.
    + apply Nat.leb_gt in E.
      destruct (max' <=? length (append_new nums val))%nat eqn:E';
        [apply Nat.leb_le in E'; lia | reflexivity].
Qed.

(** Unless the run with the larger capacity fails, the run with the
    smaller one returns its first [max] values. *)
Lemma parse_tokens_sim (max max' : nat) (tokens : list (list ascii)) :
  (max <= max')%nat ->
  Z.of_nat max <= UINT_MAX ->
  forall nums,
    (length nums < max)%nat ->
    parse_tokens max' tokens nums = []
    \/ parse_tokens max tokens nums = take max (parse_tokens max' tokens nums).
Proof.
  intros Hle Hmax. induction tokens as [| token rest IH]; intros nums Hlen; simpl.
  - right. symmetry. apply take_ge. lia.
  - pose proof (parse_token_sim max max' token nums Hle Hmax Hlen) as Hsim.
    pose proof (parse_token_within max token nums Hlen) as Hw.
    destruct (parse_token max token nums) as [r | r]; simpl in Hw.
    + rewrite Hsim. now apply IH.
    + destruct Hsim as [[-> ->] | [Hfull Hbig]]; [now left |].
      destruct (parse_token max' token nums) as [r' | r'];
        destruct Hbig as [t ->].
      * destruct (parse_tokens_extends max' rest (r ++ t)) as [Hnil | [t' ->]];
          [now left | right].
        rewrite <- app_assoc. symmetry. now apply take_app_length'.
      * right. symmetry. now apply take_app_length'.
Qed.

End Truncation.

(** ** The integers [strtouint64] accepts *)

Section Literals.

Lemma char_code_range (c : ascii) : 0 <= LibC.char_code c < 256.
Proof.
  unfold LibC.char_code. pose proof (N_ascii_bounded c) as Hb.
  split; [apply N2Z.is_nonneg |].
  change 256 with (Z.of_N 256). now apply N2Z.inj_lt.
Qed.



















End Literals.

(** ** The parser: capacity, errors and the documented example *)

Lemma strchr_split (t : list ascii) (c : ascii) (a b : list ascii) :
  LibC.strchr t c = Some (a, b) -> t = a ++ c :: b.
Proof.
  revert a b. induction t as [| d t IH]; intros a b; simpl; [discriminate |].
  destruct (Ascii.eqb d c) eqn:E.
  - apply Ascii.eqb_eq in E. subst d. now intros [= <- <-].
  - destruct (LibC.strchr t c) as [[a' b'] |]; [| discriminate].
    intros [= <- <-]. simpl. f_equal. now apply IH.
Qed.





(** C7: with a capacity [max > 0] the result never holds more than [max]
    values; once the tokens read so far have filled the output with [max]
    values the parser returns just that, a non-empty result and so a
    success, whatever tokens follow; and the values it returns are the
    first [max] of those a larger capacity yields, the later ones being
    dropped. *)
Theorem strlisttonums_stops_at_capacity (s : string) (max : nat) :
  (0 < max)%nat ->
  (length (strlisttonums s max) <= max)%nat /\
  (forall pre post,
      tokens_of s = pre ++ post ->
      length (parse_tokens max pre []) = max ->
      strlisttonums s max = parse_tokens max pre [] /\
      strlisttonums s max <> []) /\
  (forall max',
      (max <= max')%nat ->
      Z.of_nat max <= UINT_MAX ->
      strlisttonums s max' <> [] ->
      strlisttonums s max = take max (strlisttonums s max')).
Proof.
  intros Hmax. unfold strlisttonums.
  destruct (max =? 0)%nat eqn:E; [apply Nat.eqb_eq in E; lia |].
  split; [| split].
  - apply parse_tokens_length. simpl. lia.
  - intros pre post -> Hfull.
    rewrite parse_tokens_full by (simpl; lia || exact Hfull).
    split; [reflexivity |].
    intros Hnil. rewrite Hnil in Hfull. simpl in Hfull. lia.
  - intros max' Hle Hrange.
    destruct (max' =? 0)%nat eqn:E'; [apply Nat.eqb_eq in E'; lia |].
    intros Hok.
    destruct (parse_tokens_sim max max' (tokens_of s) Hle Hrange [])
      as [Hnil | Htake]; [simpl; lia | contradiction | exact Htake].
Qed.

Lemma strlisttonums_stops_at_capacity_witness :
  (0 < 3)%nat /\
  tokens_of "7,5-9,x,11" = tokens_of "7,5-9" ++ tokens_of "x,11" /\
  strlisttonums "7,5-9,x,11" 3 = [7; 5; 6] /\
  strlisttonums "7,5-9" 3 = take 3 (strlisttonums "7,5-9" 512).
Proof.
  pose proof (strlisttonums_stops_at_capacity "7,5-9,x,11" 3 ltac:(lia))
    as (_ & Hstop & _).
  specialize (Hstop (tokens_of "7,5-9") (tokens_of "x,11") eq_refl eq_refl).
  destruct Hstop as [Hstop _].
  pose proof (strlisttonums_stops_at_capacity "7,5-9" 3 ltac:(lia))
    as (_ & _ & Hfirst).
  split; [lia |]. split; [reflexivity |]. split.
  - rewrite Hstop. reflexivity.
  - apply Hfirst; [lia | vm_compute; discriminate | vm_compute; discriminate].
Defined.






(** The integer literals of the code are not the integers of the
    specification (a decimal numeral, or [0x] with hexadecimal digits).
    A sign, white space before the second number of a range and a
    negated end are read though the specification has none of them; a
    decimal numeral that starts with [0] is read as octal, so that [010]
    is 8 and [08] is rejected. *)
Lemma spec_integer_literal (t : list ascii) :
  spec_integer t = true ->
  integer_literal t = true
  \/ exists rest, t = "0"%char :: rest /\ forallb is_octal_digit rest = false.
Proof.
  assert (Hdec : forall c l,
             forallb is_decimal_digit (c :: l) = true ->
             integer_literal (c :: l) = true
             \/ exists rest, c :: l = "0"%char :: rest
                             /\ forallb is_octal_digit rest = false).
  { intros c l Hall. cbn [forallb] in Hall.
    apply andb_prop in Hall as [Hc Hl].
    assert (Hsp : LibC.isspace c = false).
    { revert Hc. unfold is_decimal_digit, LibC.isspace. cbv zeta.
      generalize (LibC.char_code c). intros n Hn.
      apply andb_prop in Hn as [H1 H2]. apply Z.leb_le in H1, H2.
      apply orb_false_intro; [apply Z.eqb_neq; lia |].
      apply andb_false_intro2. apply Z.leb_gt. lia. }
    assert (Hsg : is_sign c = false).
    { revert Hc. unfold is_decimal_digit, is_sign. cbv zeta.
      generalize (LibC.char_code c). intros n Hn.
      apply andb_prop in Hn as [H1 H2]. apply Z.leb_le in H1, H2.
      apply orb_false_intro; apply Z.eqb_neq; lia. }
    unfold integer_literal. cbn [LibC.skip_spaces]. rewrite Hsp, Hsg.
    unfold unsigned_literal. destruct (is_zero c) eqn:Ez.
    - assert (Hc0 : c = "0"%char).
      { unfold is_zero, LibC.char_code in Ez. apply Z.eqb_eq in Ez.
        change 48 with (Z.of_N (N_of_ascii "0"%char)) in Ez.
        apply N2Z.inj in Ez.
        rewrite <- (ascii_N_embedding c), Ez. reflexivity. }
      subst c.
      destruct (forallb is_octal_digit l) eqn:Eo.
      + left. destruct l as [| x [| h ds]]; [reflexivity | reflexivity |].
        destruct (LibC.is_x x && is_hex_digit h) eqn:Ex; [| reflexivity].
        exfalso. apply andb_prop in Ex as [Ex _].
        cbn [forallb] in Eo. apply andb_prop in Eo as [Eo _].
        revert Ex Eo. unfold LibC.is_x, is_octal_digit. cbv zeta.
        generalize (LibC.char_code x). intros n Hx Hn.
        apply andb_prop in Hn as [H1 H2]. apply Z.leb_le in H1, H2.
        apply orb_prop in Hx as [Hx | Hx]; apply Z.eqb_eq in Hx; lia.
      + right. now exists l.
    - left. now rewrite Hc, Hl. }
  unfold spec_integer. destruct t as [| z [| x [| h ds]]];
    [discriminate | apply Hdec | apply Hdec |].
  destruct (is_zero z && LibC.is_x x) eqn:E; [| apply Hdec].
  intros Hhex. left. apply andb_prop in E as [Ez Ex].
  cbn [forallb] in Hhex. apply andb_prop in Hhex as [Hh Hds].
  assert (Hsp : LibC.isspace z = false).
  { revert Ez. unfold is_zero, LibC.isspace. cbv zeta.
    generalize (LibC.char_code z). intros n Hn. apply Z.eqb_eq in Hn.
    subst n. reflexivity. }
  assert (Hsg : is_sign z = false).
  { revert Ez. unfold is_zero, is_sign.
    generalize (LibC.char_code z). intros n Hn. apply Z.eqb_eq in Hn.
    subst n. reflexivity. }
  unfold integer_literal. cbn [LibC.skip_spaces]. rewrite Hsp, Hsg.
  unfold unsigned_literal. now rewrite Ez, Ex, Hh.
Qed.

Lemma strlisttonums_spec_grammar :
  (spec_bad_token (list_ascii_of_string "+5")
   /\ strlisttonums "+5" 512 = [5])
  /\ (spec_bad_token (list_ascii_of_string "5- 7")
      /\ strlisttonums "5- 7" 512 = [5; 6; 7])
  /\ (spec_bad_token (list_ascii_of_string "1--5")
      /\ strlisttonums "1--5" 4 = [1; 2; 3; 4])
  /\ (~ spec_bad_token (list_ascii_of_string "08")
      /\ strlisttonums "08" 512 = [])
  /\ (~ spec_bad_token (list_ascii_of_string "010")
      /\ strlisttonums "010" 512 = [8]).
Proof.
  assert (Hsplit : forall t : list ascii,
             (forall a b, t = a ++ hyphen :: b ->
                          spec_integer a = false \/ spec_integer b = false) ->
             ~ spec_range t).
  { intros t Hall (a & b & Heq & Ha & Hb).
    destruct (Hall a b Heq); congruence. }
  repeat split; try (vm_compute; reflexivity); try discriminate.
  - apply Hsplit. intros a b Heq.
    destruct a as [| x [| y [| z a]]]; try discriminate Heq;
      injection Heq; intros; try discriminate; subst; destruct a; discriminate.
  - apply Hsplit. intros a b Heq.
    destruct a as [| x [| y [| z [| u a]]]]; try discriminate Heq;
      injection Heq; intros; try discriminate; subst;
      try (right; reflexivity); try (destruct a; discriminate).
  - apply Hsplit. intros a b Heq.
    destruct a as [| x [| y [| z [| u a]]]]; try discriminate Heq;
      injection Heq; intros; try discriminate; subst;
      try (right; reflexivity); try (left; reflexivity);
      try (destruct a; discriminate).
  - intros (_ & Hint & _). discriminate Hint.
  - intros (_ & Hint & _). discriminate Hint.
Qed.

(** C2, as the code has it: each number is converted on its own, so in
    [0x10-12] the start is 16 and the end is the decimal 12; the two are
    swapped and the range is 12..16.  Any capacity of 12 or more gives the
    whole sequence. *)
Theorem strlisttonums_doc_example (max : nat) :
  (12 <= max)%nat ->
  strlisttonums "1,3,5-8,10,0x10-12" max
  = [1; 3; 5; 6; 7; 8; 10; 12; 13; 14; 15; 16].
Proof.
  intros Hmax.
  do 12 (destruct max as [| max]; [lia |]).
  unfold strlisttonums.
  let t := eval vm_compute in (tokens_of "1,3,5-8,10,0x10-12") in
  change (tokens_of "1,3,5-8,10,0x10-12") with t.
  cbv. destruct max; reflexivity.
Qed.

Lemma strlisttonums_doc_example_witness :
  strlisttonums "1,3,5-8,10,0x10-12" (Z.to_nat RDTMON_MAX_CORES)
  = [1; 3; 5; 6; 7; 8; 10; 12; 13; 14; 15; 16].
Proof.
  apply (strlisttonums_doc_example (Z.to_nat RDTMON_MAX_CORES)).
  apply Nat.leb_le. vm_compute. reflexivity.
Defined.

(** C2 with the sequence [16, 17, 18] for [0x10-12] does not hold: the
    parser does not read the end of the range as hexadecimal. *)
Lemma strlisttonums_doc_example_not_hex :
  strlisttonums "1,3,5-8,10,0x10-12" (Z.to_nat RDTMON_MAX_CORES)
  <> [1; 3; 5; 6; 7; 8; 10; 16; 17; 18].
Proof. vm_compute. discriminate. Qed.

(** ** The overlap comparison *)

Section Overlap.

Lemma fold_seq_nth {A : Type} (f : A -> Z -> A) (l : list Z) :
  forall (pre : list Z) (a : A),
    fold_left (fun acc j => f acc (nth j (pre ++ l) 0))
      (seq (length pre) (length l)) a
    = fold_left f l a.
Proof.
  induction l as [| x l IH]; intros pre a; simpl; [reflexivity |].
  rewrite nth_middle.
  specialize (IH (pre ++ [x]) (f a x)).
  rewrite <- app_assoc, length_app in IH. simpl in IH.
  rewrite Nat.add_1_r in IH. exact IH.
Qed.

Lemma fold_seq_nth_0 {A : Type} (f : A -> Z -> A) (l : list Z) (a : A) :
  fold_left (fun acc j => f acc (nth j l 0)) (seq 0 (length l)) a
  = fold_left f l a.
Proof. exact (fold_seq_nth f l [] a). Qed.

(** Against an array without repetition, a core is counted once if it
    occurs and not at all otherwise. *)
Lemma inner_loop_count (a : Z) (tab_b : list Z) :
  NoDup tab_b ->
  forall found,
    fold_left (fun found b => if a =? b then found + 1 else found) tab_b found
    = found + (if isdup tab_b a then 1 else 0).
Proof.
  induction 1 as [| b tab_b Hnotin Hnd IH]; intros found; simpl; [lia |].
  rewrite IH. destruct (a =? b) eqn:E; simpl.
  - apply Z.eqb_eq in E. subst b.
    destruct (isdup tab_b a) eqn:Ed; [| lia].
    apply isdup_elem_of in Ed. contradiction.
  - reflexivity.
Qed.

Lemma outer_loop_count (tab_a tab_b : list Z) :
  NoDup tab_b ->
  forall found,
    fold_left
      (fun found a =>
         fold_left (fun found b => if a =? b then found + 1 else found)
           tab_b found)
      tab_a found
    = found + shared_count tab_a tab_b.
Proof.
  intros Hnd. induction tab_a as [| a tab_a IH]; intros found; simpl; [lia |].
  rewrite IH, inner_loop_count by assumption. lia.
Qed.

Lemma outer_loop_nth (tab_a tab_b : list Z) :
  forall found,
    fold_left
      (fun found a =>
         fold_left
           (fun found j => if a =? nth j tab_b 0 then found + 1 else found)
           (seq 0 (length tab_b)) found)
      tab_a found
    = fold_left
        (fun found a =>
           fold_left (fun found b => if a =? b then found + 1 else found)
             tab_b found)
        tab_a found.
Proof.
  induction tab_a as [| a tab_a IH]; intros found; simpl; [reflexivity |].
  rewrite (fold_seq_nth_0
             (fun found b => if a =? b then found + 1 else found) tab_b found).
  apply IH.
Qed.

Lemma cgroup_cmp_found_count (cg_a cg_b : rdtmon_core_group_t)
  (tab_a tab_b : list Z) :
  well_formed cg_a tab_a -> well_formed cg_b tab_b ->
  cgroup_cmp_found cg_a cg_b = shared_count tab_a tab_b.
Proof.
  intros (Ha & Hna & _ & _) (Hb & Hnb & _ & Hnd).
  unfold cgroup_cmp_found, core_at. rewrite Ha, Hb, Hna, Hnb, !Nat2Z.id.
  rewrite (fold_seq_nth_0
             (fun found a =>
                fold_left
                  (fun found j => if a =? nth j tab_b 0 then found + 1 else found)
                  (seq 0 (length tab_b)) found) tab_a 0).
  rewrite outer_loop_nth, outer_loop_count by assumption. lia.
Qed.

Lemma shared_count_bounds (tab_a tab_b : list Z) :
  0 <= shared_count tab_a tab_b <= Z.of_nat (length tab_a).
Proof.
  induction tab_a as [| a tab_a IH]; simpl; [lia |].
  destruct (isdup tab_b a); lia.
Qed.

Lemma shared_count_zero (tab_a tab_b : list Z) :
  shared_count tab_a tab_b = 0 <-> (forall x, x ∈ tab_a -> x ∉ tab_b).
Proof.
  induction tab_a as [| a tab_a IH]; simpl.
  - split; [intros _ x Hx; now apply elem_of_nil in Hx | reflexivity].
  - pose proof (shared_count_bounds tab_a tab_b) as Hb.
    destruct (isdup tab_b a) eqn:E.
    + split; [lia |]. intros Hdis. exfalso.
      apply (Hdis a); [left | now apply isdup_elem_of].
    + rewrite Z.add_0_l, IH. split.
      * intros Hdis x Hx. apply elem_of_cons in Hx as [-> | Hx]; [| now apply Hdis].
        intros Hin. apply isdup_elem_of in Hin. congruence.
      * intros Hdis x Hx. apply Hdis. now right.
Qed.

Lemma shared_count_all (tab_a tab_b : list Z) :
  shared_count tab_a tab_b = Z.of_nat (length tab_a)
  <-> (forall x, x ∈ tab_a -> x ∈ tab_b).
Proof.
  induction tab_a as [| a tab_a IH]; simpl length; simpl shared_count.
  - split; [intros _ x Hx; now apply elem_of_nil in Hx | reflexivity].
  - pose proof (shared_count_bounds tab_a tab_b) as Hb.
    destruct (isdup tab_b a) eqn:E.
    + apply isdup_elem_of in E. split.
      * intros Hc x Hx. apply elem_of_cons in Hx as [-> | Hx]; [exact E |].
        apply IH; [lia | exact Hx].
      * intros Hall. assert (shared_count tab_a tab_b = Z.of_nat (length tab_a)).
        { apply IH. intros x Hx. apply Hall. now right. }
        lia.
    + split; [lia |]. intros Hall. exfalso.
      assert (isdup tab_b a = true) by (apply isdup_elem_of, Hall; left).
      congruence.
Qed.

(** Two arrays without repetition, one within the other and of the same
    length, hold the same cores. *)
Lemma same_cores (tab_a tab_b : list Z) :
  NoDup tab_a ->
  (forall x, x ∈ tab_a -> x ∈ tab_b) ->
  length tab_a = length tab_b ->
  forall x, x ∈ tab_b -> x ∈ tab_a.
Proof.
  intros Hnd Hsub Hlen x Hx.
  assert (Hperm : tab_a ≡ₚ tab_b).
  { apply submseteq_length_Permutation; [now apply NoDup_submseteq | lia]. }
  now rewrite Hperm.
Qed.

Lemma some_core_outside (tab_a tab_b : list Z) :
  ~ (forall x, x ∈ tab_a -> x ∈ tab_b) -> exists x, x ∈ tab_a /\ x ∉ tab_b.
Proof.
  induction tab_a as [| a tab_a IH]; intros Hnot.
  - exfalso. apply Hnot. intros x Hx. now apply elem_of_nil in Hx.
  - destruct (isdup tab_b a) eqn:E.
    + apply isdup_elem_of in E. destruct IH as (x & Hx & Hout).
      * intros Hall. apply Hnot. intros x Hx.
        apply elem_of_cons in Hx as [-> | Hx]; [exact E | now apply Hall].
      * exists x. split; [now right | exact Hout].
    + exists a. split; [left |]. intros Hin. apply isdup_elem_of in Hin. congruence.
Qed.

End Overlap.

(** C8: for two groups whose core arrays are not empty and hold no core
    twice, [cgroup_cmp] returns 0 (Disjoint) exactly when no core is
    shared, 1 (Identical) exactly when the sizes are equal and every core
    of the first occurs in the second, and -1 (PartialOverlap) exactly when
    some core is shared and some core of one group is missing from the
    other. *)
Theorem cgroup_cmp_classifies (cg_a cg_b : rdtmon_core_group_t)
  (tab_a tab_b : list Z) :
  well_formed cg_a tab_a -> well_formed cg_b tab_b ->
  (cgroup_cmp cg_a cg_b = 0 <-> (forall x, x ∈ tab_a -> x ∉ tab_b)) /\
  (cgroup_cmp cg_a cg_b = 1 <->
     length tab_a = length tab_b /\ (forall x, x ∈ tab_a -> x ∈ tab_b)) /\
  (cgroup_cmp cg_a cg_b = -1 <->
     (exists x, x ∈ tab_a /\ x ∈ tab_b) /\
     (exists x, (x ∈ tab_a /\ x ∉ tab_b) \/ (x ∈ tab_b /\ x ∉ tab_a))).
Proof.
  intros Hwa Hwb.
  pose proof (cgroup_cmp_found_count cg_a cg_b tab_a tab_b Hwa Hwb) as Hfound.
  destruct Hwa as (Ha & Hna & Hnea & Hnda), Hwb as (Hb & Hnb & Hneb & Hndb).
  pose proof (shared_count_bounds tab_a tab_b) as Hbound.
  destruct (shared_count_zero tab_a tab_b) as [Hz1 Hz2].
  destruct (shared_count_all tab_a tab_b) as [Ha1 Ha2].
  assert (Hlena : (0 < length tab_a)%nat)
    by (destruct tab_a; simpl; [congruence | lia]).
  unfold cgroup_cmp. rewrite Hfound, Hna, Hnb.
  assert (Hshared : shared_count tab_a tab_b <> 0 ->
                    exists x, x ∈ tab_a /\ x ∈ tab_b).
  { intros Hnz.
    destruct (some_core_outside tab_a (filter (fun x => x ∉ tab_b) tab_a))
      as (x & Hx & Hout).
    - intros Hin. apply Hnz, Hz2. intros x Hx.
      specialize (Hin x Hx). now apply list_elem_of_filter in Hin as [? _].
    - exists x. split; [exact Hx |].
      destruct (decide (x ∈ tab_b)) as [Hin | Hnin]; [exact Hin |].
      exfalso. apply Hout. apply list_elem_of_filter. now split. }
  destruct (shared_count tab_a tab_b =? 0) eqn:E0;
    [apply Z.eqb_eq in E0 | apply Z.eqb_neq in E0].
  - (* no core matches *)
    repeat split; try discriminate.
    + intros _. now apply Hz1.
    + intros [Hlen Hsub]. apply Ha2 in Hsub. lia.
    + intros [(x & Hxa & Hxb) _]. exfalso. now apply (Hz1 E0 x).
  - destruct ((Z.of_nat (length tab_a) =? Z.of_nat (length tab_b))
              && (Z.of_nat (length tab_b) =? shared_count tab_a tab_b)) eqn:E1.
    + (* the same cores *)
      apply andb_prop in E1 as [El Ef].
      apply Z.eqb_eq in El, Ef.
      assert (Hsub : forall x, x ∈ tab_a -> x ∈ tab_b) by (apply Ha1; lia).
      repeat split; try discriminate; try lia; try assumption.
      * intros Hdis. now apply Hz2 in Hdis.
      * intros [_ (x & [[Hxa Hxb] | [Hxb Hxa]])].
        -- exfalso. now apply Hxb, Hsub.
        -- exfalso. apply Hxa. apply (same_cores tab_a tab_b); try assumption. lia.
    + (* some cores match *)
      apply andb_false_iff in E1.
      repeat split; try discriminate.
      * intros Hdis. now apply Hz2 in Hdis.
      * intros [Hlen Hsub]. apply Ha2 in Hsub. exfalso.
        destruct E1 as [E1 | E1]; apply Z.eqb_neq in E1; lia.
      * now apply Hshared.
      * destruct (decide (Forall (fun x => x ∈ tab_b) tab_a)) as [Hsub | Hnsub].
        -- rewrite Forall_forall in Hsub.
           destruct (decide (Forall (fun x => x ∈ tab_a) tab_b)) as [Hsup | Hnsup].
           ++ rewrite Forall_forall in Hsup. exfalso.
              assert (length tab_a = length tab_b).
              { apply Permutation_length, NoDup_Permutation; try assumption.
                intros x. split; [apply Hsub | apply Hsup]. }
              apply Ha2 in Hsub.
              destruct E1 as [E1 | E1]; apply Z.eqb_neq in E1; lia.
           ++ rewrite Forall_forall in Hnsup.
              apply some_core_outside in Hnsup as (x & Hx & Hout).
              exists x. now right.
        -- rewrite Forall_forall in Hnsub.
           apply some_core_outside in Hnsub as (x & Hx & Hout).
           exists x. now left.
Qed.

Lemma group_of_well_formed (name : string) (tab : list Z) :
  tab <> [] -> NoDup tab -> well_formed (Mock.group_of name tab) tab.
Proof. intros Hne Hnd. repeat split; assumption. Qed.

Lemma cgroup_cmp_classifies_witness :
  (exists x, x ∈ [0; 1] /\ x ∈ [1; 2]) /\
  (exists x, (x ∈ [0; 1] /\ x ∉ [1; 2]) \/ (x ∈ [1; 2] /\ x ∉ [0; 1])).
Proof.
  assert (Hnd : forall a b : Z, a <> b -> NoDup [a; b]).
  { intros a b Hab. apply NoDup_cons. split.
    - intros Hin. now apply list_elem_of_singleton in Hin.
    - apply NoDup_singleton. }
  apply (proj1 (proj2 (proj2
           (cgroup_cmp_classifies
              (Mock.group_of "0-1" [0; 1]) (Mock.group_of "1-2" [1; 2])
              [0; 1] [1; 2]
              (group_of_well_formed "0-1" [0; 1] ltac:(discriminate)
                 (Hnd 0 1 ltac:(discriminate)))
              (group_of_well_formed "1-2" [1; 2] ltac:(discriminate)
                 (Hnd 1 2 ltac:(discriminate))))))).
  reflexivity.
Defined.

(** The groups of the examples: [{0,1}] against [{2,3}], itself and
    [{1,2}]. *)
Example cgroup_cmp_examples :
  cgroup_cmp (Mock.group_of "0-1" [0; 1]) (Mock.group_of "2-3" [2; 3]) = 0 /\
  cgroup_cmp (Mock.group_of "0-1" [0; 1]) (Mock.group_of "0-1" [0; 1]) = 1 /\
  cgroup_cmp (Mock.group_of "0-1" [0; 1]) (Mock.group_of "1-2" [1; 2]) = -1.
Proof. repeat split. Qed.

(** ** Stepping through the monad *)

Section MonadFacts.

Context {P : Type} `{PqosLib P}.

Lemma bind_Some {A B : Type} (m : M P A) (k : A -> M P B) (w : world P)
  (r : B * world P) :
  bind m k w = Some r ->
  exists a w1, m w = Some (a, w1) /\ k a w1 = Some r.
Proof.
  unfold bind. destruct (m w) as [[a w1] |]; [| discriminate].
  intros Hk. now exists a, w1.
Qed.

Lemma pure_Some {A : Type} (a b : A) (w w' : world P) :
  pure a w = Some (b, w') -> b = a /\ w' = w.
Proof. unfold pure. now intros [= <- <-]. Qed.

Lemma deref_ctx_Some (w w' : world P) (ctx : rdtmon_ctx_t cap_t) :
  deref_ctx w = Some (ctx, w') -> g_rdtmon w = Some ctx /\ w' = w.
Proof.
  unfold deref_ctx. destruct (g_rdtmon w); [| discriminate].
  now intros [= <- <-].
Qed.

Lemma deref_Some {A : Type} (p : option A) (a : A) (w w' : world P) :
  deref p w = Some (a, w') -> p = Some a /\ w' = w.
Proof.
  destruct p; simpl; [| discriminate]. unfold pure. now intros [= <- <-].
Qed.

Lemma store_ctx_Some (ctx : rdtmon_ctx_t cap_t) (w w' : world P) (u : unit) :
  store_ctx ctx w = Some (u, w') ->
  g_rdtmon w' = Some ctx /\ heap w' = heap w /\ pqos w' = pqos w
  /\ trace w' = trace w /\ g_rdtmon w <> None.
Proof.
  unfold store_ctx. destruct (g_rdtmon w); [| discriminate].
  intros [= <- <-]. simpl. repeat split. discriminate.
Qed.

Lemma malloc_Some (ok : bool) (w w' : world P) :
  malloc w = Some (ok, w') ->
  g_rdtmon w' = g_rdtmon w /\ pqos w' = pqos w /\ trace w' = trace w.
Proof.
  unfold malloc. destruct (heap w); intros [= <- <-]; simpl; repeat split.
Qed.

Lemma read_cgroup_Some (i : Z) (cg : rdtmon_core_group_t) (w w' : world P) :
  read_cgroup i w = Some (cg, w') ->
  w' = w /\ 0 <= i /\
  exists ctx, g_rdtmon w = Some ctx /\ cgroups ctx !! Z.to_nat i = Some cg.
Proof.
  unfold read_cgroup. intros Hb.
  apply bind_Some in Hb as (ctx & w1 & Hctx & Hb).
  apply deref_ctx_Some in Hctx as [Hctx ->].
  destruct (i <? 0) eqn:E; [discriminate |]. apply Z.ltb_ge in E.
  apply deref_Some in Hb as [Hl ->]. repeat split; [exact E |].
  now exists ctx.
Qed.

Lemma write_cgroup_Some (i : Z) (cg : rdtmon_core_group_t) (w w' : world P)
  (u : unit) :
  write_cgroup i cg w = Some (u, w') ->
  exists ctx ctx',
    g_rdtmon w = Some ctx /\ g_rdtmon w' = Some ctx' /\
    cgroups ctx' = <[Z.to_nat i := cg]> (cgroups ctx) /\
    pgroups ctx' = pgroups ctx /\ num_groups ctx' = num_groups ctx /\
    pqos_cpu ctx' = pqos_cpu ctx /\ cap_mon ctx' = cap_mon ctx /\
    trace w' = trace w /\ pqos w' = pqos w.
Proof.
  unfold write_cgroup. intros Hb.
  apply bind_Some in Hb as (ctx & w1 & Hctx & Hb).
  apply deref_ctx_Some in Hctx as [Hctx ->].
  destruct ((0 <=? i) && (i <? Z.of_nat (length (cgroups ctx)))); [| discriminate].
  apply store_ctx_Some in Hb as (Hc & _ & Hp & Ht & _).
  exists ctx. eexists. split; [exact Hctx |]. split; [exact Hc |].
  simpl. repeat split; assumption.
Qed.

Lemma write_pgroup_Some (i : Z) (pg : option pqos_mon_data) (w w' : world P)
  (u : unit) :
  write_pgroup i pg w = Some (u, w') ->
  exists ctx ctx',
    g_rdtmon w = Some ctx /\ g_rdtmon w' = Some ctx' /\
    cgroups ctx' = cgroups ctx /\
    pgroups ctx' = <[Z.to_nat i := pg]> (pgroups ctx) /\
    num_groups ctx' = num_groups ctx /\
    pqos_cpu ctx' = pqos_cpu ctx /\ cap_mon ctx' = cap_mon ctx /\
    trace w' = trace w /\ pqos w' = pqos w.
Proof.
  unfold write_pgroup. intros Hb.
  apply bind_Some in Hb as (ctx & w1 & Hctx & Hb).
  apply deref_ctx_Some in Hctx as [Hctx ->].
  destruct ((0 <=? i) && (i <? Z.of_nat (length (pgroups ctx)))); [| discriminate].
  apply store_ctx_Some in Hb as (Hc & _ & Hp & Ht & _).
  exists ctx. eexists. split; [exact Hctx |]. split; [exact Hc |].
  simpl. repeat split; assumption.
Qed.

(** The same steps, forwards. *)

Lemma bind_run {A B : Type} (m : M P A) (k : A -> M P B) (w w1 : world P)
  (a : A) :
  m w = Some (a, w1) -> bind m k w = k a w1.
Proof. unfold bind. now intros ->. Qed.

Lemma bind_pure {A B : Type} (a : A) (k : A -> M P B) (w : world P) :
  bind (pure a) k w = k a w.
Proof. reflexivity. Qed.

Lemma deref_ctx_run (w : world P) (ctx : rdtmon_ctx_t cap_t) :
  g_rdtmon w = Some ctx -> deref_ctx w = Some (ctx, w).
Proof. unfold deref_ctx. now intros ->. Qed.

Lemma read_cgroup_run (i : nat) (cg : rdtmon_core_group_t) (w : world P)
  (ctx : rdtmon_ctx_t cap_t) :
  g_rdtmon w = Some ctx ->
  cgroups ctx !! i = Some cg ->
  read_cgroup (Z.of_nat i) w = Some (cg, w).
Proof.
  intros Hctx Hcg. unfold read_cgroup.
  rewrite (bind_run _ _ _ _ _ (deref_ctx_run w ctx Hctx)).
  assert (E : (Z.of_nat i <? 0) = false) by (apply Z.ltb_ge; lia).
  now rewrite E, Nat2Z.id, Hcg.
Qed.

Lemma write_cgroup_run (i : nat) (cg : rdtmon_core_group_t) (w : world P)
  (ctx : rdtmon_ctx_t cap_t) :
  g_rdtmon w = Some ctx ->
  (i < length (cgroups ctx))%nat ->
  write_cgroup (Z.of_nat i) cg w
  = Some (tt,
          Build_world
            (Some {| cgroups := <[i := cg]> (cgroups ctx);
                     pgroups := pgroups ctx;
                     num_groups := num_groups ctx;
                     pqos_cpu := pqos_cpu ctx;
                     pqos_cap := pqos_cap ctx;
                     cap_mon := cap_mon ctx |})
            (heap w) (pqos w) (trace w)).
Proof.
  intros Hctx Hi. unfold write_cgroup.
  rewrite (bind_run _ _ _ _ _ (deref_ctx_run w ctx Hctx)).
  assert (E : (0 <=? Z.of_nat i)
              && (Z.of_nat i <? Z.of_nat (length (cgroups ctx))) = true).
  { apply andb_true_intro. split; [apply Z.leb_le | apply Z.ltb_lt]; lia. }
  rewrite E, Nat2Z.id. unfold store_ctx. now rewrite Hctx.
Qed.

Lemma write_pgroup_run (i : nat) (pg : option pqos_mon_data) (w : world P)
  (ctx : rdtmon_ctx_t cap_t) :
  g_rdtmon w = Some ctx ->
  (i < length (pgroups ctx))%nat ->
  write_pgroup (Z.of_nat i) pg w
  = Some (tt,
          Build_world
            (Some {| cgroups := cgroups ctx;
                     pgroups := <[i := pg]> (pgroups ctx);
                     num_groups := num_groups ctx;
                     pqos_cpu := pqos_cpu ctx;
                     pqos_cap := pqos_cap ctx;
                     cap_mon := cap_mon ctx |})
            (heap w) (pqos w) (trace w)).
Proof.
  intros Hctx Hi. unfold write_pgroup.
  rewrite (bind_run _ _ _ _ _ (deref_ctx_run w ctx Hctx)).
  assert (E : (0 <=? Z.of_nat i)
              && (Z.of_nat i <? Z.of_nat (length (pgroups ctx))) = true).
  { apply andb_true_intro. split; [apply Z.leb_le | apply Z.ltb_lt]; lia. }
  rewrite E, Nat2Z.id. unfold store_ctx. now rewrite Hctx.
Qed.

Lemma malloc_run (w : world P) :
  exists ok h,
    malloc w = Some (ok, Build_world (g_rdtmon w) h (pqos w) (trace w)).
Proof.
  unfold malloc. destruct w as [g [| ok h] p t]; simpl.
  - now exists true, [].
  - now exists ok, h.
Qed.

End MonadFacts.

(** ** Configuration of the groups *)

Section ConfigFacts.

Context {P : Type} `{PqosLib P} `{Daemon}.

Lemma rdtmon_free_cgroups_Some (w w' : world P) (u : unit) :
  rdtmon_free_cgroups w = Some (u, w') ->
  exists ctx ctx',
    g_rdtmon w = Some ctx /\ g_rdtmon w' = Some ctx' /\
    cgroups ctx' = map free_cgroup (cgroups ctx) /\
    pgroups ctx' = map (fun _ => None) (pgroups ctx) /\
    num_groups ctx' = num_groups ctx /\
    trace w' = trace w /\ pqos w' = pqos w.
Proof.
  unfold rdtmon_free_cgroups. intros Hb.
  apply bind_Some in Hb as (ctx & w1 & Hctx & Hb).
  apply deref_ctx_Some in Hctx as [Hctx ->].
  apply store_ctx_Some in Hb as (Hc & _ & Hp & Ht & _).
  exists ctx. eexists. split; [exact Hctx |]. split; [exact Hc |].
  simpl. repeat split; assumption.
Qed.

(** A run of the validation loop that returns 0 has given every group
    it visited the event mask, and has left the groups before them
    alone. *)
Lemma rdtmon_config_cgroups_loop_success (a_events : Z) :
  forall (todo i : nat) (w w' : world P) (ctx : rdtmon_ctx_t cap_t),
    rdtmon_config_cgroups_loop todo i a_events w = Some (0, w') ->
    g_rdtmon w = Some ctx ->
    exists ctx',
      g_rdtmon w' = Some ctx' /\
      num_groups ctx' = num_groups ctx /\
      cap_mon ctx' = cap_mon ctx /\
      (forall k cg, (i <= k < i + todo)%nat ->
                    cgroups ctx' !! k = Some cg -> events cg = a_events) /\
      (forall k, (k < i)%nat -> cgroups ctx' !! k = cgroups ctx !! k).
Proof.
  induction todo as [| todo IH]; intros i w w' ctx Hrun Hctx; simpl in Hrun.
  - apply pure_Some in Hrun as [_ ->]. exists ctx.
    repeat split; try assumption. intros k cg Hk. lia.
  - apply bind_Some in Hrun as (c & w1 & Hd & Hrun).
    apply deref_ctx_Some in Hd as [Hd ->].
    rewrite Hctx in Hd. injection Hd as <-.
    destruct (overlaps_earlier (cgroups ctx) i).
    { apply bind_Some in Hrun as ([] & w1 & _ & Hrun).
      apply pure_Some in Hrun as [Hr _]. discriminate Hr. }
    apply bind_Some in Hrun as (cg & w1 & Hr & Hrun).
    apply read_cgroup_Some in Hr as (-> & _ & c & Hc & Hlk).
    rewrite Hctx in Hc. injection Hc as <-. rewrite Nat2Z.id in Hlk.
    apply bind_Some in Hrun as ([] & w1 & Hw & Hrun).
    apply write_cgroup_Some in Hw
      as (c & ctx1 & Hc & Hctx1 & Hcg1 & Hpg1 & Hn1 & _ & Hm1 & _).
    rewrite Hctx in Hc. injection Hc as <-. rewrite Nat2Z.id in Hcg1.
    apply bind_Some in Hrun as (ok & w2 & Hm & Hrun).
    apply malloc_Some in Hm as (Hg2 & _).
    apply bind_Some in Hrun as ([] & w3 & Hw & Hrun).
    apply write_pgroup_Some in Hw
      as (c & ctx2 & Hc & Hctx2 & Hcg2 & Hpg2 & Hn2 & _ & Hm2 & _).
    rewrite Hg2, Hctx1 in Hc. injection Hc as <-.
    destruct ok.
    + apply (IH _ _ _ ctx2) in Hrun as (ctx' & Hctx' & Hn' & Hm' & Hev & Hkeep);
        [| exact Hctx2].
      exists ctx'. repeat split; try congruence.
      * intros k cg' Hk Hlk'.
        destruct (decide (k = i)) as [-> | Hne].
        -- rewrite Hkeep, Hcg2, Hcg1 in Hlk' by lia.
           rewrite list_lookup_insert_eq in Hlk' by (eapply lookup_lt_Some; eauto).
           now injection Hlk' as <-.
        -- apply (Hev k); [lia | exact Hlk'].
      * intros k Hk. rewrite Hkeep, Hcg2, Hcg1 by lia.
        apply list_lookup_insert_ne. lia.
    + apply bind_Some in Hrun as ([] & w4 & _ & Hrun).
      apply pure_Some in Hrun as [Hr _]. discriminate Hr.
Qed.

Lemma rdtmon_config_cgroups_validate_success (n : Z) (w w' : world P) :
  rdtmon_config_cgroups_validate n w = Some (0, w') ->
  exists ctx mon,
    g_rdtmon w' = Some ctx /\ cap_mon ctx = Some mon /\ num_groups ctx = n /\
    forall k cg, (k < Z.to_nat n)%nat ->
                 cgroups ctx !! k = Some cg -> events cg = available_events mon.
Proof.
  unfold rdtmon_config_cgroups_validate. intros Hrun.
  apply bind_Some in Hrun as (ctx & w1 & Hd & Hrun).
  apply deref_ctx_Some in Hd as [Hctx ->].
  apply bind_Some in Hrun as (mon & w1 & Hd & Hrun).
  apply deref_Some in Hd as [Hmon ->].
  apply bind_Some in Hrun as ([] & w1 & Hs & Hrun).
  unfold set_num_groups in Hs.
  apply bind_Some in Hs as (c & w2 & Hd & Hs).
  apply deref_ctx_Some in Hd as [Hc ->].
  rewrite Hctx in Hc. injection Hc as <-.
  apply store_ctx_Some in Hs as (Hctx1 & _).
  eapply rdtmon_config_cgroups_loop_success in Hrun
    as (ctx' & Hctx' & Hn' & Hm' & Hev & _); [| exact Hctx1].
  simpl in Hn', Hm'. exists ctx', mon. repeat split; try congruence.
  intros k cg Hk. apply Hev. lia.
Qed.

(** A configuration that returns 0 has gone through the validation. *)
Lemma rdtmon_config_cgroups_success (item : option oconfig_item_t)
  (w w' : world P) :
  rdtmon_config_cgroups item w = Some (0, w') ->
  exists n w1, rdtmon_config_cgroups_validate n w1 = Some (0, w').
Proof.
  unfold rdtmon_config_cgroups. destruct item as [item |].
  2:{ intros Hrun. apply pure_Some in Hrun as [Hr _]. discriminate Hr. }
  destruct (forallb is_string (item_values item)).
  2:{ intros Hrun. apply pure_Some in Hrun as [Hr _]. discriminate Hr. }
  intros Hrun. apply bind_Some in Hrun as (n & w1 & _ & Hrun).
  destruct (n <? 0) eqn:En.
  { apply bind_Some in Hrun as ([] & w2 & _ & Hrun).
    apply pure_Some in Hrun as [Hr _]. discriminate Hr. }
  destruct (n =? 0).
  - apply bind_Some in Hrun as (n' & w2 & _ & Hrun).
    destruct (n' <? 0) eqn:En'.
    + apply bind_Some in Hrun as ([] & w3 & _ & Hrun).
      apply pure_Some in Hrun as [Hr _]. apply Z.ltb_lt in En'. lia.
    + now exists n', w2.
  - now exists n, w1.
Qed.

(** [oconfig_to_cgroups] that does not fail has set one group for each
    value that is not empty, up to the capacity. *)
Lemma oconfig_to_cgroups_loop_count (max : Z) :
  forall (vals : list oconfig_value_t) (index : Z) (w w' : world P) (r : Z),
    oconfig_to_cgroups_loop vals max index w = Some (r, w') ->
    0 <= index < max ->
    0 <= r ->
    r = Z.min (index + Z.of_nat (length (group_values vals))) max /\
    (group_values vals = [] -> w' = w).
Proof.
  induction vals as [| v vals IH]; intros index w w' r Hrun Hidx Hr.
  - apply pure_Some in Hrun as [-> ->]. simpl. split; [lia | reflexivity].
  - destruct v as [[s |] | |]; simpl in Hrun; try discriminate Hrun.
    2:{ now apply IH. }
    assert (Hgv : group_values (OCONFIG_TYPE_STRING (Some s) :: vals)
                  = if (String.length s =? 0)%nat then group_values vals
                    else s :: group_values vals).
    { unfold group_values. simpl.
      now destruct (String.length s =? 0)%nat. }
    rewrite Hgv. clear Hgv.
    destruct (String.length s =? 0)%nat; [now apply IH |].
    destruct (Z.of_nat
                (length (strlisttonums (sstrncpy s DATA_MAX_NAME_LEN)
                           (Z.to_nat RDTMON_MAX_CORES))) =? 0).
    { apply pure_Some in Hrun as [-> _]. unfold EINVAL in Hr. lia. }
    apply bind_Some in Hrun as (ok & w1 & _ & Hrun).
    apply bind_Some in Hrun as (cg & w2 & _ & Hrun).
    apply bind_Some in Hrun as ([r0 cg'] & w3 & _ & Hrun).
    apply bind_Some in Hrun as ([] & w4 & _ & Hrun).
    destruct (r0 <? 0) eqn:E0.
    { apply pure_Some in Hrun as [-> _]. apply Z.ltb_lt in E0. lia. }
    split; [| discriminate].
    cbn [length]. destruct (max <=? index + 1) eqn:Efull.
    + apply pure_Some in Hrun as [-> _]. apply Z.leb_le in Efull. lia.
    + apply Z.leb_gt in Efull.
      destruct (IH _ _ _ _ Hrun ltac:(lia) Hr) as [-> _]. lia.
Qed.

(** [rdtmon_default_cgroups] that does not fail returns the number of
    cores of the topology. *)
Lemma rdtmon_default_cgroups_count (w w' : world P) (n : Z) :
  rdtmon_default_cgroups w = Some (n, w') ->
  0 <= n ->
  exists ctx cpu,
    g_rdtmon w = Some ctx /\ pqos_cpu ctx = Some cpu /\
    n = to_int (cpu_num_cores cpu).
Proof.
  unfold rdtmon_default_cgroups. intros Hrun Hn.
  apply bind_Some in Hrun as (ctx & w1 & Hd & Hrun).
  apply deref_ctx_Some in Hd as [Hctx ->].
  apply bind_Some in Hrun as (cpu & w1 & Hd & Hrun).
  apply deref_Some in Hd as [Hcpu ->].
  apply bind_Some in Hrun as (r0 & w1 & _ & Hrun).
  exists ctx, cpu. split; [exact Hctx |]. split; [exact Hcpu |].
  destruct (r0 <? 0) eqn:E0; apply pure_Some in Hrun as [-> _];
    [apply Z.ltb_lt in E0; lia | reflexivity].
Qed.

Lemma write_cgroup_bound (i : Z) (cg : rdtmon_core_group_t) (w w' : world P)
  (u : unit) (ctx : rdtmon_ctx_t cap_t) :
  write_cgroup i cg w = Some (u, w') ->
  g_rdtmon w = Some ctx ->
  0 <= i /\ (Z.to_nat i < length (cgroups ctx))%nat.
Proof.
  unfold write_cgroup. intros Hb Hctx.
  apply bind_Some in Hb as (c & w1 & Hc & Hb).
  apply deref_ctx_Some in Hc as [Hc ->].
  rewrite Hctx in Hc. injection Hc as <-.
  destruct ((0 <=? i) && (i <? Z.of_nat (length (cgroups ctx)))) eqn:E;
    [| discriminate].
  apply andb_prop in E as [E1 E2]. lia.
Qed.

(** A run of the validation loop that returns 0 has found every group
    it visited within the table. *)
Lemma rdtmon_config_cgroups_loop_slots (a_events : Z) :
  forall (todo i : nat) (w w' : world P) (ctx : rdtmon_ctx_t cap_t),
    rdtmon_config_cgroups_loop todo i a_events w = Some (0, w') ->
    g_rdtmon w = Some ctx ->
    exists ctx',
      g_rdtmon w' = Some ctx' /\
      length (cgroups ctx') = length (cgroups ctx) /\
      (todo = 0 \/ i + todo <= length (cgroups ctx))%nat.
Proof.
  induction todo as [| todo IH]; intros i w w' ctx Hrun Hctx; simpl in Hrun.
  - apply pure_Some in Hrun as [_ ->]. exists ctx.
    split; [exact Hctx |]. split; [reflexivity | now left].
  - apply bind_Some in Hrun as (c & w1 & Hd & Hrun).
    apply deref_ctx_Some in Hd as [Hd ->].
    rewrite Hctx in Hd. injection Hd as <-.
    destruct (overlaps_earlier (cgroups ctx) i).
    { apply bind_Some in Hrun as ([] & w1 & _ & Hrun).
      apply pure_Some in Hrun as [Hr _]. discriminate Hr. }
    apply bind_Some in Hrun as (cg & w1 & Hr & Hrun).
    apply read_cgroup_Some in Hr as (-> & _ & _).
    apply bind_Some in Hrun as ([] & w1 & Hw & Hrun).
    pose proof (write_cgroup_bound _ _ _ _ _ _ Hw Hctx) as [_ Hbound].
    apply write_cgroup_Some in Hw
      as (c & ctx1 & Hc & Hctx1 & Hcg1 & _).
    rewrite Hctx in Hc. injection Hc as <-.
    rewrite Nat2Z.id in Hcg1, Hbound.
    apply bind_Some in Hrun as (ok & w2 & Hm & Hrun).
    apply malloc_Some in Hm as (Hg2 & _).
    apply bind_Some in Hrun as ([] & w3 & Hw & Hrun).
    apply write_pgroup_Some in Hw
      as (c & ctx2 & Hc & Hctx2 & Hcg2 & _).
    rewrite Hg2, Hctx1 in Hc. injection Hc as <-.
    destruct ok.
    + apply (IH _ _ _ ctx2) in Hrun as (ctx' & Hctx' & Hlen & Hfit);
        [| exact Hctx2].
      rewrite Hcg2, Hcg1, length_insert in Hlen, Hfit.
      exists ctx'. split; [exact Hctx' |]. split; [exact Hlen |].
      right. lia.
    + apply bind_Some in Hrun as ([] & w4 & _ & Hrun).
      apply pure_Some in Hrun as [Hr _]. discriminate Hr.
Qed.

Lemma available_events_no_llc_miss (mon : pqos_cap_mon) :
  Z.land (available_events mon) PQOS_PERF_EVENT_LLC_MISS = 0.
Proof.
  unfold available_events.
  rewrite <- Z.land_assoc, (Z.land_comm (Z.lnot _)), Z.land_lnot_diag.
  apply Z.land_0_r.
Qed.

End ConfigFacts.

(** ** Overlapping groups are rejected *)

Section Validation.

Context {P : Type} `{PqosLib P} `{Daemon}.

Lemma cgroup_cmp_ext (a a' b b' : rdtmon_core_group_t) :
  num_cores a = num_cores a' -> cores a = cores a' ->
  num_cores b = num_cores b' -> cores b = cores b' ->
  cgroup_cmp a b = cgroup_cmp a' b'.
Proof.
  intros Hna Hca Hnb Hcb.
  unfold cgroup_cmp, cgroup_cmp_found, core_at.
  now rewrite Hna, Hca, Hnb, Hcb.
Qed.

(** Writing the event mask of a group changes neither its cores nor those
    of the others. *)
Lemma nth_insert_set_events (tab : list rdtmon_core_group_t) (i j : nat)
  (cg : rdtmon_core_group_t) (a_events : Z) :
  tab !! i = Some cg ->
  let cg' := nth j (<[i := set_events cg a_events]> tab) zero_cgroup in
  num_cores cg' = num_cores (nth j tab zero_cgroup)
  /\ cores cg' = cores (nth j tab zero_cgroup).
Proof.
  intros Hlk. simpl. rewrite !nth_lookup.
  destruct (decide (i = j)) as [<- | Hne].
  - rewrite list_lookup_insert_eq by (eapply lookup_lt_Some; eauto).
    rewrite Hlk. simpl. split; reflexivity.
  - rewrite list_lookup_insert_ne by exact Hne. split; reflexivity.
Qed.

Lemma overlaps_earlier_set_events (tab : list rdtmon_core_group_t) (i k : nat)
  (cg : rdtmon_core_group_t) (a_events : Z) :
  tab !! i = Some cg ->
  overlaps_earlier (<[i := set_events cg a_events]> tab) k
  = overlaps_earlier tab k.
Proof.
  intros Hlk. unfold overlaps_earlier.
  induction (seq 0 k) as [| j l IH]; simpl; [reflexivity |].
  destruct (nth_insert_set_events tab i j cg a_events Hlk) as [Hnj Hcj].
  destruct (nth_insert_set_events tab i k cg a_events Hlk) as [Hnk Hck].
  now rewrite IH, (cgroup_cmp_ext _ _ _ _ Hnj Hcj Hnk Hck).
Qed.

Lemma released_free_cgroup (tab : list rdtmon_core_group_t) :
  forallb released (map free_cgroup tab) = true.
Proof. induction tab as [| cg tab IH]; simpl; [reflexivity | exact IH]. Qed.

Lemma absent_cleared (tab : list (option pqos_mon_data)) :
  forallb absent (map (fun _ => @None pqos_mon_data) tab) = true.
Proof. induction tab as [| pg tab IH]; simpl; [reflexivity | exact IH]. Qed.

(** What [rdtmon_free_cgroups] followed by an error return leaves. *)
Lemma free_then_return (r : Z) (w : world P) (ctx : rdtmon_ctx_t cap_t) :
  g_rdtmon w = Some ctx ->
  exists w' ctx',
    (let* 'tt := rdtmon_free_cgroups in pure r) w = Some (r, w') /\
    g_rdtmon w' = Some ctx' /\
    forallb released (cgroups ctx') = true /\
    forallb absent (pgroups ctx') = true /\
    num_groups ctx' = num_groups ctx.
Proof.
  intros Hctx. unfold bind, rdtmon_free_cgroups, bind, deref_ctx, store_ctx, pure.
  rewrite Hctx. simpl. rewrite Hctx. eexists. eexists.
  split; [reflexivity |]. split; [reflexivity |]. simpl.
  split; [apply released_free_cgroup |]. split; [apply absent_cleared | reflexivity].
Qed.

(** If a group among those still to visit shares cores with an earlier
    one, the loop returns an error with every slot of the two tables
    released, and [num_groups] as it was. *)
Lemma rdtmon_config_cgroups_loop_overlap (a_events : Z) :
  forall (todo i : nat) (w : world P) (ctx : rdtmon_ctx_t cap_t),
    g_rdtmon w = Some ctx ->
    (i + todo <= length (cgroups ctx))%nat ->
    (i + todo <= length (pgroups ctx))%nat ->
    (exists k, (i <= k < i + todo)%nat /\ overlaps_earlier (cgroups ctx) k = true) ->
    exists r w' ctx',
      rdtmon_config_cgroups_loop todo i a_events w = Some (r, w') /\
      r < 0 /\
      g_rdtmon w' = Some ctx' /\
      forallb released (cgroups ctx') = true /\
      forallb absent (pgroups ctx') = true /\
      num_groups ctx' = num_groups ctx.
Proof.
  induction todo as [| todo IH]; intros i w ctx Hctx Hlc Hlp (k & Hk & Hover).
  - lia.
  - simpl. rewrite (bind_run _ _ _ _ _ (deref_ctx_run w ctx Hctx)).
    destruct (overlaps_earlier (cgroups ctx) i) eqn:Ei.
    + destruct (free_then_return (- EINVAL) w ctx Hctx)
        as (w' & ctx' & Hrun & Hrest).
      exists (- EINVAL), w', ctx'. split; [exact Hrun |]. split; [reflexivity |].
      exact Hrest.
    + assert (Hki : k <> i) by congruence.
      assert (Hlt : (i < length (cgroups ctx))%nat) by lia.
      apply lookup_lt_is_Some_2 in Hlt as [cg Hcg].
      rewrite (bind_run _ _ _ _ _ (read_cgroup_run i cg w ctx Hctx Hcg)).
      rewrite (bind_run _ _ _ _ _
                 (write_cgroup_run i (set_events cg a_events) w ctx Hctx
                    ltac:(lia))).
      match goal with
      | |- context [bind malloc _ ?v] =>
          destruct (malloc_run v) as (ok & h & Hm);
          rewrite (bind_run _ _ _ _ _ Hm)
      end.
      simpl.
      match goal with
      | |- context [bind (write_pgroup _ ?pg) _ ?v] =>
          rewrite (bind_run _ _ _ _ _
                     (write_pgroup_run i pg v _ eq_refl ltac:(simpl; lia)))
      end.
      simpl. destruct ok.
      * match goal with
        | |- context [rdtmon_config_cgroups_loop todo (S i) a_events ?v] =>
            destruct (IH (S i) v _ eq_refl) as (r & w' & ctx' & Hrun & Hrest)
        end.
        -- simpl. rewrite length_insert. lia.
        -- simpl. rewrite length_insert. lia.
        -- exists k. split; [lia |]. simpl.
           now rewrite overlaps_earlier_set_events.
        -- exists r, w', ctx'. split; [exact Hrun |]. exact Hrest.
      * match goal with
        | |- context [bind rdtmon_free_cgroups _ ?v] =>
            destruct (free_then_return (- ENOMEM) v _ eq_refl)
              as (w' & ctx' & Hrun & Hrest)
        end.
        exists (- ENOMEM), w', ctx'.
        split; [exact Hrun |]. split; [reflexivity |]. exact Hrest.
Qed.

(** The same for the second half of [rdtmon_config_cgroups]: with [n]
    groups set of which two share a core, the configuration fails, the
    tables are released, and [num_groups] is [n]. *)
Lemma rdtmon_config_cgroups_validate_overlap (n : nat) (w : world P)
  (ctx : rdtmon_ctx_t cap_t) (mon : pqos_cap_mon) :
  g_rdtmon w = Some ctx ->
  cap_mon ctx = Some mon ->
  (n <= length (cgroups ctx))%nat ->
  (n <= length (pgroups ctx))%nat ->
  (exists i, (i < n)%nat /\ overlaps_earlier (cgroups ctx) i = true) ->
  exists r w' ctx',
    rdtmon_config_cgroups_validate (Z.of_nat n) w = Some (r, w') /\
    r < 0 /\
    g_rdtmon w' = Some ctx' /\
    forallb released (cgroups ctx') = true /\
    forallb absent (pgroups ctx') = true /\
    num_groups ctx' = Z.of_nat n.
Proof.
  intros Hctx Hmon Hlc Hlp (i & Hi & Hover).
  unfold rdtmon_config_cgroups_validate.
  rewrite (bind_run _ _ _ _ _ (deref_ctx_run w ctx Hctx)).
  rewrite Hmon. simpl. unfold bind at 1, pure.
  assert (Hset : set_num_groups (Z.of_nat n) w
                 = Some (tt,
                         Build_world
                           (Some {| cgroups := cgroups ctx;
                                    pgroups := pgroups ctx;
                                    num_groups := Z.of_nat n;
                                    pqos_cpu := pqos_cpu ctx;
                                    pqos_cap := pqos_cap ctx;
                                    cap_mon := cap_mon ctx |})
                           (heap w) (pqos w) (trace w))).
  { unfold set_num_groups.
    rewrite (bind_run _ _ _ _ _ (deref_ctx_run w ctx Hctx)).
    unfold store_ctx. now rewrite Hctx. }
  rewrite (bind_run _ _ _ _ _ Hset), Nat2Z.id.
  match goal with
  | |- context [rdtmon_config_cgroups_loop n 0 _ ?v] =>
      destruct (rdtmon_config_cgroups_loop_overlap
                  (available_events mon) n 0 v _ eq_refl)
        as (r & w' & ctx' & Hrun & Hrest)
  end.
  - simpl. lia.
  - simpl. lia.
  - exists i. split; [lia | exact Hover].
  - exists r, w', ctx'. split; [exact Hrun | exact Hrest].
Qed.

End Validation.

(** ** The default groups *)

Section DefaultGroups.

Context {P : Type} `{PqosLib P} `{Daemon}.

Lemma malloc_ok (w : world P) : heap w = [] -> malloc w = Some (true, w).
Proof. unfold malloc. now intros ->. Qed.

Lemma cgroup_set_ok (cg : rdtmon_core_group_t) (name : string)
  (tab : list Z) (n : Z) (w : world P) :
  heap w = [] -> 0 < n ->
  cgroup_set cg (Some name) tab n w
  = Some ((0,
           {| desc := Some name;
              num_cores := n;
              cores := Some (map (fun c => c mod UINT_MODULUS)
                               (take (Z.to_nat n) tab));
              events := events cg |}), w).
Proof.
  intros Hheap Hn. unfold cgroup_set.
  assert (E : (n <=? 0) = false) by (apply Z.leb_gt; lia).
  now rewrite E, (bind_run _ _ _ _ _ (malloc_ok w Hheap)).
Qed.

(** What the loop of [rdtmon_default_cgroups] leaves when every
    allocation succeeds: the group at index [k] is described by the
    logical identifier of the core at index [k] of the topology, and
    its core set is the singleton of the index [k] itself. *)
Lemma rdtmon_default_cgroups_loop_run :
  forall (todo i : nat) (w : world P) (ctx : rdtmon_ctx_t cap_t)
         (cpu : pqos_cpuinfo),
    g_rdtmon w = Some ctx ->
    heap w = [] ->
    pqos_cpu ctx = Some cpu ->
    (i + todo <= length (cpu_cores cpu))%nat ->
    (i + todo <= length (cgroups ctx))%nat ->
    exists w' ctx',
      rdtmon_default_cgroups_loop todo (Z.of_nat i) w = Some (0, w') /\
      g_rdtmon w' = Some ctx' /\
      heap w' = [] /\
      pqos_cpu ctx' = Some cpu /\
      cap_mon ctx' = cap_mon ctx /\
      num_groups ctx' = num_groups ctx /\
      pgroups ctx' = pgroups ctx /\
      length (cgroups ctx') = length (cgroups ctx) /\
      (forall k, (k < i)%nat -> cgroups ctx' !! k = cgroups ctx !! k) /\
      (forall k info,
          (i <= k < i + todo)%nat ->
          cpu_cores cpu !! k = Some info ->
          exists cg,
            cgroups ctx' !! k = Some cg /\
            desc cg = Some (print_d (to_int (lcore info))) /\
            num_cores cg = 1 /\
            cores cg = Some [Z.of_nat k mod UINT_MODULUS]).
Proof.
  induction todo as [| todo IH]; intros i w ctx cpu Hctx Hheap Hcpu Hlt Hlc.
  - exists w, ctx. simpl. repeat split; try assumption. intros k info Hk. lia.
  - cbn [rdtmon_default_cgroups_loop].
    rewrite (bind_run _ _ _ _ _ (deref_ctx_run w ctx Hctx)).
    rewrite Hcpu. cbn [deref]. rewrite bind_pure. rewrite Nat2Z.id.
    assert (Hi : (i < length (cpu_cores cpu))%nat) by lia.
    apply lookup_lt_is_Some_2 in Hi as [info Hinfo].
    rewrite Hinfo. cbn [deref]. rewrite bind_pure.
    rewrite (bind_run _ _ _ _ _ (malloc_ok w Hheap)).
    assert (Hi : (i < length (cgroups ctx))%nat) by lia.
    apply lookup_lt_is_Some_2 in Hi as [cg Hcg].
    rewrite (bind_run _ _ _ _ _ (read_cgroup_run i cg w ctx Hctx Hcg)).
    rewrite (bind_run _ _ _ _ _
               (cgroup_set_ok cg _ [Z.of_nat i] 1 w Hheap ltac:(lia))).
    match goal with
    | |- context [bind (write_cgroup _ ?new) _ w] =>
        rewrite (bind_run _ _ _ _ _
                   (write_cgroup_run i new w ctx Hctx ltac:(lia)))
    end.
    change (0 <? 0) with false. cbv iota.
    replace (Z.of_nat i + 1) with (Z.of_nat (S i)) by lia.
    match goal with
    | |- context [rdtmon_default_cgroups_loop todo _ ?v] =>
        destruct (IH (S i) v _ cpu eq_refl Hheap Hcpu)
          as (w' & ctx' & Hrun & Hctx' & Hheap' & Hcpu' & Hmon' & Hn' & Hpg'
              & Hlen' & Hkeep & Hnew)
    end.
    + lia.
    + simpl. rewrite length_insert. lia.
    + simpl in *. rewrite length_insert in Hlen'.
      exists w', ctx'. repeat split; try assumption.
      * intros k Hk. rewrite Hkeep by lia. apply list_lookup_insert_ne. lia.
      * intros k info' Hk Hinfo'.
        destruct (decide (k = i)) as [-> | Hne].
        -- rewrite Hkeep by lia.
           rewrite list_lookup_insert_eq by lia.
           rewrite Hinfo in Hinfo'. injection Hinfo' as <-.
           eexists. split; [reflexivity |]. simpl. repeat split.
        -- apply Hnew; [lia | exact Hinfo'].
Qed.

(** [rdtmon_default_cgroups] on a topology of [num_cores] cores that fit
    the table: it returns [num_cores], and group [k] is described by the
    logical identifier of core [k] while it holds the index [k]. *)
Lemma rdtmon_default_cgroups_run (w : world P) (ctx : rdtmon_ctx_t cap_t)
  (cpu : pqos_cpuinfo) :
  g_rdtmon w = Some ctx ->
  heap w = [] ->
  pqos_cpu ctx = Some cpu ->
  cpu_num_cores cpu = Z.of_nat (length (cpu_cores cpu)) ->
  (length (cpu_cores cpu) <= length (cgroups ctx))%nat ->
  cpu_num_cores cpu < 2 ^ 31 ->
  exists w' ctx',
    rdtmon_default_cgroups w = Some (cpu_num_cores cpu, w') /\
    g_rdtmon w' = Some ctx' /\
    (forall k info,
        cpu_cores cpu !! k = Some info ->
        exists cg,
          cgroups ctx' !! k = Some cg /\
          desc cg = Some (print_d (to_int (lcore info))) /\
          num_cores cg = 1 /\
          cores cg = Some [Z.of_nat k mod UINT_MODULUS]).
Proof.
  intros Hctx Hheap Hcpu Hnum Hfit Hint.
  unfold rdtmon_default_cgroups.
  rewrite (bind_run _ _ _ _ _ (deref_ctx_run w ctx Hctx)).
  rewrite Hcpu. cbn [deref]. rewrite bind_pure.
  rewrite Hnum, Nat2Z.id.
  destruct (rdtmon_default_cgroups_loop_run
              (length (cpu_cores cpu)) 0 w ctx cpu Hctx Hheap Hcpu)
    as (w' & ctx' & Hrun & Hctx' & _ & _ & _ & _ & _ & _ & _ & Hnew);
    [lia | lia |].
  change (Z.of_nat 0) with 0 in Hrun.
  rewrite (bind_run _ _ _ _ _ Hrun).
  change (0 <? 0) with false. cbv iota.
  exists w', ctx'. split.
  - unfold to_int. rewrite <- Hnum.
    assert (E : (cpu_num_cores cpu <? 2 ^ 31) = true) by (apply Z.ltb_lt; lia).
    now rewrite E.
  - split; [exact Hctx' |]. intros k info Hk. apply Hnew; [| exact Hk].
    apply lookup_lt_Some in Hk. lia.
Qed.

End DefaultGroups.

(** ** No entry point sets the LLC-miss bit *)

Section Invariant.

Context {P : Type} `{PqosLib P} `{Daemon}.

Lemma keeps_clean_bind {A B : Type} (m : M P A) (k : A -> M P B)
  (Q : A -> Prop) (R : B -> Prop) :
  keeps_clean m Q ->
  (forall a, Q a -> keeps_clean (k a) R) ->
  keeps_clean (bind m k) R.
Proof.
  intros Hm Hk w b w' Hclean Hrun.
  apply bind_Some in Hrun as (a & w1 & Hrun1 & Hrun2).
  destruct (Hm w a w1 Hclean Hrun1) as [Hclean1 Hq].
  exact (Hk a Hq w1 b w' Hclean1 Hrun2).
Qed.

Lemma keeps_clean_pure {A : Type} (a : A) (Q : A -> Prop) :
  Q a -> keeps_clean (pure a) Q.
Proof.
  intros Hq w b w' Hclean Hrun. apply pure_Some in Hrun as [-> ->].
  now split.
Qed.

Lemma keeps_clean_crash {A : Type} (Q : A -> Prop) :
  keeps_clean (@crash P _ A) Q.
Proof. intros w a w' _ Hrun. discriminate Hrun. Qed.

Lemma keeps_clean_weaken {A : Type} (m : M P A) (Q R : A -> Prop) :
  keeps_clean m Q -> (forall a, Q a -> R a) -> keeps_clean m R.
Proof.
  intros Hm Hqr w a w' Hclean Hrun.
  destruct (Hm w a w' Hclean Hrun) as [Hc Hq]. split; [exact Hc | now apply Hqr].
Qed.

Lemma keeps_clean_deref_ctx :
  keeps_clean deref_ctx (fun ctx => Forall no_llc_miss (cgroups ctx)).
Proof.
  intros w ctx w' Hclean Hrun. apply deref_ctx_Some in Hrun as [Hctx ->].
  split; [exact Hclean |]. unfold clean in Hclean. now rewrite Hctx in Hclean.
Qed.

Lemma keeps_clean_deref {A : Type} (p : option A) :
  keeps_clean (deref p) (fun a => p = Some a).
Proof.
  intros w a w' Hclean Hrun. apply deref_Some in Hrun as [-> ->]. now split.
Qed.

Lemma keeps_clean_malloc : keeps_clean malloc (fun _ => True).
Proof.
  intros w ok w' Hclean Hrun. apply malloc_Some in Hrun as (Hg & _).
  split; [| exact I]. unfold clean in *. now rewrite Hg.
Qed.

Lemma keeps_clean_emit (e : event) : keeps_clean (emit e) (fun _ => True).
Proof.
  intros w u w' Hclean Hrun. unfold emit in Hrun. injection Hrun as _ <-.
  now split.
Qed.

Lemma keeps_clean_call {A : Type} (e : event) (f : P -> A * P) :
  keeps_clean (call e f) (fun _ => True).
Proof.
  intros w a w' Hclean Hrun. unfold call in Hrun.
  destruct (f (pqos w)) as [a' p']. injection Hrun as _ <-. now split.
Qed.

Lemma keeps_clean_store_ctx (ctx : rdtmon_ctx_t cap_t) :
  Forall no_llc_miss (cgroups ctx) ->
  keeps_clean (store_ctx ctx) (fun _ => True).
Proof.
  intros Hctx w u w' Hclean Hrun.
  apply store_ctx_Some in Hrun as (Hg & _).
  split; [| exact I]. unfold clean. now rewrite Hg.
Qed.

Lemma keeps_clean_set_g_rdtmon (p : option (rdtmon_ctx_t cap_t)) :
  (forall ctx, p = Some ctx -> Forall no_llc_miss (cgroups ctx)) ->
  keeps_clean (set_g_rdtmon p) (fun _ => True).
Proof.
  intros Hp w u w' Hclean Hrun. unfold set_g_rdtmon in Hrun.
  injection Hrun as _ <-. split; [| exact I]. unfold clean. simpl.
  destruct p as [ctx |]; [now apply Hp | exact I].
Qed.

Lemma zero_ctx_clean : Forall no_llc_miss (cgroups (@zero_ctx cap_t)).
Proof.
  unfold zero_ctx. cbn [cgroups]. apply Forall_forall. intros cg Hin.
  apply elem_of_replicate in Hin as [-> _]. apply Z.land_0_l.
Qed.

Lemma keeps_clean_read_cgroup (i : Z) :
  keeps_clean (read_cgroup i) no_llc_miss.
Proof.
  unfold read_cgroup.
  eapply keeps_clean_bind; [apply keeps_clean_deref_ctx |].
  intros ctx Hctx. destruct (i <? 0); [apply keeps_clean_crash |].
  eapply keeps_clean_weaken; [apply keeps_clean_deref |].
  intros cg Hcg. rewrite Forall_forall in Hctx. apply Hctx.
  apply list_elem_of_lookup. now exists (Z.to_nat i).
Qed.

Lemma keeps_clean_write_cgroup (i : Z) (cg : rdtmon_core_group_t) :
  no_llc_miss cg -> keeps_clean (write_cgroup i cg) (fun _ => True).
Proof.
  intros Hcg. unfold write_cgroup.
  eapply keeps_clean_bind; [apply keeps_clean_deref_ctx |].
  intros ctx Hctx.
  destruct ((0 <=? i) && (i <? Z.of_nat (length (cgroups ctx))));
    [| apply keeps_clean_crash].
  apply keeps_clean_store_ctx. simpl. now apply Forall_insert.
Qed.

Lemma keeps_clean_write_pgroup (i : Z) (pg : option pqos_mon_data) :
  keeps_clean (write_pgroup i pg) (fun _ => True).
Proof.
  unfold write_pgroup.
  eapply keeps_clean_bind; [apply keeps_clean_deref_ctx |].
  intros ctx Hctx.
  destruct ((0 <=? i) && (i <? Z.of_nat (length (pgroups ctx))));
    [| apply keeps_clean_crash].
  now apply keeps_clean_store_ctx.
Qed.

Lemma keeps_clean_cgroup_set (cg : rdtmon_core_group_t)
  (a_desc : option string) (a_cores : list Z) (a_num_cores : Z) :
  no_llc_miss cg ->
  keeps_clean (cgroup_set cg a_desc a_cores a_num_cores)
    (fun r => no_llc_miss r.2).
Proof.
  intros Hcg. unfold cgroup_set.
  destruct a_desc as [name |]; [| apply keeps_clean_crash].
  destruct (a_num_cores <=? 0); [apply keeps_clean_crash |].
  eapply keeps_clean_bind; [apply keeps_clean_malloc |].
  intros ok _. destruct ok; apply keeps_clean_pure; exact Hcg.
Qed.

Lemma keeps_clean_free_cgroups :
  keeps_clean rdtmon_free_cgroups (fun _ => True).
Proof.
  unfold rdtmon_free_cgroups.
  eapply keeps_clean_bind; [apply keeps_clean_deref_ctx |].
  intros ctx Hctx. apply keeps_clean_store_ctx. simpl.
  apply Forall_forall. intros cg Hin.
  apply list_elem_of_fmap in Hin as (cg0 & -> & Hin0).
  rewrite Forall_forall in Hctx. exact (Hctx cg0 Hin0).
Qed.

Lemma keeps_clean_oconfig_to_cgroups_loop (max : Z) :
  forall (vals : list oconfig_value_t) (index : Z),
    keeps_clean (oconfig_to_cgroups_loop vals max index) (fun _ => True).
Proof.
  induction vals as [| v rest IH]; intros index;
    cbn [oconfig_to_cgroups_loop].
  - now apply keeps_clean_pure.
  - destruct v as [[s |] | bits | b]; try apply keeps_clean_crash; [| apply IH].
    destruct (String.length s =? 0)%nat; [apply IH |].
    destruct (Z.of_nat _ =? 0); [now apply keeps_clean_pure |].
    eapply keeps_clean_bind; [apply keeps_clean_malloc |]. intros ok _.
    eapply keeps_clean_bind; [apply keeps_clean_read_cgroup |]. intros cg Hcg.
    eapply keeps_clean_bind; [now apply keeps_clean_cgroup_set |].
    intros [r cg'] Hcg'.
    eapply keeps_clean_bind; [now apply keeps_clean_write_cgroup |].
    intros [] _.
    destruct (r <? 0); [now apply keeps_clean_pure |].
    destruct (max <=? index + 1); [now apply keeps_clean_pure | apply IH].
Qed.

Lemma keeps_clean_default_cgroups_loop :
  forall (todo : nat) (i : Z),
    keeps_clean (rdtmon_default_cgroups_loop todo i) (fun _ => True).
Proof.
  induction todo as [| todo IH]; intros i; cbn [rdtmon_default_cgroups_loop].
  - now apply keeps_clean_pure.
  - eapply keeps_clean_bind; [apply keeps_clean_deref_ctx |]. intros ctx _.
    eapply keeps_clean_bind; [apply keeps_clean_deref |]. intros cpu _.
    eapply keeps_clean_bind; [apply keeps_clean_deref |]. intros info _.
    eapply keeps_clean_bind; [apply keeps_clean_malloc |]. intros ok _.
    destruct ok; [| now apply keeps_clean_pure].
    eapply keeps_clean_bind; [apply keeps_clean_read_cgroup |]. intros cg Hcg.
    eapply keeps_clean_bind; [now apply keeps_clean_cgroup_set |].
    intros [r cg'] Hcg'.
    eapply keeps_clean_bind; [now apply keeps_clean_write_cgroup |].
    intros [] _.
    destruct (r <? 0); [now apply keeps_clean_pure | apply IH].
Qed.

Lemma keeps_clean_config_cgroups_loop (a_events : Z) :
  Z.land a_events PQOS_PERF_EVENT_LLC_MISS = 0 ->
  forall (todo i : nat),
    keeps_clean (rdtmon_config_cgroups_loop todo i a_events) (fun _ => True).
Proof.
  intros Hev. induction todo as [| todo IH]; intros i;
    cbn [rdtmon_config_cgroups_loop].
  - now apply keeps_clean_pure.
  - eapply keeps_clean_bind; [apply keeps_clean_deref_ctx |]. intros ctx _.
    destruct (overlaps_earlier (cgroups ctx) i).
    { eapply keeps_clean_bind; [apply keeps_clean_free_cgroups |].
      intros [] _. now apply keeps_clean_pure. }
    eapply keeps_clean_bind; [apply keeps_clean_read_cgroup |]. intros cg _.
    eapply keeps_clean_bind; [now apply keeps_clean_write_cgroup |].
    intros [] _.
    eapply keeps_clean_bind; [apply keeps_clean_malloc |]. intros ok _.
    eapply keeps_clean_bind; [apply keeps_clean_write_pgroup |]. intros [] _.
    destruct ok; [apply IH |].
    eapply keeps_clean_bind; [apply keeps_clean_free_cgroups |].
    intros [] _. now apply keeps_clean_pure.
Qed.

Lemma keeps_clean_config_cgroups (item : option oconfig_item_t) :
  keeps_clean (rdtmon_config_cgroups item) (fun _ => True).
Proof.
  assert (Hvalidate : forall n,
             keeps_clean (rdtmon_config_cgroups_validate n) (fun _ => True)).
  { intros n. unfold rdtmon_config_cgroups_validate.
    eapply keeps_clean_bind; [apply keeps_clean_deref_ctx |]. intros ctx _.
    eapply keeps_clean_bind; [apply keeps_clean_deref |]. intros mon _.
    eapply keeps_clean_bind.
    - unfold set_num_groups.
      eapply keeps_clean_bind; [apply keeps_clean_deref_ctx |].
      intros c Hc. now apply keeps_clean_store_ctx.
    - intros [] _. apply keeps_clean_config_cgroups_loop.
      apply available_events_no_llc_miss. }
  unfold rdtmon_config_cgroups.
  destruct item as [item |]; [| now apply keeps_clean_pure].
  destruct (forallb is_string (item_values item)); [| now apply keeps_clean_pure].
  eapply (keeps_clean_bind _ _ (fun _ => True)).
  { unfold oconfig_to_cgroups.
    destruct (RDTMON_MAX_CORES <=? 0); [apply keeps_clean_crash |].
    apply keeps_clean_oconfig_to_cgroups_loop. }
  intros n _. destruct (n <? 0).
  { eapply keeps_clean_bind; [apply keeps_clean_free_cgroups |].
    intros [] _. now apply keeps_clean_pure. }
  destruct (n =? 0); [| apply Hvalidate].
  eapply (keeps_clean_bind _ _ (fun _ => True)).
  { unfold rdtmon_default_cgroups.
    eapply keeps_clean_bind; [apply keeps_clean_deref_ctx |]. intros ctx _.
    eapply keeps_clean_bind; [apply keeps_clean_deref |]. intros cpu _.
    eapply keeps_clean_bind; [apply keeps_clean_default_cgroups_loop |].
    intros r _. destruct (r <? 0); now apply keeps_clean_pure. }
  intros n' _. destruct (n' <? 0); [| apply Hvalidate].
  eapply keeps_clean_bind; [apply keeps_clean_free_cgroups |].
  intros [] _. now apply keeps_clean_pure.
Qed.

Lemma keeps_clean_preinit : keeps_clean rdtmon_preinit (fun _ => True).
Proof.
  assert (Herr1 : keeps_clean rdtmon_preinit_error1 (fun _ => True)).
  { unfold rdtmon_preinit_error1.
    eapply keeps_clean_bind;
      [apply keeps_clean_set_g_rdtmon; discriminate |].
    intros [] _. now apply keeps_clean_pure. }
  assert (Herr2 : keeps_clean rdtmon_preinit_error2 (fun _ => True)).
  { unfold rdtmon_preinit_error2.
    eapply keeps_clean_bind; [apply keeps_clean_call |]. intros r _.
    exact Herr1. }
  intros w a w' Hclean. unfold rdtmon_preinit.
  destruct (g_rdtmon w) as [ctx |] eqn:Hg.
  { intros Hrun. apply pure_Some in Hrun as [_ ->]. now split. }
  revert w a w' Hclean Hg. intros w a w' Hclean _. revert w a w' Hclean.
  change (keeps_clean
    (let* ok := malloc in
     if ok then
       let* 'tt := set_g_rdtmon (Some zero_ctx) in
       let* _ := call EvPqosFini pqos_fini in
       let* r := call EvPqosInit pqos_init in
       if r =? PQOS_RETVAL_OK then
         let* '(r, a_cap, a_cpu) := call EvPqosCapGet pqos_cap_get in
         let* 'tt := set_caps a_cap a_cpu in
         if r =? PQOS_RETVAL_OK then
           let* ctx := deref_ctx in
           let* '(r, a_mon) :=
             call EvPqosCapGetType
               (fun p => pqos_cap_get_type p (pqos_cap ctx)) in
           let* 'tt := set_cap_mon a_mon in
           if r =? PQOS_RETVAL_PARAM then rdtmon_preinit_error2
           else
             match a_mon with
             | None => rdtmon_preinit_error2
             | Some _ => pure 0
             end
         else rdtmon_preinit_error2
       else rdtmon_preinit_error1
     else pure (- ENOMEM)) (fun _ => True)).
  eapply keeps_clean_bind; [apply keeps_clean_malloc |]. intros ok _.
  destruct ok; [| now apply keeps_clean_pure].
  eapply keeps_clean_bind.
  { apply keeps_clean_set_g_rdtmon. intros ctx [= <-]. apply zero_ctx_clean. }
  intros [] _.
  eapply keeps_clean_bind; [apply keeps_clean_call |]. intros r0 _.
  eapply keeps_clean_bind; [apply keeps_clean_call |]. intros r _.
  destruct (r =? PQOS_RETVAL_OK); [| exact Herr1].
  eapply keeps_clean_bind; [apply keeps_clean_call |].
  intros [[r1 a_cap] a_cpu] _.
  eapply keeps_clean_bind.
  { unfold set_caps.
    eapply keeps_clean_bind; [apply keeps_clean_deref_ctx |].
    intros c Hc. now apply keeps_clean_store_ctx. }
  intros [] _.
  destruct (r1 =? PQOS_RETVAL_OK); [| exact Herr2].
  eapply keeps_clean_bind; [apply keeps_clean_deref_ctx |]. intros ctx _.
  eapply keeps_clean_bind; [apply keeps_clean_call |]. intros [r2 a_mon] _.
  eapply keeps_clean_bind.
  { unfold set_cap_mon.
    eapply keeps_clean_bind; [apply keeps_clean_deref_ctx |].
    intros c Hc. now apply keeps_clean_store_ctx. }
  intros [] _.
  destruct (r2 =? PQOS_RETVAL_PARAM); [exact Herr2 |].
  destruct a_mon; [now apply keeps_clean_pure | exact Herr2].
Qed.

Lemma keeps_clean_config (ci : oconfig_item_t) :
  keeps_clean (rdtmon_config ci) (fun _ => True).
Proof.
  unfold rdtmon_config.
  eapply keeps_clean_bind; [apply keeps_clean_preinit |]. intros r _.
  destruct (r =? 0); [| now apply keeps_clean_pure].
  induction (item_children ci) as [| child rest IH]; cbn [rdtmon_config_loop].
  - now apply keeps_clean_pure.
  - destruct (strcasecmp Cores (list_ascii_of_string (item_key child)) =? 0);
      [| exact IH].
    eapply keeps_clean_bind; [apply keeps_clean_config_cgroups |].
    intros r' _. destruct (r' =? 0); [exact IH | now apply keeps_clean_pure].
Qed.

Lemma keeps_clean_submit_gauge (cgroup : option string) (a_type : string)
  (value : gauge_t) :
  keeps_clean (rdtmon_submit_gauge cgroup a_type value) (fun _ => True).
Proof.
  unfold rdtmon_submit_gauge.
  eapply keeps_clean_bind; [apply keeps_clean_deref |]. intros name _.
  apply keeps_clean_emit.
Qed.

Lemma keeps_clean_submit_mbm (cgroup : option string)
  (pv : pqos_event_values) :
  keeps_clean (rdtmon_submit_mbm cgroup pv) (fun _ => True).
Proof.
  unfold rdtmon_submit_mbm.
  eapply keeps_clean_bind; [apply keeps_clean_deref |]. intros name _.
  apply keeps_clean_emit.
Qed.

Lemma keeps_clean_when (b : bool) (m : M P unit) :
  keeps_clean m (fun _ => True) -> keeps_clean (when b m) (fun _ => True).
Proof. intros Hm. destruct b; [exact Hm | now apply keeps_clean_pure]. Qed.

Lemma keeps_clean_read_loop :
  forall (todo : nat) (i : Z),
    keeps_clean (rdtmon_read_loop todo i) (fun _ => True).
Proof.
  induction todo as [| todo IH]; intros i; cbn [rdtmon_read_loop].
  - now apply keeps_clean_pure.
  - eapply keeps_clean_bind; [apply keeps_clean_deref_ctx |]. intros ctx _.
    eapply keeps_clean_bind; [apply keeps_clean_deref |]. intros slot _.
    eapply keeps_clean_bind; [apply keeps_clean_deref |]. intros pg _.
    eapply keeps_clean_bind; [apply keeps_clean_read_cgroup |]. intros cg _.
    eapply keeps_clean_bind;
      [apply keeps_clean_when, keeps_clean_submit_gauge |]. intros [] _.
    eapply keeps_clean_bind;
      [apply keeps_clean_when, keeps_clean_submit_gauge |]. intros [] _.
    eapply keeps_clean_bind;
      [apply keeps_clean_when, keeps_clean_submit_mbm |]. intros [] _.
    apply IH.
Qed.

Lemma keeps_clean_read : keeps_clean rdtmon_read (fun _ => True).
Proof.
  intros w a w' Hclean. unfold rdtmon_read.
  destruct (g_rdtmon w) as [ctx |] eqn:Hg.
  2:{ intros Hrun. apply pure_Some in Hrun as [_ ->]. now split. }
  revert w a w' Hclean Hg. intros w a w' Hclean _. revert w a w' Hclean.
  change (keeps_clean
    (let n := num_groups ctx mod UINT_MODULUS in
     let* '(r, polled) :=
       call (EvPqosMonPoll n) (fun p => pqos_mon_poll p (pgroups ctx) n) in
     let* 'tt := set_pgroups (refresh (pgroups ctx) polled) in
     if r =? PQOS_RETVAL_OK then
       let* 'tt := rdtmon_read_loop (Z.to_nat (num_groups ctx)) 0 in
       pure 0
     else pure (-1)) (fun _ => True)).
  cbv zeta.
  eapply keeps_clean_bind; [apply keeps_clean_call |]. intros [r polled] _.
  eapply keeps_clean_bind.
  { unfold set_pgroups.
    eapply keeps_clean_bind; [apply keeps_clean_deref_ctx |].
    intros c Hc. now apply keeps_clean_store_ctx. }
  intros [] _. destruct (r =? PQOS_RETVAL_OK); [| now apply keeps_clean_pure].
  eapply keeps_clean_bind; [apply keeps_clean_read_loop |].
  intros [] _. now apply keeps_clean_pure.
Qed.

Lemma keeps_clean_init_loop :
  forall (todo : nat) (i : Z),
    keeps_clean (rdtmon_init_loop todo i) (fun _ => True).
Proof.
  induction todo as [| todo IH]; intros i; cbn [rdtmon_init_loop].
  - now apply keeps_clean_pure.
  - eapply keeps_clean_bind; [apply keeps_clean_read_cgroup |]. intros cg _.
    eapply keeps_clean_bind; [apply keeps_clean_deref_ctx |]. intros ctx _.
    eapply keeps_clean_bind; [apply keeps_clean_deref |]. intros slot _.
    eapply keeps_clean_bind; [apply keeps_clean_call |].
    intros [r started] _.
    eapply keeps_clean_bind; [apply keeps_clean_write_pgroup |]. intros [] _.
    destruct (r =? PQOS_RETVAL_OK); [apply IH | now apply keeps_clean_pure].
Qed.

Lemma keeps_clean_init : keeps_clean rdtmon_init (fun _ => True).
Proof.
  unfold rdtmon_init.
  eapply keeps_clean_bind; [apply keeps_clean_preinit |]. intros r _.
  destruct (r =? 0); [| now apply keeps_clean_pure].
  eapply keeps_clean_bind; [apply keeps_clean_deref_ctx |]. intros ctx _.
  apply keeps_clean_init_loop.
Qed.

End Invariant.

(** ** The event mask *)

Section EventMask.

Context {P : Type} `{PqosLib P} `{Daemon}.

Lemma fold_lor_testbit (l : list pqos_monitor) (b : Z) :
  forall acc,
    Z.testbit (fold_left (fun events m => Z.lor events (type m)) l acc) b
    = Z.testbit acc b || existsb (fun m => Z.testbit (type m) b) l.
Proof.
  induction l as [| m l IH]; intros acc; simpl.
  - now rewrite orb_false_r.
  - rewrite IH, Z.lor_spec. now rewrite orb_assoc.
Qed.

(** Bit by bit, the mask is the union of the advertised event kinds
    without the bits of [PQOS_PERF_EVENT_LLC_MISS]. *)
Lemma available_events_bits (mon : pqos_cap_mon) (b : Z) :
  0 <= b ->
  Z.testbit (available_events mon) b
  = advertises mon b && negb (Z.testbit PQOS_PERF_EVENT_LLC_MISS b).
Proof.
  intros Hb. unfold available_events, advertises.
  rewrite Z.land_spec, fold_lor_testbit, Z.bits_0, orb_false_l.
  f_equal. now rewrite Z.lnot_spec by exact Hb.
Qed.

(** C3: after a configuration that succeeded, every live group (the
    first [num_groups] slots) has one and the same event mask, the union
    of the event kinds the platform advertises with the bits of the
    LLC-miss event cleared, and that event is in the mask of no live group.
    The live groups are all the groups of the option: [num_groups] is
    the number of its values that are not empty ([RDTMON_MAX_CORES] at
    most), or the number of cores of the topology when there is none,
    and each of the slots below it holds a group with that mask.
    Nor does any entry point ever put the LLC-miss event there: when no
    slot of the table has it before [rdtmon_config], [rdtmon_init] or
    [rdtmon_read] runs (as is the case before the table exists), no slot
    has it afterwards, whatever the call returns. *)
Theorem event_mask_uniform (w w' : world P) :
  (forall item,
      rdtmon_config_cgroups item w = Some (0, w') ->
      exists ctx mon,
        g_rdtmon w' = Some ctx /\ cap_mon ctx = Some mon /\
        forall cg, cg ∈ live_groups ctx ->
          events cg = available_events mon /\
          (forall b, 0 <= b ->
                     Z.testbit (events cg) b
                     = advertises mon b
                       && negb (Z.testbit PQOS_PERF_EVENT_LLC_MISS b)) /\
          no_llc_miss cg) /\
  (forall item,
      rdtmon_config_cgroups item w = Some (0, w') ->
      exists it ctx mon,
        item = Some it /\
        g_rdtmon w' = Some ctx /\ cap_mon ctx = Some mon /\
        num_groups ctx = group_count it w /\
        forall k, (k < Z.to_nat (num_groups ctx))%nat ->
          exists cg,
            cgroups ctx !! k = Some cg /\
            cg ∈ live_groups ctx /\
            events cg = available_events mon) /\
  (forall r,
      clean w ->
      (exists ci, rdtmon_config ci w = Some (r, w'))
      \/ rdtmon_init w = Some (r, w')
      \/ rdtmon_read w = Some (r, w') ->
      clean w').
Proof.
  split; [| split].
  - intros item Hrun.
    apply rdtmon_config_cgroups_success in Hrun as (n & w1 & Hrun).
    apply rdtmon_config_cgroups_validate_success in Hrun
      as (ctx & mon & Hctx & Hmon & Hn & Hev).
    exists ctx, mon. split; [exact Hctx |]. split; [exact Hmon |].
    intros cg Hin. unfold live_groups in Hin.
    apply list_elem_of_lookup in Hin as [k Hk].
    apply lookup_take_Some in Hk as [Hk Hlt].
    assert (Hcg : events cg = available_events mon)
      by (apply (Hev k); [lia | exact Hk]).
    unfold no_llc_miss. rewrite Hcg. repeat split.
    + intros b Hb. now apply available_events_bits.
    + apply available_events_no_llc_miss.
  - intros item Hrun.
    assert (Hval : exists it n w1,
               item = Some it /\ n = group_count it w /\
               rdtmon_config_cgroups_validate n w1 = Some (0, w')).
    { unfold rdtmon_config_cgroups in Hrun. destruct item as [it |].
      2:{ apply pure_Some in Hrun as [Hr _]. discriminate Hr. }
      exists it.
      destruct (forallb is_string (item_values it)).
      2:{ apply pure_Some in Hrun as [Hr _]. discriminate Hr. }
      apply bind_Some in Hrun as (n & w1 & Hparse & Hrun).
      unfold oconfig_to_cgroups in Hparse.
      change (RDTMON_MAX_CORES <=? 0) with false in Hparse. cbv iota in Hparse.
      destruct (n <? 0) eqn:En.
      { apply bind_Some in Hrun as ([] & w2 & _ & Hrun).
        apply pure_Some in Hrun as [Hr _]. discriminate Hr. }
      apply Z.ltb_ge in En.
      destruct (oconfig_to_cgroups_loop_count _ _ _ _ _ _ Hparse
                  ltac:(unfold RDTMON_MAX_CORES, RDTMON_MAX_SOCKET_CORES,
                          RDTMON_MAX_SOCKETS; lia) En) as [Hcount Hsame].
      rewrite Z.add_0_l in Hcount. unfold group_count.
      destruct (n =? 0) eqn:E0.
      - apply Z.eqb_eq in E0.
        assert (Hnone : group_values (item_values it) = []).
        { destruct (group_values (item_values it)); [reflexivity |].
          cbn [length] in Hcount.
          unfold RDTMON_MAX_CORES, RDTMON_MAX_SOCKET_CORES,
            RDTMON_MAX_SOCKETS in Hcount. lia. }
        rewrite Hnone. rewrite (Hsame Hnone) in Hrun.
        apply bind_Some in Hrun as (n' & w2 & Hdef & Hrun).
        destruct (n' <? 0) eqn:En'.
        + apply bind_Some in Hrun as ([] & w3 & _ & Hrun).
          apply pure_Some in Hrun as [Hr _]. apply Z.ltb_lt in En'. lia.
        + apply Z.ltb_ge in En'.
          destruct (rdtmon_default_cgroups_count _ _ _ Hdef En')
            as (ctx0 & cpu & Hctx0 & Hcpu & Hn').
          exists n', w2. rewrite Hctx0, Hcpu. now repeat split.
      - apply Z.eqb_neq in E0. exists n, w1.
        destruct (group_values (item_values it)) as [| s0 gv] eqn:Egv.
        + cbn [length] in Hcount.
          unfold RDTMON_MAX_CORES, RDTMON_MAX_SOCKET_CORES,
            RDTMON_MAX_SOCKETS in Hcount. lia.
        + now repeat split. }
    destruct Hval as (it & n & w1 & -> & Hn & Hval).
    pose proof Hval as Hslots.
    apply rdtmon_config_cgroups_validate_success in Hval
      as (ctx & mon & Hctx & Hmon & Hnum & Hev).
    unfold rdtmon_config_cgroups_validate in Hslots.
    apply bind_Some in Hslots as (c0 & v1 & Hd & Hslots).
    apply deref_ctx_Some in Hd as [Hc0 ->].
    apply bind_Some in Hslots as (m0 & v1 & Hd & Hslots).
    apply deref_Some in Hd as [_ ->].
    apply bind_Some in Hslots as ([] & v1 & Hs & Hslots).
    unfold set_num_groups in Hs.
    apply bind_Some in Hs as (c1 & v2 & Hd & Hs).
    apply deref_ctx_Some in Hd as [_ ->].
    apply store_ctx_Some in Hs as (Hctx1 & _).
    destruct (rdtmon_config_cgroups_loop_slots _ _ _ _ _ _ Hslots Hctx1)
      as (ctx' & Hctx' & Hlen & Hfit).
    cbn [cgroups] in Hlen, Hfit.
    rewrite Hctx in Hctx'. injection Hctx' as <-.
    exists it, ctx, mon. split; [reflexivity |]. split; [exact Hctx |].
    split; [exact Hmon |]. split; [congruence |].
    intros k Hk. rewrite Hnum in Hk.
    assert (Hlt : (k < length (cgroups ctx))%nat).
    { rewrite Hlen. destruct Hfit as [Hzero | Hfit]; lia. }
    apply lookup_lt_is_Some_2 in Hlt as [cg Hcg].
    exists cg. split; [exact Hcg |]. split.
    + unfold live_groups. apply list_elem_of_lookup. exists k.
      apply lookup_take_Some. split; [exact Hcg | lia].
    + apply (Hev k); [lia | exact Hcg].
  - intros r Hclean [[ci Hrun] | [Hrun | Hrun]].
    + exact (proj1 (keeps_clean_config ci w r w' Hclean Hrun)).
    + exact (proj1 (keeps_clean_init w r w' Hclean Hrun)).
    + exact (proj1 (keeps_clean_read w r w' Hclean Hrun)).
Qed.

End EventMask.

(** ** The configuration run on a platform *)

Section Runs.

#[local] Existing Instance Mock.lib.
#[local] Existing Instance Mock.daemon.

Lemma event_mask_uniform_witness :
  exists w' ctx,
    rdtmon_config_cgroups
      (Some (Mock.cores_option ["0-3"; "4-7"]%string))
      (Mock.ready Mock.eight_cores []) = Some (0, w') /\
    g_rdtmon w' = Some ctx /\
    Mock.advertised Mock.eight_cores
    = [Mock.L3_OCCUP; Mock.LLC_MISS; Mock.IPC] /\
    num_groups ctx = 2 /\
    map events (live_groups ctx)
    = [Z.lor Mock.L3_OCCUP Mock.IPC; Z.lor Mock.L3_OCCUP Mock.IPC] /\
    (exists ctx mon,
        g_rdtmon w' = Some ctx /\ cap_mon ctx = Some mon /\
        forall cg, cg ∈ live_groups ctx ->
          events cg = available_events mon /\
          (forall b, 0 <= b ->
                     Z.testbit (events cg) b
                     = advertises mon b
                       && negb (Z.testbit PQOS_PERF_EVENT_LLC_MISS b)) /\
          no_llc_miss cg) /\
    (exists it ctx mon,
        Some (Mock.cores_option ["0-3"; "4-7"]%string) = Some it /\
        g_rdtmon w' = Some ctx /\ cap_mon ctx = Some mon /\
        num_groups ctx = group_count it (Mock.ready Mock.eight_cores []) /\
        forall k, (k < Z.to_nat (num_groups ctx))%nat ->
          exists cg,
            cgroups ctx !! k = Some cg /\
            cg ∈ live_groups ctx /\
            events cg = available_events mon) /\
    clean (Mock.boot Mock.eight_cores []) /\
    clean (Mock.running Mock.eight_cores ["0-3"; "4-7"]%string).
Proof.
  eexists. eexists. split; [vm_compute; reflexivity |].
  split; [reflexivity |]. split; [reflexivity |].
  split; [reflexivity |]. split; [vm_compute; reflexivity |]. split.
  - apply (proj1 (event_mask_uniform (Mock.ready Mock.eight_cores []) _)
             (Some (Mock.cores_option ["0-3"; "4-7"]%string))).
    vm_compute. reflexivity.
  - split.
    + apply (proj1 (proj2 (event_mask_uniform
                             (Mock.ready Mock.eight_cores []) _))
               (Some (Mock.cores_option ["0-3"; "4-7"]%string))).
      vm_compute. reflexivity.
    + split; [exact I |].
      assert (Hconfigured :
        exists r w1, rdtmon_config (Mock.plugin_block ["0-3"; "4-7"]%string)
                       (Mock.boot Mock.eight_cores []) = Some (r, w1)
                     /\ exists r', rdtmon_init w1
                                   = Some (r', Mock.running Mock.eight_cores
                                                 ["0-3"; "4-7"]%string)).
      { eexists. eexists. split; [vm_compute; reflexivity |].
        eexists. vm_compute. reflexivity. }
      destruct Hconfigured as (r & w1 & Hconfig & r' & Hinit).
      apply (proj2 (proj2 (event_mask_uniform w1 _)) r');
        [| right; left; exact Hinit].
      apply (proj2 (proj2 (event_mask_uniform
                             (Mock.boot Mock.eight_cores []) w1)) r);
        [exact I | left; now exists (Mock.plugin_block ["0-3"; "4-7"]%string)].
Defined.

(** C1 on the configuration [Cores "0-3" "2-5"]: the second group shares
    the cores 2 and 3 with the first, the configuration returns [-EINVAL]
    and every slot of the two tables is released; but [num_groups] keeps
    the 2 it was given before the comparison, so two groups remain live,
    and the start that follows asks the library to monitor the first of
    them, released as it is. *)
Theorem overlap_rejected_count_kept :
  exists w' ctx w'',
    rdtmon_config_cgroups
      (Some (Mock.cores_option ["0-3"; "2-5"]%string))
      (Mock.ready Mock.eight_cores []) = Some (- EINVAL, w') /\
    g_rdtmon w' = Some ctx /\
    forallb released (cgroups ctx) = true /\
    forallb absent (pgroups ctx) = true /\
    num_groups ctx = 2 /\
    length (live_groups ctx) = 2%nat /\
    rdtmon_init w' = Some (-1, w'') /\
    trace w'' = EvPqosMonStart 0 None 32769 None :: trace w'.
Proof.
  eexists. eexists. eexists.
  split; [vm_compute; reflexivity |].
  split; [reflexivity |].
  split; [vm_compute; reflexivity |].
  split; [vm_compute; reflexivity |].
  split; [reflexivity |].
  split; [vm_compute; reflexivity |].
  split; [vm_compute; reflexivity |].
  reflexivity.
Qed.

(** The same configuration through [rdtmon_config], from the world before
    the plugin is loaded. *)
Lemma overlap_rejected_from_boot :
  exists w' ctx,
    rdtmon_config
      (Mock.plugin_block ["0-3"; "2-5"]%string)
      (Mock.boot Mock.eight_cores []) = Some (- EINVAL, w') /\
    g_rdtmon w' = Some ctx /\
    num_groups ctx = 2.
Proof.
  eexists. eexists.
  split; [vm_compute; reflexivity |].
  split; reflexivity.
Qed.

(** When an expression does not parse, the configuration fails before
    [num_groups] is assigned: no group is live afterwards. *)
Lemma parse_error_leaves_no_group :
  exists w' ctx,
    rdtmon_config_cgroups
      (Some (Mock.cores_option ["0-3"; "abc"]%string))
      (Mock.ready Mock.eight_cores []) = Some (- EINVAL, w') /\
    g_rdtmon w' = Some ctx /\
    forallb released (cgroups ctx) = true /\
    num_groups ctx = 0 /\
    live_groups ctx = [].
Proof.
  eexists. eexists.
  split; [vm_compute; reflexivity |].
  split; [reflexivity |].
  split; [vm_compute; reflexivity |].
  split; reflexivity.
Qed.

(** C4 on a platform whose cores at indices 0 and 1 are the logical cores
    0 and 2: without any configured group, the second default group is
    described as ["2"], the logical identifier, while its core set is
    [{1}], the index. *)
Theorem default_group_holds_index :
  exists w' ctx cg,
    Mock.lcores Mock.sparse_cores = [0; 2] /\
    rdtmon_config_cgroups
      (Some (Mock.cores_option []))
      (Mock.ready Mock.sparse_cores []) = Some (0, w') /\
    g_rdtmon w' = Some ctx /\
    num_groups ctx = 2 /\
    cgroups ctx !! 1%nat = Some cg /\
    desc cg = Some "2"%string /\
    cores cg = Some [1] /\
    cores cg <> Some [2].
Proof.
  eexists. eexists. eexists.
  split; [reflexivity |].
  split; [vm_compute; reflexivity |].
  split; [reflexivity |].
  split; [reflexivity |].
  split; [vm_compute; reflexivity |].
  split; [reflexivity |].
  split; [reflexivity |].
  discriminate.
Qed.

(** On a platform whose logical identifiers are the indices, the default
    groups are those of the example: four cores give the groups ["0"],
    ["1"], ["2"], ["3"]. *)
Lemma default_groups_four_cores :
  exists w' ctx,
    rdtmon_config_cgroups
      (Some (Mock.cores_option []))
      (Mock.ready
         {| Mock.lcores := [0; 1; 2; 3];
            Mock.advertised := [Mock.L3_OCCUP];
            Mock.poll_script := [] |} []) = Some (0, w') /\
    g_rdtmon w' = Some ctx /\
    map (fun cg => (desc cg, cores cg)) (live_groups ctx)
    = [(Some "0"%string, Some [0]); (Some "1"%string, Some [1]);
       (Some "2"%string, Some [2]); (Some "3"%string, Some [3])].
Proof.
  eexists. eexists.
  split; [vm_compute; reflexivity |].
  split; [reflexivity |].
  vm_compute. reflexivity.
Qed.

End Runs.

(** ** Initialisation and polling *)

Section Lifecycle.

Context {P : Type} `{PqosLib P} `{Daemon}.

Lemma rdtmon_preinit_error1_ret (w w' : world P) (r : Z) :
  rdtmon_preinit_error1 w = Some (r, w') -> r = -1.
Proof.
  unfold rdtmon_preinit_error1. intros Hrun.
  apply bind_Some in Hrun as ([] & w1 & _ & Hrun).
  now apply pure_Some in Hrun as [-> _].
Qed.

Lemma rdtmon_preinit_error2_ret (w w' : world P) (r : Z) :
  rdtmon_preinit_error2 w = Some (r, w') -> r = -1.
Proof.
  unfold rdtmon_preinit_error2. intros Hrun.
  apply bind_Some in Hrun as (x & w1 & _ & Hrun).
  now apply rdtmon_preinit_error1_ret in Hrun.
Qed.

(** An initialisation that returns 0 leaves a context behind. *)
Lemma rdtmon_preinit_success (w w' : world P) :
  rdtmon_preinit w = Some (0, w') -> exists ctx, g_rdtmon w' = Some ctx.
Proof.
  unfold rdtmon_preinit. destruct (g_rdtmon w) as [ctx |] eqn:Hg.
  { intros Hrun. apply pure_Some in Hrun as [_ ->]. now exists ctx. }
  intros Hrun.
  apply bind_Some in Hrun as (ok & w1 & _ & Hrun).
  destruct ok.
  2:{ apply pure_Some in Hrun as [Hr _]. discriminate Hr. }
  apply bind_Some in Hrun as ([] & w2 & _ & Hrun).
  apply bind_Some in Hrun as (x & w3 & _ & Hrun).
  apply bind_Some in Hrun as (r & w4 & _ & Hrun).
  destruct (r =? PQOS_RETVAL_OK).
  2:{ apply rdtmon_preinit_error1_ret in Hrun. discriminate Hrun. }
  apply bind_Some in Hrun as ([[r1 a_cap] a_cpu] & w5 & _ & Hrun).
  apply bind_Some in Hrun as ([] & w6 & _ & Hrun).
  destruct (r1 =? PQOS_RETVAL_OK).
  2:{ apply rdtmon_preinit_error2_ret in Hrun. discriminate Hrun. }
  apply bind_Some in Hrun as (ctx & w7 & _ & Hrun).
  apply bind_Some in Hrun as ([r2 a_mon] & w8 & _ & Hrun).
  apply bind_Some in Hrun as ([] & w9 & Hset & Hrun).
  destruct (r2 =? PQOS_RETVAL_PARAM).
  { apply rdtmon_preinit_error2_ret in Hrun. discriminate Hrun. }
  destruct a_mon as [mon |].
  2:{ apply rdtmon_preinit_error2_ret in Hrun. discriminate Hrun. }
  apply pure_Some in Hrun as [_ ->].
  unfold set_cap_mon in Hset.
  apply bind_Some in Hset as (c & w10 & _ & Hset).
  apply store_ctx_Some in Hset as (Hctx & _). eexists. exact Hctx.
Qed.

(** C9: when the context exists, [rdtmon_preinit] returns 0 and changes
    nothing, be it the context, the allocator, the library or the trace;
    an initialisation that returned 0 has left the context in place, so
    the next one is such a no-op; and both callbacks, [rdtmon_config] and
    [rdtmon_init], then go straight to their own work in the same world. *)
Theorem rdtmon_preinit_idempotent (w : world P) :
  (forall ctx, g_rdtmon w = Some ctx -> rdtmon_preinit w = Some (0, w)) /\
  (forall w', rdtmon_preinit w = Some (0, w') ->
              rdtmon_preinit w' = Some (0, w')) /\
  (forall ctx ci,
      g_rdtmon w = Some ctx ->
      rdtmon_config ci w = rdtmon_config_loop (item_children ci) w /\
      rdtmon_init w = rdtmon_init_loop (Z.to_nat (num_groups ctx)) 0 w).
Proof.
  assert (Hnoop : forall (v : world P) ctx,
             g_rdtmon v = Some ctx -> rdtmon_preinit v = Some (0, v)).
  { intros v ctx Hctx. unfold rdtmon_preinit. now rewrite Hctx. }
  split; [apply Hnoop |]. split.
  - intros w' Hrun. apply rdtmon_preinit_success in Hrun as [ctx Hctx].
    now apply (Hnoop w' ctx).
  - intros ctx ci Hctx. split.
    + unfold rdtmon_config, bind. now rewrite (Hnoop w ctx Hctx).
    + unfold rdtmon_init, bind. rewrite (Hnoop w ctx Hctx). simpl.
      unfold deref_ctx. now rewrite Hctx.
Qed.

(** C10: without a context, [rdtmon_read] returns [-EINVAL] and leaves
    the world as it is: nothing is added to the trace, neither a poll nor
    a record. *)
Theorem rdtmon_read_uninitialized (w : world P) :
  g_rdtmon w = None ->
  exists w',
    rdtmon_read w = Some (- EINVAL, w') /\
    w' = w /\
    polls_of (trace w') = polls_of (trace w) /\
    dispatched (trace w') = dispatched (trace w).
Proof.
  intros Hnull. exists w. unfold rdtmon_read. rewrite Hnull.
  repeat split.
Qed.

(** C5: when the poll of a cycle fails, [rdtmon_read] returns -1 and has
    handed no record to the sink, its trace growing by the poll alone; and
    whenever [rdtmon_read] returns having handed over a record, the
    context existed and the poll had succeeded. *)
Theorem rdtmon_read_poll_failure (w : world P) :
  (forall ctx,
      g_rdtmon w = Some ctx ->
      poll_status w ctx <> PQOS_RETVAL_OK ->
      exists w',
        rdtmon_read w = Some (-1, w') /\
        trace w' = EvPqosMonPoll (num_groups ctx mod UINT_MODULUS) :: trace w /\
        dispatched (trace w') = dispatched (trace w)) /\
  (forall r w',
      rdtmon_read w = Some (r, w') ->
      dispatched (trace w') <> dispatched (trace w) ->
      exists ctx, g_rdtmon w = Some ctx /\ poll_status w ctx = PQOS_RETVAL_OK).
Proof.
  assert (Hfail : forall ctx,
      g_rdtmon w = Some ctx ->
      poll_status w ctx <> PQOS_RETVAL_OK ->
      exists w',
        rdtmon_read w = Some (-1, w') /\
        trace w' = EvPqosMonPoll (num_groups ctx mod UINT_MODULUS) :: trace w /\
        dispatched (trace w') = dispatched (trace w)).
  { intros ctx Hctx Hstatus. unfold poll_status in Hstatus.
    unfold rdtmon_read. rewrite Hctx. unfold bind at 1. unfold call.
    destruct (pqos_mon_poll (pqos w) (pgroups ctx)
                (num_groups ctx mod UINT_MODULUS)) as [[r polled] p'].
    simpl in Hstatus. unfold bind, set_pgroups, bind, deref_ctx, store_ctx.
    simpl. rewrite Hctx.
    destruct (r =? PQOS_RETVAL_OK) eqn:E; [apply Z.eqb_eq in E; contradiction |].
    eexists. split; [reflexivity |]. split; reflexivity. }
  split; [exact Hfail |].
  intros r w' Hrun Hnew.
  destruct (g_rdtmon w) as [ctx |] eqn:Hctx.
  - exists ctx. split; [reflexivity |].
    destruct (decide (poll_status w ctx = PQOS_RETVAL_OK)) as [Hok | Hko];
      [exact Hok |].
    exfalso. destruct (Hfail ctx eq_refl Hko) as (w1 & Hrun1 & _ & Hsame).
    rewrite Hrun in Hrun1. injection Hrun1 as _ <-. contradiction.
  - exfalso. unfold rdtmon_read in Hrun. rewrite Hctx in Hrun.
    apply pure_Some in Hrun as [_ ->]. contradiction.
Qed.

End Lifecycle.

Section LifecycleRuns.

#[local] Existing Instance Mock.lib.
#[local] Existing Instance Mock.daemon.

Lemma rdtmon_preinit_idempotent_witness :
  rdtmon_preinit (Mock.ready Mock.eight_cores [])
  = Some (0, Mock.ready Mock.eight_cores []).
Proof.
  eapply (proj1 (rdtmon_preinit_idempotent
                   (Mock.ready Mock.eight_cores []))).
  vm_compute. reflexivity.
Defined.

Lemma rdtmon_read_uninitialized_witness :
  exists w',
    rdtmon_read (Mock.boot Mock.eight_cores [])
    = Some (- EINVAL, w') /\
    w' = Mock.boot Mock.eight_cores [] /\
    polls_of (trace w') = polls_of (trace (Mock.boot Mock.eight_cores [])) /\
    dispatched (trace w') = dispatched (trace (Mock.boot Mock.eight_cores [])).
Proof.
  apply (rdtmon_read_uninitialized
           (Mock.boot Mock.eight_cores [])).
  reflexivity.
Defined.

Lemma rdtmon_read_poll_failure_witness :
  exists ctx,
    g_rdtmon (Mock.running Mock.failing_poll ["0-3"; "4-7"]%string) = Some ctx /\
    exists w',
      rdtmon_read
        (Mock.running Mock.failing_poll ["0-3"; "4-7"]%string) = Some (-1, w') /\
      trace w'
      = EvPqosMonPoll (num_groups ctx mod UINT_MODULUS)
          :: trace (Mock.running Mock.failing_poll ["0-3"; "4-7"]%string) /\
      dispatched (trace w')
      = dispatched (trace (Mock.running Mock.failing_poll ["0-3"; "4-7"]%string)).
Proof.
  eexists. split.
  - vm_compute. reflexivity.
  - eapply (proj1 (rdtmon_read_poll_failure
                     (Mock.running Mock.failing_poll ["0-3"; "4-7"]%string))).
    + vm_compute. reflexivity.
    + vm_compute. discriminate.
Defined.

(** A poll that succeeds: with the occupancy and the IPC events in the
    mask, each of the two groups gets an [llc] and an [ipc] record, tagged
    with its description in brackets. *)
Example rdtmon_read_emits :
  exists w',
    rdtmon_read (Mock.running Mock.eight_cores ["0-3"; "4-7"]%string)
    = Some (0, w') /\
    map (fun vl => (vl_plugin_instance vl, vl_type vl, length (vl_values vl)))
      (rev (dispatched (trace w')))
    = [("[0-3]", "llc", 1%nat); ("[0-3]", "ipc", 1%nat);
       ("[4-7]", "llc", 1%nat); ("[4-7]", "ipc", 1%nat)]%string.
Proof.
  eexists. split; vm_compute; reflexivity.
Qed.

End LifecycleRuns.

(** * Further properties of the parser *)

Section ParserOutput.

Lemma append_new_fits (nums : list Z) (n : Z) :
  0 <= n <= ULLONG_MAX -> fits_uint64 nums -> fits_uint64 (append_new nums n).
Proof.
  intros Hn Hf. unfold append_new. destruct (isdup nums n); [exact Hf |].
  apply Forall_app. split; [exact Hf |]. now apply Forall_singleton.
Qed.

Lemma range_loop_sound (fuel max : nat) (end_ : Z) :
  forall n nums,
    0 <= n <= ULLONG_MAX ->
    NoDup nums -> fits_uint64 nums ->
    NoDup (output_of (range_loop fuel max n end_ nums))
    /\ fits_uint64 (output_of (range_loop fuel max n end_ nums)).
Proof.
  induction fuel as [| fuel IH]; intros n nums Hn Hnd Hf; simpl.
  - now split.
  - destruct (n <=? end_); [| now split].
    destruct (max <=? length (append_new nums n))%nat.
    + simpl. split; [now apply append_new_NoDup | now apply append_new_fits].
    + apply IH.
      * pose proof (Z.mod_pos_bound (n + 1) (2 ^ 64) eq_refl).
        unfold ULLONG_MAX. lia.
      * now apply append_new_NoDup.
      * now apply append_new_fits.
Qed.

Lemma parse_token_sound (max : nat) (token : list ascii) (nums : list Z) :
  NoDup nums -> fits_uint64 nums ->
  NoDup (output_of (parse_token max token nums))
  /\ fits_uint64 (output_of (parse_token max token nums)).
Proof.
  intros Hnd Hf. unfold parse_token.
  assert (Hnil : NoDup (@nil Z) /\ fits_uint64 []).
  { split; [apply NoDup_nil_2 | apply Forall_nil_2]. }
  destruct (LibC.skip_spaces token) as [| c t]; [now split |].
  destruct (LibC.strchr (c :: t) hyphen) as [[a b] |].
  - destruct (strtouint64 a) as [start |] eqn:Ea; [| exact Hnil].
    destruct (strtouint64 b) as [end_ |] eqn:Eb; [| exact Hnil].
    apply strtouint64_range in Ea, Eb.
    destruct (end_ <? start); now apply range_loop_sound.
  - destruct (strtouint64 (c :: t)) as [val |] eqn:Ev; [| exact Hnil].
    apply strtouint64_range in Ev.
    destruct (max <=? length (append_new nums val))%nat; simpl;
      (split; [now apply append_new_NoDup | now apply append_new_fits]).
Qed.

Lemma parse_tokens_sound (max : nat) (tokens : list (list ascii)) :
  forall nums,
    NoDup nums -> fits_uint64 nums ->
    NoDup (parse_tokens max tokens nums)
    /\ fits_uint64 (parse_tokens max tokens nums).
Proof.
  induction tokens as [| token rest IH]; intros nums Hnd Hf; simpl.
  - now split.
  - destruct (parse_token_sound max token nums Hnd Hf) as [H1 H2].
    destruct (parse_token max token nums); simpl in H1, H2.
    + now apply IH.
    + now split.
Qed.

(** X1.  Whatever the string, the values [strlisttonums] returns are
    pairwise distinct, each of them fits [uint64_t], and there are at most
    [max] of them: [isdup] keeps a value from being stored twice, also
    across tokens and across a range that wraps around. *)
Theorem strlisttonums_distinct (s : string) (max : nat) :
  NoDup (strlisttonums s max)
  /\ fits_uint64 (strlisttonums s max)
  /\ (length (strlisttonums s max) <= max)%nat.
Proof.
  unfold strlisttonums. destruct (max =? 0)%nat eqn:E.
  - repeat split; [apply NoDup_nil_2 | apply Forall_nil_2 | simpl; lia].
  - apply Nat.eqb_neq in E.
    destruct (parse_tokens_sound max (tokens_of s) [])
      as [H1 H2]; [apply NoDup_nil_2 | apply Forall_nil_2 |].
    repeat split; [exact H1 | exact H2 |].
    apply parse_tokens_length. simpl. lia.
Qed.

End ParserOutput.

(** ** Ranges *)

Section Ranges.

Lemma append_new_seqZ (lo : Z) (k : nat) :
  append_new (seqZ lo (Z.of_nat k)) (lo + Z.of_nat k)
  = seqZ lo (Z.of_nat (S k)).
Proof.
  unfold append_new.
  destruct (isdup (seqZ lo (Z.of_nat k)) (lo + Z.of_nat k)) eqn:E.
  - apply isdup_elem_of in E. apply elem_of_seqZ in E. lia.
  - now rewrite seqZ_S.
Qed.

(** The loop over a range that ends below [ULLONG_MAX], entered with the
    first [k] values of the range in an otherwise empty output. *)
Lemma range_loop_enumerates (max : nat) (lo hi : Z) :
  0 <= lo -> hi < ULLONG_MAX ->
  forall fuel k,
    lo + Z.of_nat k <= hi + 1 ->
    (k < max)%nat -> (max <= k + fuel)%nat ->
    range_loop fuel max (lo + Z.of_nat k) hi (seqZ lo (Z.of_nat k))
    = if hi - lo + 1 <? Z.of_nat max
      then Next (seqZ lo (hi - lo + 1))
      else Return (seqZ lo (Z.of_nat max)).
Proof.
  intros Hlo Hhi. unfold ULLONG_MAX in Hhi.
  induction fuel as [| fuel IH]; intros k Hk Hmax Hfuel; [lia |].
  cbn [range_loop]. destruct (lo + Z.of_nat k <=? hi) eqn:E.
  - apply Z.leb_le in E. rewrite append_new_seqZ, length_seqZ, Nat2Z.id.
    destruct (max <=? S k)%nat eqn:Em.
    + apply Nat.leb_le in Em. assert (max = S k) by lia. subst max.
      destruct (hi - lo + 1 <? Z.of_nat (S k)) eqn:Ec;
        [apply Z.ltb_lt in Ec; lia | reflexivity].
    + apply Nat.leb_gt in Em.
      replace ((lo + Z.of_nat k + 1) mod 2 ^ 64) with (lo + Z.of_nat (S k)).
      * apply IH; lia.
      * rewrite Z.mod_small; lia.
  - apply Z.leb_gt in E. assert (Hc : hi - lo + 1 = Z.of_nat k) by lia.
    rewrite Hc. destruct (Z.of_nat k <? Z.of_nat max) eqn:Ec;
      [reflexivity | apply Z.ltb_ge in Ec; lia].
Qed.

(** X2.  A string that is one range [a-b] whose larger end is below
    [ULLONG_MAX] yields the values from the smaller end to the larger one
    in ascending order, whichever end was written first, cut off after
    [max] values. *)
Theorem strlisttonums_range (s : string) (max : nat)
  (token a b : list ascii) (x y : Z) :
  (0 < max)%nat ->
  tokens_of s = [token] ->
  LibC.strchr (LibC.skip_spaces token) hyphen = Some (a, b) ->
  strtouint64 a = Some x ->
  strtouint64 b = Some y ->
  Z.max x y < ULLONG_MAX ->
  strlisttonums s max
  = seqZ (Z.min x y) (Z.min (Z.max x y - Z.min x y + 1) (Z.of_nat max)).
Proof.
  intros Hmax Htok Hchr Ha Hb Hhi.
  unfold strlisttonums. destruct (max =? 0)%nat eqn:E0;
    [apply Nat.eqb_eq in E0; lia |].
  rewrite Htok. cbn [parse_tokens]. unfold parse_token.
  destruct (LibC.skip_spaces token) as [| c t]; [discriminate |].
  rewrite Hchr, Ha, Hb.
  pose proof (strtouint64_range _ _ Ha) as Hx.
  pose proof (strtouint64_range _ _ Hb) as Hy.
  assert (Hloop : range_loop max max (Z.min x y) (Z.max x y) []
                  = if Z.max x y - Z.min x y + 1 <? Z.of_nat max
                    then Next (seqZ (Z.min x y) (Z.max x y - Z.min x y + 1))
                    else Return (seqZ (Z.min x y) (Z.of_nat max))).
  { pose proof (range_loop_enumerates max (Z.min x y) (Z.max x y)
                  ltac:(lia) Hhi max 0%nat) as H.
    rewrite Z.add_0_r in H. apply H; lia. }
  assert (Hswap : (if y <? x then (y, x) else (x, y))
                  = (Z.min x y, Z.max x y)).
  { destruct (y <? x) eqn:E; [apply Z.ltb_lt in E | apply Z.ltb_ge in E];
      f_equal; lia. }
  rewrite Hswap, Hloop.
  destruct (Z.max x y - Z.min x y + 1 <? Z.of_nat max) eqn:Ec;
    [apply Z.ltb_lt in Ec | apply Z.ltb_ge in Ec]; f_equal; lia.
Qed.

Lemma strlisttonums_range_witness :
  strlisttonums "7-4" 3 = [4; 5; 6].
Proof.
  apply (strlisttonums_range "7-4" 3 (list_ascii_of_string "7-4")
           (list_ascii_of_string "7") (list_ascii_of_string "4") 7 4).
  - lia.
  - reflexivity.
  - reflexivity.
  - reflexivity.
  - reflexivity.
  - vm_compute. reflexivity.
Defined.

(** With the larger end at [ULLONG_MAX] the test [n <= end] holds for
    every [n], so the loop is left at the capacity check only. *)
Lemma range_loop_unbounded (max : nat) :
  forall fuel n nums,
    0 <= n <= ULLONG_MAX ->
    range_loop fuel max n ULLONG_MAX nums
    = Return (output_of (range_loop fuel max n ULLONG_MAX nums)).
Proof.
  induction fuel as [| fuel IH]; intros n nums Hn; cbn [range_loop].
  - reflexivity.
  - destruct (n <=? ULLONG_MAX) eqn:E; [| apply Z.leb_gt in E; lia].
    destruct (max <=? length (append_new nums n))%nat; [reflexivity |].
    apply IH. pose proof (Z.mod_pos_bound (n + 1) (2 ^ 64) eq_refl).
    unfold ULLONG_MAX. lia.
Qed.

(** X3.  A range whose larger end is [ULLONG_MAX] does not end at its
    larger end: [n++] wraps to 0 and the loop goes on until the output
    holds [max] values, so the token fills the output and the parser
    returns at once. *)
Theorem range_to_ullong_max_fills (max : nat) (token a b : list ascii)
  (x y : Z) (nums : list Z) :
  Z.of_nat max <= UINT_MAX ->
  (length nums < max)%nat ->
  LibC.strchr (LibC.skip_spaces token) hyphen = Some (a, b) ->
  strtouint64 a = Some x ->
  strtouint64 b = Some y ->
  Z.max x y = ULLONG_MAX ->
  exists r, parse_token max token nums = Return r /\ length r = max.
Proof.
  intros Hmax Hlen Hchr Ha Hb Hhi.
  pose proof (strtouint64_range _ _ Ha) as Hx.
  pose proof (strtouint64_range _ _ Hb) as Hy.
  assert (Hswap : (if y <? x then (y, x) else (x, y))
                  = (Z.min x y, ULLONG_MAX)).
  { rewrite <- Hhi.
    destruct (y <? x) eqn:E; [apply Z.ltb_lt in E | apply Z.ltb_ge in E];
      f_equal; lia. }
  assert (Hstep : parse_token max token nums
                  = range_loop max max (Z.min x y) ULLONG_MAX nums).
  { unfold parse_token.
    destruct (LibC.skip_spaces token) as [| c t]; [discriminate |].
    now rewrite Hchr, Ha, Hb, Hswap. }
  rewrite Hstep, range_loop_unbounded by lia.
  eexists. split; [reflexivity |].
  pose proof (range_loop_unbounded max max (Z.min x y) nums ltac:(lia)) as Hr.
  unfold UINT_MAX, UINT_MODULUS in Hmax. unfold ULLONG_MAX in Hx, Hy.
  eapply (range_loop_return_gen max ULLONG_MAX ltac:(lia) max 0%nat
            (Z.min x y) nums); try exact Hr; lia.
Qed.

Lemma range_to_ullong_max_fills_witness :
  exists r,
    parse_token 4 (list_ascii_of_string "18446744073709551614-0xffffffffffffffff") [7]
    = Return r /\ length r = 4%nat.
Proof.
  apply (range_to_ullong_max_fills 4 _
           (list_ascii_of_string "18446744073709551614")
           (list_ascii_of_string "0xffffffffffffffff")
           18446744073709551614 18446744073709551615 [7]).
  - vm_compute. discriminate.
  - simpl. lia.
  - reflexivity.
  - vm_compute. reflexivity.
  - vm_compute. reflexivity.
  - reflexivity.
Defined.

End Ranges.

(** ** Commas *)

Section Commas.

Lemma list_ascii_of_string_app (s1 s2 : string) :
  list_ascii_of_string (s1 ++ s2)
  = list_ascii_of_string s1 ++ list_ascii_of_string s2.
Proof.
  induction s1 as [| c s1 IH]; simpl; [reflexivity | now rewrite IH].
Qed.

Lemma strtok_from_app (delim : ascii) (l1 l2 : list ascii) :
  forall cur,
    LibC.strtok_from delim cur (l1 ++ delim :: l2)
    = LibC.strtok_from delim cur l1 ++ LibC.strtok_from delim [] l2.
Proof.
  induction l1 as [| c l1 IH]; intros cur; simpl.
  - rewrite Ascii.eqb_refl. now destruct cur.
  - destruct (Ascii.eqb c delim).
    + destruct cur; simpl; now rewrite IH.
    + apply IH.
Qed.

(** The tokens of two lists joined by a comma are those of the first
    followed by those of the second. *)
Lemma tokens_of_comma (s1 s2 : string) :
  tokens_of (s1 ++ "," ++ s2) = tokens_of s1 ++ tokens_of s2.
Proof.
  unfold tokens_of, LibC.strtok_all.
  rewrite list_ascii_of_string_app. simpl.
  apply (strtok_from_app comma).
Qed.

(** X4.  Commas only separate: a comma at the end or at the start of the
    list, and a comma that follows another one, change nothing, since
    [strtok_r] yields no empty token. *)
Theorem strlisttonums_spare_commas (s1 s2 : string) (max : nat) :
  strlisttonums (s1 ++ ",") max = strlisttonums s1 max
  /\ strlisttonums ("," ++ s1) max = strlisttonums s1 max
  /\ strlisttonums (s1 ++ "," ++ "," ++ s2) max
     = strlisttonums (s1 ++ "," ++ s2) max.
Proof.
  unfold strlisttonums. destruct (max =? 0)%nat; [easy |].
  pose proof (tokens_of_comma s1 "") as H1.
  pose proof (tokens_of_comma "" s1) as H2.
  pose proof (tokens_of_comma s1 ("," ++ s2)) as H3.
  pose proof (tokens_of_comma "" s2) as H4.
  pose proof (tokens_of_comma s1 s2) as H5.
  cbn [String.append] in *.
  rewrite H1, H2, H3, H4, H5.
  change (tokens_of "") with (@nil (list ascii)).
  now rewrite app_nil_r.
Qed.

(** As long as no step returns, tokens are consumed one after the other;
    a run that ends neither empty nor full has had no step return. *)
Lemma parse_tokens_app (max : nat) (pre post : list (list ascii)) :
  Z.of_nat max <= UINT_MAX ->
  forall nums,
    (length nums < max)%nat ->
    parse_tokens max pre nums <> [] ->
    (length (parse_tokens max pre nums) < max)%nat ->
    parse_tokens max (pre ++ post) nums
    = parse_tokens max post (parse_tokens max pre nums).
Proof.
  intros Hmax. induction pre as [| token rest IH];
    intros nums Hlen Hne Hroom; simpl in *.
  - reflexivity.
  - pose proof (parse_token_within max token nums Hlen) as Hw.
    pose proof (parse_token_return max token nums) as Hr.
    destruct (parse_token max token nums) as [nums' | r]; simpl in Hw.
    + now apply IH.
    + destruct (Hr r Hmax Hlen eq_refl) as [-> | Hfull]; [easy | lia].
Qed.

(** X5.  A list can be parsed piecewise: when the part before a comma
    parses to a result that is neither empty nor full, parsing the whole
    list is parsing the part after the comma with that result as the
    output so far. *)
Theorem strlisttonums_piecewise (s1 s2 : string) (max : nat) :
  Z.of_nat max <= UINT_MAX ->
  strlisttonums s1 max <> [] ->
  (length (strlisttonums s1 max) < max)%nat ->
  strlisttonums (s1 ++ "," ++ s2) max
  = parse_tokens max (tokens_of s2) (strlisttonums s1 max).
Proof.
  unfold strlisttonums. intros Hmax Hne Hroom.
  destruct (max =? 0)%nat eqn:E0; [easy |]. apply Nat.eqb_neq in E0.
  rewrite tokens_of_comma.
  apply parse_tokens_app; try assumption. simpl. lia.
Qed.

Lemma strlisttonums_piecewise_witness :
  strlisttonums ("0-2" ++ "," ++ "2-4") 8
  = parse_tokens 8 (tokens_of "2-4") (strlisttonums "0-2" 8).
Proof.
  apply (strlisttonums_piecewise "0-2" "2-4" 8).
  - vm_compute. discriminate.
  - vm_compute. discriminate.
  - vm_compute. lia.
Defined.

End Commas.

(** * Further properties of the overlap comparison *)

Section Symmetry.

Context {A B : Type}.

Lemma count_row_shift (test : B -> bool) (lb : list B) (found : Z) :
  count_row test lb found = found + count_row test lb 0.
Proof.
  unfold count_row. revert found.
  induction lb as [| b lb IH]; intros found; simpl; [lia |].
  rewrite IH, (IH (if test b then 0 + 1 else 0)).
  destruct (test b); lia.
Qed.

Lemma count_pairs_cons (test : A -> B -> bool) (a : A) (la : list A)
  (lb : list B) (found : Z) :
  count_pairs test (a :: la) lb found
  = count_pairs test la lb (count_row (test a) lb found).
Proof. reflexivity. Qed.

Lemma count_pairs_shift (test : A -> B -> bool) (la : list A) (lb : list B)
  (found : Z) :
  count_pairs test la lb found = found + count_pairs test la lb 0.
Proof.
  revert found. induction la as [| a la IH]; intros found.
  - unfold count_pairs. simpl. lia.
  - rewrite !count_pairs_cons, IH, (IH (count_row _ lb 0)),
      (count_row_shift _ lb found). lia.
Qed.

Lemma count_pairs_nil_r (test : A -> B -> bool) (la : list A) (found : Z) :
  count_pairs test la [] found = found.
Proof.
  revert found. induction la as [| a la IH]; intros found;
    [reflexivity | rewrite count_pairs_cons; apply IH].
Qed.

End Symmetry.

Lemma count_pairs_cons_r {A B : Type} (test : A -> B -> bool) (la : list A)
  (b : B) (lb : list B) :
  count_pairs test la (b :: lb) 0
  = count_row (fun a => test a b) la 0 + count_pairs test la lb 0.
Proof.
  induction la as [| a la IH]; [reflexivity |].
  rewrite !count_pairs_cons.
  rewrite (count_pairs_shift test la (b :: lb)), IH.
  rewrite (count_pairs_shift test la lb (count_row (test a) lb 0)).
  change (count_row (test a) (b :: lb) 0)
    with (count_row (test a) lb (if test a b then 0 + 1 else 0)).
  change (count_row (fun a0 => test a0 b) (a :: la) 0)
    with (count_row (fun a0 => test a0 b) la (if test a b then 0 + 1 else 0)).
  rewrite (count_row_shift (test a) lb (if test a b then 0 + 1 else 0)).
  rewrite (count_row_shift (fun a0 => test a0 b) la
             (if test a b then 0 + 1 else 0)).
  lia.
Qed.

(** Both orders of the two loops count the same pairs. *)
Lemma count_pairs_swap {A B : Type} (test : A -> B -> bool) (la : list A)
  (lb : list B) :
  count_pairs test la lb 0 = count_pairs (fun b a => test a b) lb la 0.
Proof.
  induction la as [| a la IH].
  - now rewrite count_pairs_nil_r.
  - rewrite count_pairs_cons, count_pairs_shift, IH.
    now rewrite (count_pairs_cons_r (fun b a => test a b) lb a la).
Qed.

Lemma count_pairs_ext {A B : Type} (test test' : A -> B -> bool)
  (la : list A) (lb : list B) :
  (forall a b, test a b = test' a b) ->
  forall found, count_pairs test la lb found = count_pairs test' la lb found.
Proof.
  intros Hext. induction la as [| a la IH]; intros found; [reflexivity |].
  rewrite !count_pairs_cons, IH. f_equal.
  unfold count_row. clear IH. revert found.
  induction lb as [| b lb IHb]; intros found; simpl; [reflexivity |].
  now rewrite Hext, IHb.
Qed.

Lemma cgroup_cmp_found_sym (cg_a cg_b : rdtmon_core_group_t) :
  cgroup_cmp_found cg_a cg_b = cgroup_cmp_found cg_b cg_a.
Proof.
  unfold cgroup_cmp_found.
  change (count_pairs (fun i j => core_at cg_a i =? core_at cg_b j)
            (seq 0 (Z.to_nat (num_cores cg_a)))
            (seq 0 (Z.to_nat (num_cores cg_b))) 0
          = count_pairs (fun j i => core_at cg_b j =? core_at cg_a i)
              (seq 0 (Z.to_nat (num_cores cg_b)))
              (seq 0 (Z.to_nat (num_cores cg_a))) 0).
  rewrite count_pairs_swap. apply count_pairs_ext.
  intros j i. apply Z.eqb_sym.
Qed.

(** X6.  The comparison does not depend on the order of its arguments,
    whatever the two groups hold: no core array at all, repeated cores or
    a negative count. *)
Theorem cgroup_cmp_sym (cg_a cg_b : rdtmon_core_group_t) :
  cgroup_cmp cg_a cg_b = cgroup_cmp cg_b cg_a.
Proof.
  unfold cgroup_cmp. rewrite (cgroup_cmp_found_sym cg_b cg_a).
  destruct (cgroup_cmp_found cg_a cg_b =? 0); [reflexivity |].
  destruct (num_cores cg_a =? num_cores cg_b) eqn:E.
  - apply Z.eqb_eq in E. rewrite E, Z.eqb_refl. reflexivity.
  - rewrite Z.eqb_sym in E. rewrite E. simpl.
    destruct (num_cores cg_b =? cgroup_cmp_found cg_a cg_b) eqn:E2;
      [| reflexivity].
    simpl. reflexivity.
Qed.

(** * Further properties of the configuration *)

Section ConfigOutcome.

Context {P : Type} `{PqosLib P} `{Daemon}.

(** A table all of whose slots are released. *)
Lemma free_return_Some (r r' : Z) (w w' : world P) :
  (let* 'tt := rdtmon_free_cgroups in pure r) w = Some (r', w') ->
  r' = r /\
  exists ctx',
    g_rdtmon w' = Some ctx' /\
    forallb released (cgroups ctx') = true /\
    forallb absent (pgroups ctx') = true.
Proof.
  intros Hrun. apply bind_Some in Hrun as ([] & w1 & Hfree & Hrun).
  apply pure_Some in Hrun as [-> ->]. split; [reflexivity |].
  apply rdtmon_free_cgroups_Some in Hfree
    as (ctx & ctx' & _ & Hctx' & Hcg & Hpg & _).
  exists ctx'. split; [exact Hctx' |]. rewrite Hcg, Hpg.
  split; [apply released_free_cgroup | apply absent_cleared].
Qed.

Lemma write_pgroup_bound (i : Z) (pg : option pqos_mon_data) (w w' : world P)
  (u : unit) (ctx : rdtmon_ctx_t cap_t) :
  write_pgroup i pg w = Some (u, w') ->
  g_rdtmon w = Some ctx ->
  0 <= i /\ (Z.to_nat i < length (pgroups ctx))%nat.
Proof.
  unfold write_pgroup. intros Hb Hctx.
  apply bind_Some in Hb as (c & w1 & Hc & Hb).
  apply deref_ctx_Some in Hc as [Hc ->].
  rewrite Hctx in Hc. injection Hc as <-.
  destruct ((0 <=? i) && (i <? Z.of_nat (length (pgroups ctx)))) eqn:E;
    [| discriminate].
  apply andb_prop in E as [E1 E2]. lia.
Qed.

(** Whatever the validation loop returns instead of 0 is an error code,
    returned after [rdtmon_free_cgroups]. *)
Lemma rdtmon_config_cgroups_loop_failure (a_events : Z) :
  forall (todo i : nat) (w w' : world P) (r : Z),
    rdtmon_config_cgroups_loop todo i a_events w = Some (r, w') ->
    r <> 0 ->
    r < 0 /\
    exists ctx',
      g_rdtmon w' = Some ctx' /\
      forallb released (cgroups ctx') = true /\
      forallb absent (pgroups ctx') = true.
Proof.
  induction todo as [| todo IH]; intros i w w' r Hrun Hr; simpl in Hrun.
  - apply pure_Some in Hrun as [-> _]. contradiction.
  - apply bind_Some in Hrun as (ctx & w1 & Hd & Hrun).
    apply deref_ctx_Some in Hd as [Hctx ->].
    destruct (overlaps_earlier (cgroups ctx) i).
    { apply free_return_Some in Hrun as [-> Hrel]. split; [reflexivity | exact Hrel]. }
    apply bind_Some in Hrun as (cg & w1 & _ & Hrun).
    apply bind_Some in Hrun as ([] & w2 & _ & Hrun).
    apply bind_Some in Hrun as (ok & w3 & _ & Hrun).
    apply bind_Some in Hrun as ([] & w4 & _ & Hrun).
    destruct ok.
    + now apply (IH _ _ _ _ Hrun).
    + apply free_return_Some in Hrun as [-> Hrel].
      split; [reflexivity | exact Hrel].
Qed.

(** X7.  Once the values of the option are known to be strings, a
    configuration of the groups that does not return 0 returns a
    negative value and leaves no group behind: whatever the step that failed (parsing,
    an allocation, the default groups or the overlap check), every slot of
    the group table is without description and core array, and every
    slot of the monitoring table is [NULL]. *)
Theorem rdtmon_config_cgroups_failure_releases (item : oconfig_item_t)
  (w w' : world P) (r : Z) :
  forallb is_string (item_values item) = true ->
  rdtmon_config_cgroups (Some item) w = Some (r, w') ->
  r <> 0 ->
  r < 0 /\
  exists ctx',
    g_rdtmon w' = Some ctx' /\
    forallb released (cgroups ctx') = true /\
    forallb absent (pgroups ctx') = true.
Proof.
  intros Hstr Hrun Hr. unfold rdtmon_config_cgroups in Hrun.
  rewrite Hstr in Hrun.
  apply bind_Some in Hrun as (n & w1 & _ & Hrun).
  assert (Hval : forall m v,
             rdtmon_config_cgroups_validate m v = Some (r, w') ->
             r < 0 /\
             exists ctx',
               g_rdtmon w' = Some ctx' /\
               forallb released (cgroups ctx') = true /\
               forallb absent (pgroups ctx') = true).
  { intros m v Hv. unfold rdtmon_config_cgroups_validate in Hv.
    apply bind_Some in Hv as (ctx & v1 & _ & Hv).
    apply bind_Some in Hv as (mon & v2 & _ & Hv).
    apply bind_Some in Hv as ([] & v3 & _ & Hv).
    now apply (rdtmon_config_cgroups_loop_failure _ _ _ _ _ _ Hv). }
  destruct (n <? 0).
  { apply free_return_Some in Hrun as [-> Hrel]. split; [reflexivity | exact Hrel]. }
  destruct (n =? 0); [| now apply (Hval n w1)].
  apply bind_Some in Hrun as (n' & w2 & Hdef & Hrun).
  destruct (n' <? 0) eqn:En; [| now apply (Hval n' w2)].
  apply free_return_Some in Hrun as [-> Hrel]. split; [| exact Hrel].
  apply Z.ltb_lt in En. exact En.
Qed.

(** A run of the validation loop that returns 0 has found every group
    it visited free of the cores of the groups before it, and has given
    it a monitoring structure; the comparison of any two slots comes
    out the same before and after, since the loop writes event masks
    only. *)
Lemma rdtmon_config_cgroups_loop_disjoint (a_events : Z) :
  forall (todo i : nat) (w w' : world P) (ctx : rdtmon_ctx_t cap_t),
    rdtmon_config_cgroups_loop todo i a_events w = Some (0, w') ->
    g_rdtmon w = Some ctx ->
    exists ctx',
      g_rdtmon w' = Some ctx' /\
      (forall k, overlaps_earlier (cgroups ctx') k
                 = overlaps_earlier (cgroups ctx) k) /\
      (forall k, (k < i)%nat -> pgroups ctx' !! k = pgroups ctx !! k) /\
      (forall k, (i <= k < i + todo)%nat ->
                 overlaps_earlier (cgroups ctx') k = false /\
                 pgroups ctx' !! k = Some (Some fresh_mon_data)).
Proof.
  induction todo as [| todo IH]; intros i w w' ctx Hrun Hctx; simpl in Hrun.
  - apply pure_Some in Hrun as [_ ->]. exists ctx.
    split; [exact Hctx |]. split; [reflexivity |].
    split; [reflexivity |]. intros k Hk. lia.
  - apply bind_Some in Hrun as (c & w1 & Hd & Hrun).
    apply deref_ctx_Some in Hd as [Hd ->].
    rewrite Hctx in Hd. injection Hd as <-.
    destruct (overlaps_earlier (cgroups ctx) i) eqn:Eo.
    { apply bind_Some in Hrun as ([] & w1 & _ & Hrun).
      apply pure_Some in Hrun as [Hr _]. discriminate Hr. }
    apply bind_Some in Hrun as (cg & w1 & Hr & Hrun).
    apply read_cgroup_Some in Hr as (-> & _ & c & Hc & Hlk).
    rewrite Hctx in Hc. injection Hc as <-. rewrite Nat2Z.id in Hlk.
    apply bind_Some in Hrun as ([] & w1 & Hw & Hrun).
    apply write_cgroup_Some in Hw
      as (c & ctx1 & Hc & Hctx1 & Hcg1 & Hpg1 & _).
    rewrite Hctx in Hc. injection Hc as <-. rewrite Nat2Z.id in Hcg1.
    apply bind_Some in Hrun as (ok & w2 & Hm & Hrun).
    apply malloc_Some in Hm as (Hg2 & _).
    apply bind_Some in Hrun as ([] & w3 & Hw & Hrun).
    assert (Hctx2 : g_rdtmon w2 = Some ctx1) by congruence.
    pose proof (write_pgroup_bound _ _ _ _ _ _ Hw Hctx2) as [_ Hbound].
    apply write_pgroup_Some in Hw
      as (c & ctx2 & Hc & Hctx3 & Hcg2 & Hpg2 & _).
    rewrite Hctx2 in Hc. injection Hc as <-.
    rewrite Nat2Z.id in Hpg2, Hbound.
    destruct ok.
    + apply (IH _ _ _ ctx2) in Hrun as (ctx' & Hctx' & Hsame & Hkeep & Hnew);
        [| exact Hctx3].
      assert (Hover : forall k, overlaps_earlier (cgroups ctx') k
                                = overlaps_earlier (cgroups ctx) k).
      { intros k. rewrite Hsame, Hcg2, Hcg1.
        now apply overlaps_earlier_set_events. }
      exists ctx'. split; [exact Hctx' |]. split; [exact Hover |]. split.
      * intros k Hk. rewrite Hkeep, Hpg2, Hpg1 by lia.
        apply list_lookup_insert_ne. lia.
      * intros k Hk. destruct (decide (k = i)) as [-> | Hne].
        -- split; [now rewrite Hover |].
           rewrite Hkeep, Hpg2 by lia.
           now apply list_lookup_insert_eq.
        -- apply Hnew. lia.
    + apply bind_Some in Hrun as ([] & w4 & _ & Hrun).
      apply pure_Some in Hrun as [Hr _]. discriminate Hr.
Qed.

Lemma overlaps_earlier_false (tab : list rdtmon_core_group_t) (i j : nat) :
  overlaps_earlier tab i = false ->
  (j < i)%nat ->
  cgroup_cmp (nth j tab zero_cgroup) (nth i tab zero_cgroup) = 0.
Proof.
  unfold overlaps_earlier. intros Hno Hj.
  destruct (cgroup_cmp (nth j tab zero_cgroup) (nth i tab zero_cgroup) =? 0)
    eqn:E; [now apply Z.eqb_eq in E |].
  assert (Hex : existsb
                  (fun j => negb (cgroup_cmp (nth j tab zero_cgroup)
                                    (nth i tab zero_cgroup) =? 0))
                  (seq 0 i) = true).
  { apply existsb_exists. exists j. split.
    - apply in_seq. lia.
    - now rewrite E. }
  congruence.
Qed.

(** X8.  A configuration of the groups that returns 0 leaves
    [num_groups] live groups no two of which share a core according to
    [cgroup_cmp], each with a monitoring structure in its slot of
    [pgroups]. *)
Theorem rdtmon_config_cgroups_success_disjoint (item : option oconfig_item_t)
  (w w' : world P) :
  rdtmon_config_cgroups item w = Some (0, w') ->
  exists ctx,
    g_rdtmon w' = Some ctx /\
    0 <= num_groups ctx /\
    (forall i j, (j < i < Z.to_nat (num_groups ctx))%nat ->
                 cgroup_cmp (nth j (cgroups ctx) zero_cgroup)
                            (nth i (cgroups ctx) zero_cgroup) = 0) /\
    (forall k, (k < Z.to_nat (num_groups ctx))%nat ->
               exists data, pgroups ctx !! k = Some (Some data)).
Proof.
  intros Hrun.
  assert (Hn : exists n w1,
             0 <= n /\ rdtmon_config_cgroups_validate n w1 = Some (0, w')).
  { unfold rdtmon_config_cgroups in Hrun. destruct item as [item |].
    2:{ apply pure_Some in Hrun as [Hr _]. discriminate Hr. }
    destruct (forallb is_string (item_values item)).
    2:{ apply pure_Some in Hrun as [Hr _]. discriminate Hr. }
    apply bind_Some in Hrun as (n & w1 & _ & Hrun).
    destruct (n <? 0) eqn:En.
    { apply bind_Some in Hrun as ([] & w2 & _ & Hrun).
      apply pure_Some in Hrun as [Hr _]. discriminate Hr. }
    apply Z.ltb_ge in En.
    destruct (n =? 0); [| now exists n, w1].
    apply bind_Some in Hrun as (n' & w2 & _ & Hrun).
    destruct (n' <? 0) eqn:En'.
    - apply bind_Some in Hrun as ([] & w3 & _ & Hrun).
      apply pure_Some in Hrun as [Hr _]. apply Z.ltb_lt in En'. lia.
    - apply Z.ltb_ge in En'. now exists n', w2. }
  destruct Hn as (n & w1 & Hpos & Hval).
  unfold rdtmon_config_cgroups_validate in Hval.
  apply bind_Some in Hval as (ctx & v1 & Hd & Hval).
  apply deref_ctx_Some in Hd as [Hctx ->].
  apply bind_Some in Hval as (mon & v1 & Hd & Hval).
  apply deref_Some in Hd as [Hmon ->].
  apply bind_Some in Hval as ([] & v1 & Hs & Hval).
  unfold set_num_groups in Hs.
  apply bind_Some in Hs as (c & v2 & Hd & Hs).
  apply deref_ctx_Some in Hd as [Hc ->].
  apply store_ctx_Some in Hs as (Hctx1 & _).
  pose proof (rdtmon_config_cgroups_loop_success _ _ _ _ _ _ Hval Hctx1)
    as (ctx' & Hctx' & Hnum & _).
  pose proof (rdtmon_config_cgroups_loop_disjoint _ _ _ _ _ _ Hval Hctx1)
    as (ctx'' & Hctx'' & _ & _ & Hnew).
  rewrite Hctx' in Hctx''. injection Hctx'' as <-. simpl in Hnum.
  exists ctx'. rewrite Hnum. split; [exact Hctx' |]. split; [exact Hpos |].
  split.
  - intros i j Hij. apply overlaps_earlier_false; [| lia].
    apply Hnew. lia.
  - intros k Hk. exists fresh_mon_data. apply Hnew. lia.
Qed.

End ConfigOutcome.

Section ConfigOutcomeRuns.

#[local] Existing Instance Mock.lib.
#[local] Existing Instance Mock.daemon.

Lemma rdtmon_config_cgroups_failure_releases_witness :
  exists w',
    rdtmon_config_cgroups (Some (Mock.cores_option ["0-3"; "4-7"]%string))
      (Mock.ready Mock.eight_cores [true; true; false]) = Some (- EINVAL, w')
    /\ (- EINVAL < 0 /\
        exists ctx',
          g_rdtmon w' = Some ctx' /\
          forallb released (cgroups ctx') = true /\
          forallb absent (pgroups ctx') = true).
Proof.
  eexists. split; [vm_compute; reflexivity |].
  apply (rdtmon_config_cgroups_failure_releases
           (Mock.cores_option ["0-3"; "4-7"]%string)
           (Mock.ready Mock.eight_cores [true; true; false]) _ (- EINVAL)).
  - reflexivity.
  - vm_compute. reflexivity.
  - discriminate.
Defined.

Lemma rdtmon_config_cgroups_success_disjoint_witness :
  exists w' ctx,
    rdtmon_config_cgroups (Some (Mock.cores_option ["0-3"; "4-7"]%string))
      (Mock.ready Mock.eight_cores []) = Some (0, w')
    /\ g_rdtmon w' = Some ctx /\
    0 <= num_groups ctx /\
    (forall i j, (j < i < Z.to_nat (num_groups ctx))%nat ->
                 cgroup_cmp (nth j (cgroups ctx) zero_cgroup)
                            (nth i (cgroups ctx) zero_cgroup) = 0) /\
    (forall k, (k < Z.to_nat (num_groups ctx))%nat ->
               exists data, pgroups ctx !! k = Some (Some data)).
Proof.
  destruct (rdtmon_config_cgroups_success_disjoint
              (Some (Mock.cores_option ["0-3"; "4-7"]%string))
              (Mock.ready Mock.eight_cores [])
              (match rdtmon_config_cgroups
                       (Some (Mock.cores_option ["0-3"; "4-7"]%string))
                       (Mock.ready Mock.eight_cores []) with
               | Some (_, w') => w'
               | None => Mock.ready Mock.eight_cores []
               end))
    as (ctx & Hrest); [vm_compute; reflexivity |].
  eexists. exists ctx. split; [vm_compute; reflexivity |]. exact Hrest.
Defined.

End ConfigOutcomeRuns.

(** * From the values of the option to the group table *)

Section Oconfig.

Context {P : Type} `{PqosLib P} `{Daemon}.

(** The loop of [oconfig_to_cgroups] when every allocation succeeds and
    every value that names a group parses: the values [vals] fill the
    slots from [index] on, one slot for each value that names a group;
    what follows [vals] is read only if room is left. *)
Lemma oconfig_to_cgroups_loop_run (max : Z) :
  forall (vals : list oconfig_value_t) (index : nat) (w : world P)
         (ctx : rdtmon_ctx_t cap_t),
    g_rdtmon w = Some ctx ->
    heap w = [] ->
    forallb is_string vals = true ->
    Forall (fun s => parsed_cores s <> []) (group_values vals) ->
    Z.of_nat index < max ->
    Z.of_nat (index + length (group_values vals)) <= max ->
    (index + length (group_values vals) <= length (cgroups ctx))%nat ->
    exists w' ctx',
      g_rdtmon w' = Some ctx' /\
      heap w' = [] /\ pqos w' = pqos w /\ trace w' = trace w /\
      pgroups ctx' = pgroups ctx /\ num_groups ctx' = num_groups ctx /\
      pqos_cpu ctx' = pqos_cpu ctx /\ cap_mon ctx' = cap_mon ctx /\
      length (cgroups ctx') = length (cgroups ctx) /\
      (forall k, (k < index \/ index + length (group_values vals) <= k)%nat ->
                 cgroups ctx' !! k = cgroups ctx !! k) /\
      (forall k s cg,
          group_values vals !! k = Some s ->
          cgroups ctx !! (index + k)%nat = Some cg ->
          cgroups ctx' !! (index + k)%nat = Some (group_for s cg)) /\
      (forall post,
          oconfig_to_cgroups_loop (vals ++ post) max (Z.of_nat index) w
          = if Z.of_nat (index + length (group_values vals)) <? max
            then oconfig_to_cgroups_loop post max
                   (Z.of_nat (index + length (group_values vals))) w'
            else Some (Z.of_nat (index + length (group_values vals)), w')).
Proof.
  induction vals as [| v vals IH];
    intros index w ctx Hctx Hheap Hstr Hparse Hidx Hmax Hlen.
  - exists w, ctx. simpl. repeat split; try assumption.
    + intros k s cg Hk. discriminate Hk.
    + intros post. rewrite Nat.add_0_r.
      assert (E : (Z.of_nat index <? max) = true) by (apply Z.ltb_lt; lia).
      now rewrite E.
  - assert (Hskip :
      group_values (v :: vals) = group_values vals ->
      (forall post,
          oconfig_to_cgroups_loop ((v :: vals) ++ post) max (Z.of_nat index) w
          = oconfig_to_cgroups_loop (vals ++ post) max (Z.of_nat index) w) ->
      exists w' ctx',
        g_rdtmon w' = Some ctx' /\
        heap w' = [] /\ pqos w' = pqos w /\ trace w' = trace w /\
        pgroups ctx' = pgroups ctx /\ num_groups ctx' = num_groups ctx /\
        pqos_cpu ctx' = pqos_cpu ctx /\ cap_mon ctx' = cap_mon ctx /\
        length (cgroups ctx') = length (cgroups ctx) /\
        (forall k,
            (k < index \/ index + length (group_values (v :: vals)) <= k)%nat ->
            cgroups ctx' !! k = cgroups ctx !! k) /\
        (forall k s cg,
            group_values (v :: vals) !! k = Some s ->
            cgroups ctx !! (index + k)%nat = Some cg ->
            cgroups ctx' !! (index + k)%nat = Some (group_for s cg)) /\
        (forall post,
            oconfig_to_cgroups_loop ((v :: vals) ++ post) max (Z.of_nat index) w
            = if Z.of_nat (index + length (group_values (v :: vals))) <? max
              then oconfig_to_cgroups_loop post max
                     (Z.of_nat (index + length (group_values (v :: vals)))) w'
              else Some (Z.of_nat (index + length (group_values (v :: vals))),
                         w'))).
    { intros Hgv Hloop. rewrite Hgv in *.
      apply andb_prop in Hstr as [_ Hstr].
      destruct (IH index w ctx Hctx Hheap Hstr Hparse Hidx Hmax Hlen)
        as (w' & ctx' & H1 & H2 & H3 & H4 & H5 & H6 & H7 & H8 & H9 & H10
            & H11 & H12).
      exists w', ctx'. repeat split; try assumption.
      intros post. rewrite Hloop. apply H12. }
    destruct v as [[s |] | |]; try discriminate Hstr.
    2:{ apply Hskip; [reflexivity | intros post; reflexivity]. }
    destruct (String.length s =? 0)%nat eqn:Es.
    { apply Hskip.
      - unfold group_values. simpl. now rewrite Es.
      - intros post. simpl. now rewrite Es. }
    clear Hskip.
    assert (Hgv : group_values (OCONFIG_TYPE_STRING (Some s) :: vals)
                  = s :: group_values vals).
    { unfold group_values. simpl. now rewrite Es. }
    rewrite Hgv in *. cbn [length] in *.
    apply andb_prop in Hstr as [_ Hstr].
    apply Forall_cons in Hparse as [Hs Hparse].
    assert (Hi : (index < length (cgroups ctx))%nat) by lia.
    apply lookup_lt_is_Some_2 in Hi as [cg Hcg].
    set (w1 := Build_world
                 (Some {| cgroups := <[index := group_for s cg]> (cgroups ctx);
                          pgroups := pgroups ctx;
                          num_groups := num_groups ctx;
                          pqos_cpu := pqos_cpu ctx;
                          pqos_cap := pqos_cap ctx;
                          cap_mon := cap_mon ctx |})
                 (heap w) (pqos w) (trace w)).
    assert (Hstep : forall post,
      oconfig_to_cgroups_loop
        ((OCONFIG_TYPE_STRING (Some s) :: vals) ++ post) max (Z.of_nat index) w
      = if max <=? Z.of_nat (S index) then Some (Z.of_nat (S index), w1)
        else oconfig_to_cgroups_loop (vals ++ post) max (Z.of_nat (S index)) w1).
    { intros post. simpl app. cbn [oconfig_to_cgroups_loop]. rewrite Es.
      change (strlisttonums (sstrncpy s DATA_MAX_NAME_LEN)
                (Z.to_nat RDTMON_MAX_CORES)) with (parsed_cores s).
      destruct (parsed_cores s) as [| c0 cs] eqn:Ep; [contradiction |].
      assert (En : (Z.of_nat (length (c0 :: cs)) =? 0) = false).
      { apply Z.eqb_neq. cbn [length]. lia. }
      rewrite En.
      rewrite (bind_run _ _ _ _ _ (malloc_ok w Hheap)).
      rewrite (bind_run _ _ _ _ _ (read_cgroup_run index cg w ctx Hctx Hcg)).
      rewrite (bind_run _ _ _ _ _
                 (cgroup_set_ok cg s (c0 :: cs)
                    (Z.of_nat (length (c0 :: cs))) w Hheap
                    ltac:(cbn [length]; lia))).
      rewrite Nat2Z.id, firstn_all.
      match goal with
      | |- context [bind (write_cgroup _ ?new) _ w] =>
          rewrite (bind_run _ _ _ _ _
                     (write_cgroup_run index new w ctx Hctx
                        ltac:(eapply lookup_lt_Some; eauto)))
      end.
      change (0 <? 0) with false. cbv iota.
      replace (Z.of_nat index + 1) with (Z.of_nat (S index)) by lia.
      unfold w1, group_for. rewrite Ep.
      now destruct (max <=? Z.of_nat (S index)). }
    destruct (max <=? Z.of_nat (S index)) eqn:Efull.
    + apply Z.leb_le in Efull.
      assert (Hnone : length (group_values vals) = 0%nat) by lia.
      exists w1. eexists. split; [reflexivity |].
      cbn [heap pqos trace cgroups pgroups num_groups pqos_cpu cap_mon].
      rewrite length_insert. repeat split; try assumption.
      * intros k Hk. apply list_lookup_insert_ne. lia.
      * intros k s' cg' Hk Hcg'. destruct k as [| k].
        -- injection Hk as <-. rewrite Nat.add_0_r in *.
           rewrite Hcg in Hcg'. injection Hcg' as <-.
           apply list_lookup_insert_eq. eapply lookup_lt_Some; eauto.
        -- simpl in Hk. apply lookup_lt_Some in Hk. lia.
      * intros post. rewrite Hstep.
        assert (E : (Z.of_nat (index + S (length (group_values vals))) <? max)
                    = false) by (apply Z.ltb_ge; lia).
        rewrite E. repeat f_equal. lia.
    + apply Z.leb_gt in Efull.
      destruct (IH (S index) w1 _ eq_refl Hheap Hstr Hparse)
        as (w' & ctx' & H1 & H2 & H3 & H4 & H5 & H6 & H7 & H8 & H9 & H10
            & H11 & H12).
      * exact Efull.
      * lia.
      * cbn [cgroups]. rewrite length_insert. lia.
      * cbn [heap pqos trace cgroups pgroups num_groups pqos_cpu cap_mon]
          in H3, H4, H5, H6, H7, H8, H9, H10, H11.
        rewrite length_insert in H9.
        exists w', ctx'. repeat split; try assumption.
        -- intros k Hk. rewrite H10 by lia.
           apply list_lookup_insert_ne. lia.
        -- intros k s' cg' Hk Hcg'. destruct k as [| k].
           ++ injection Hk as <-. rewrite Nat.add_0_r in *.
              rewrite Hcg in Hcg'. injection Hcg' as <-.
              rewrite H10 by lia.
              apply list_lookup_insert_eq. eapply lookup_lt_Some; eauto.
           ++ simpl in Hk.
              replace (index + S k)%nat with (S index + k)%nat in * by lia.
              apply (H11 k s' cg' Hk).
              rewrite list_lookup_insert_ne by lia. exact Hcg'.
        -- intros post. rewrite Hstep, H12.
           replace (S index + length (group_values vals))%nat
             with (index + S (length (group_values vals)))%nat by lia.
           reflexivity.
Qed.

(** [oconfig_to_cgroups] on such values. *)
Lemma oconfig_to_cgroups_run (item : oconfig_item_t) (w : world P)
  (ctx : rdtmon_ctx_t cap_t) :
  g_rdtmon w = Some ctx ->
  heap w = [] ->
  forallb is_string (item_values item) = true ->
  Forall (fun s => parsed_cores s <> []) (group_values (item_values item)) ->
  Z.of_nat (length (group_values (item_values item))) <= RDTMON_MAX_CORES ->
  (length (group_values (item_values item)) <= length (cgroups ctx))%nat ->
  exists w' ctx',
    oconfig_to_cgroups item RDTMON_MAX_CORES w
    = Some (Z.of_nat (length (group_values (item_values item))), w') /\
    g_rdtmon w' = Some ctx' /\
    heap w' = [] /\ pqos w' = pqos w /\ trace w' = trace w /\
    pgroups ctx' = pgroups ctx /\ num_groups ctx' = num_groups ctx /\
    cap_mon ctx' = cap_mon ctx /\
    length (cgroups ctx') = length (cgroups ctx) /\
    (forall k, (length (group_values (item_values item)) <= k)%nat ->
               cgroups ctx' !! k = cgroups ctx !! k) /\
    (forall k s cg,
        group_values (item_values item) !! k = Some s ->
        cgroups ctx !! k = Some cg ->
        cgroups ctx' !! k = Some (group_for s cg)).
Proof.
  intros Hctx Hheap Hstr Hparse Hmax Hlen.
  destruct (oconfig_to_cgroups_loop_run RDTMON_MAX_CORES (item_values item)
              0 w ctx Hctx Hheap Hstr Hparse)
    as (w' & ctx' & H1 & H2 & H3 & H4 & H5 & H6 & _ & H8 & H9 & H10 & H11
        & H12);
    [reflexivity | exact Hmax | exact Hlen |].
  exists w', ctx'. unfold oconfig_to_cgroups.
  change (RDTMON_MAX_CORES <=? 0) with false. cbv iota.
  specialize (H12 []). rewrite app_nil_r in H12.
  change (Z.of_nat 0) with 0 in H12. cbn [Nat.add] in H10, H11, H12.
  split.
  { rewrite H12.
    now destruct (Z.of_nat (length (group_values (item_values item)))
                  <? RDTMON_MAX_CORES). }
  repeat split; try assumption.
  intros k Hk. apply H10. now right.
Qed.

(** X9.  With a context in place, allocations that succeed and no more
    values that name a group than the table has slots, a [Cores] option
    whose values all parse is turned into the table slot by slot:
    [oconfig_to_cgroups] returns the number of values that are not empty,
    and the [k]-th of them has filled slot [k] with the whole value as the
    description and the cores parsed from the copy [sstrncpy] made,
    narrowed to [unsigned]; empty values take no slot, and nothing else
    changes. *)
Theorem oconfig_to_cgroups_builds (item : oconfig_item_t) (w : world P)
  (ctx : rdtmon_ctx_t cap_t) :
  g_rdtmon w = Some ctx ->
  heap w = [] ->
  forallb is_string (item_values item) = true ->
  Forall (fun s => parsed_cores s <> []) (group_values (item_values item)) ->
  Z.of_nat (length (group_values (item_values item))) <= RDTMON_MAX_CORES ->
  (length (group_values (item_values item)) <= length (cgroups ctx))%nat ->
  exists w' ctx',
    oconfig_to_cgroups item RDTMON_MAX_CORES w
    = Some (Z.of_nat (length (group_values (item_values item))), w') /\
    g_rdtmon w' = Some ctx' /\
    heap w' = [] /\ pqos w' = pqos w /\ trace w' = trace w /\
    pgroups ctx' = pgroups ctx /\ num_groups ctx' = num_groups ctx /\
    (forall k, (length (group_values (item_values item)) <= k)%nat ->
               cgroups ctx' !! k = cgroups ctx !! k) /\
    (forall k s cg,
        group_values (item_values item) !! k = Some s ->
        cgroups ctx !! k = Some cg ->
        cgroups ctx' !! k = Some (group_for s cg)).
Proof.
  intros Hctx Hheap Hstr Hparse Hmax Hlen.
  destruct (oconfig_to_cgroups_run item w ctx Hctx Hheap Hstr Hparse Hmax Hlen)
    as (w' & ctx' & H1 & H2 & H3 & H4 & H5 & H6 & H7 & _ & _ & H10 & H11).
  exists w', ctx'. repeat split; assumption.
Qed.

(** What the validation loop leaves when no group shares a core with an
    earlier one and every allocation succeeds. *)
Lemma rdtmon_config_cgroups_loop_run (a_events : Z) :
  forall (todo i : nat) (w : world P) (ctx : rdtmon_ctx_t cap_t),
    g_rdtmon w = Some ctx ->
    heap w = [] ->
    (i + todo <= length (cgroups ctx))%nat ->
    (i + todo <= length (pgroups ctx))%nat ->
    (forall k, (i <= k < i + todo)%nat ->
               overlaps_earlier (cgroups ctx) k = false) ->
    exists w' ctx',
      rdtmon_config_cgroups_loop todo i a_events w = Some (0, w') /\
      g_rdtmon w' = Some ctx' /\
      heap w' = [] /\ pqos w' = pqos w /\ trace w' = trace w /\
      num_groups ctx' = num_groups ctx /\
      cap_mon ctx' = cap_mon ctx /\
      length (cgroups ctx') = length (cgroups ctx) /\
      length (pgroups ctx') = length (pgroups ctx) /\
      (forall k cg, (i <= k < i + todo)%nat ->
                    cgroups ctx !! k = Some cg ->
                    cgroups ctx' !! k = Some (set_events cg a_events)) /\
      (forall k, (i <= k < i + todo)%nat ->
                 pgroups ctx' !! k = Some (Some fresh_mon_data)) /\
      (forall k, (k < i \/ i + todo <= k)%nat ->
                 cgroups ctx' !! k = cgroups ctx !! k /\
                 pgroups ctx' !! k = pgroups ctx !! k).
Proof.
  induction todo as [| todo IH]; intros i w ctx Hctx Hheap Hlc Hlp Hfree.
  - exists w, ctx. simpl. repeat split; try assumption; intros; lia.
  - cbn [rdtmon_config_cgroups_loop].
    rewrite (bind_run _ _ _ _ _ (deref_ctx_run w ctx Hctx)).
    rewrite (Hfree i) by lia.
    assert (Hlt : (i < length (cgroups ctx))%nat) by lia.
    apply lookup_lt_is_Some_2 in Hlt as [cg Hcg].
    rewrite (bind_run _ _ _ _ _ (read_cgroup_run i cg w ctx Hctx Hcg)).
    rewrite (bind_run _ _ _ _ _
               (write_cgroup_run i (set_events cg a_events) w ctx Hctx
                  ltac:(lia))).
    match goal with
    | |- context [bind malloc _ ?v] =>
        rewrite (bind_run _ _ _ _ _ (malloc_ok v Hheap))
    end.
    match goal with
    | |- context [bind (write_pgroup _ ?pg) _ ?v] =>
        rewrite (bind_run _ _ _ _ _
                   (write_pgroup_run i pg v _ eq_refl
                      ltac:(cbn [pgroups]; lia)))
    end.
    cbn [g_rdtmon heap pqos trace cgroups pgroups num_groups pqos_cpu
         pqos_cap cap_mon].
    match goal with
    | |- context [rdtmon_config_cgroups_loop todo (S i) a_events ?v] =>
        destruct (IH (S i) v _ eq_refl Hheap)
          as (w' & ctx' & Hrun & Hctx' & H2 & H3 & H4 & H5 & H6 & H7 & H8
              & Hcg' & Hpg' & Hkeep)
    end.
    + cbn [cgroups]. rewrite length_insert. lia.
    + cbn [pgroups]. rewrite length_insert. lia.
    + intros k Hk. cbn [cgroups].
      rewrite overlaps_earlier_set_events by exact Hcg. apply Hfree. lia.
    + cbn [heap pqos trace cgroups pgroups num_groups cap_mon] in *.
      rewrite length_insert in H7. rewrite length_insert in H8.
      exists w', ctx'. repeat split; try assumption.
      * intros k cg' Hk Hlk. destruct (decide (k = i)) as [-> | Hne].
        -- destruct (Hkeep i ltac:(lia)) as [-> _].
           rewrite Hcg in Hlk. injection Hlk as <-.
           apply list_lookup_insert_eq. eapply lookup_lt_Some; eauto.
        -- apply Hcg'; [lia |].
           rewrite list_lookup_insert_ne by lia. exact Hlk.
      * intros k Hk. destruct (decide (k = i)) as [-> | Hne].
        -- destruct (Hkeep i ltac:(lia)) as [_ ->].
           apply list_lookup_insert_eq. lia.
        -- apply Hpg'. lia.
      * destruct (Hkeep k ltac:(lia)) as [-> _].
        apply list_lookup_insert_ne. lia.
      * destruct (Hkeep k ltac:(lia)) as [_ ->].
        apply list_lookup_insert_ne. lia.
Qed.

End Oconfig.

Section Accepts.

Context {P : Type} `{PqosLib P} `{Daemon}.

Lemma overlaps_earlier_none (tab : list rdtmon_core_group_t) (i : nat) :
  (forall j, (j < i)%nat ->
             cgroup_cmp (nth j tab zero_cgroup) (nth i tab zero_cgroup) = 0) ->
  overlaps_earlier tab i = false.
Proof.
  intros Hfree. unfold overlaps_earlier.
  destruct (existsb _ (seq 0 i)) eqn:E; [| reflexivity].
  apply existsb_exists in E as (j & Hj & Hcmp).
  apply in_seq in Hj. rewrite Hfree in Hcmp by lia. discriminate Hcmp.
Qed.

Lemma cgroup_cmp_group_for (a b : string) (cg_a cg_b : rdtmon_core_group_t) :
  cgroup_cmp (group_for a cg_a) (group_for b cg_b)
  = cgroup_cmp (group_for a zero_cgroup) (group_for b zero_cgroup).
Proof. now apply cgroup_cmp_ext. Qed.

(** X10.  A [Cores] option that names groups no two of which share a
    core is accepted: with a context in place and allocations that
    succeed, [rdtmon_config_cgroups] returns 0 without a call into the
    library, [num_groups] is the number of values that are not empty,
    and the group of the [k]-th of them is described by the value, holds
    the cores parsed from it, has the event mask of the platform and a
    monitoring structure of its own. *)
Theorem rdtmon_config_cgroups_accepts (item : oconfig_item_t) (w : world P)
  (ctx : rdtmon_ctx_t cap_t) (mon : pqos_cap_mon) :
  g_rdtmon w = Some ctx ->
  heap w = [] ->
  cap_mon ctx = Some mon ->
  forallb is_string (item_values item) = true ->
  group_values (item_values item) <> [] ->
  Forall (fun s => parsed_cores s <> []) (group_values (item_values item)) ->
  Z.of_nat (length (group_values (item_values item))) <= RDTMON_MAX_CORES ->
  (length (group_values (item_values item)) <= length (cgroups ctx))%nat ->
  (length (group_values (item_values item)) <= length (pgroups ctx))%nat ->
  (forall i j a b,
      (j < i)%nat ->
      group_values (item_values item) !! j = Some a ->
      group_values (item_values item) !! i = Some b ->
      cgroup_cmp (group_for a zero_cgroup) (group_for b zero_cgroup) = 0) ->
  exists w' ctx',
    rdtmon_config_cgroups (Some item) w = Some (0, w') /\
    g_rdtmon w' = Some ctx' /\
    pqos w' = pqos w /\ trace w' = trace w /\
    num_groups ctx' = Z.of_nat (length (group_values (item_values item))) /\
    (forall k s,
        group_values (item_values item) !! k = Some s ->
        (exists cg,
            cgroups ctx' !! k = Some cg /\
            desc cg = Some s /\
            num_cores cg = Z.of_nat (length (parsed_cores s)) /\
            cores cg
            = Some (map (fun c => c mod UINT_MODULUS) (parsed_cores s)) /\
            events cg = available_events mon) /\
        pgroups ctx' !! k = Some (Some fresh_mon_data)).
Proof.
  intros Hctx Hheap Hmon Hstr Hne Hparse Hmax Hlc Hlp Hfree.
  set (gv := group_values (item_values item)) in *.
  destruct (oconfig_to_cgroups_run item w ctx Hctx Hheap Hstr Hparse Hmax Hlc)
    as (w1 & ctx1 & Hrun1 & Hctx1 & Hheap1 & Hq1 & Ht1 & Hpg1 & Hn1 & Hm1
        & Hlen1 & _ & Hnew1).
  fold gv in Hrun1, Hnew1.
  unfold rdtmon_config_cgroups. rewrite Hstr.
  rewrite (bind_run _ _ _ _ _ Hrun1).
  assert (E1 : (Z.of_nat (length gv) <? 0) = false) by (apply Z.ltb_ge; lia).
  assert (E2 : (Z.of_nat (length gv) =? 0) = false).
  { apply Z.eqb_neq. destruct gv; [contradiction | simpl; lia]. }
  rewrite E1, E2.
  unfold rdtmon_config_cgroups_validate.
  rewrite (bind_run _ _ _ _ _ (deref_ctx_run w1 ctx1 Hctx1)).
  rewrite Hm1, Hmon. cbn [deref]. rewrite bind_pure.
  assert (Hset : set_num_groups (Z.of_nat (length gv)) w1
                 = Some (tt,
                         Build_world
                           (Some {| cgroups := cgroups ctx1;
                                    pgroups := pgroups ctx1;
                                    num_groups := Z.of_nat (length gv);
                                    pqos_cpu := pqos_cpu ctx1;
                                    pqos_cap := pqos_cap ctx1;
                                    cap_mon := cap_mon ctx1 |})
                           (heap w1) (pqos w1) (trace w1))).
  { unfold set_num_groups.
    rewrite (bind_run _ _ _ _ _ (deref_ctx_run w1 ctx1 Hctx1)).
    unfold store_ctx. now rewrite Hctx1. }
  rewrite (bind_run _ _ _ _ _ Hset), Nat2Z.id.
  assert (Hslot : forall k s, gv !! k = Some s ->
                    exists cg, cgroups ctx1 !! k = Some (group_for s cg)).
  { intros k s Hk.
    assert (Hlt : (k < length (cgroups ctx))%nat).
    { apply lookup_lt_Some in Hk. lia. }
    apply lookup_lt_is_Some_2 in Hlt as [cg Hcg].
    exists cg. now apply Hnew1. }
  match goal with
  | |- context [rdtmon_config_cgroups_loop _ 0 _ ?v] =>
      destruct (rdtmon_config_cgroups_loop_run (available_events mon)
                  (length gv) 0 v _ eq_refl Hheap1)
        as (w' & ctx' & Hrun & Hctx' & _ & Hq' & Ht' & Hn' & _ & _ & _
            & Hcg' & Hpg' & _)
  end.
  - cbn [cgroups Nat.add]. lia.
  - cbn [pgroups Nat.add]. rewrite Hpg1. lia.
  - intros i Hi. cbn [cgroups]. apply overlaps_earlier_none. intros j Hj.
    assert (Hi' : (i < length gv)%nat) by lia.
    assert (Hj' : (j < length gv)%nat) by lia.
    apply lookup_lt_is_Some_2 in Hi' as [b Hb].
    apply lookup_lt_is_Some_2 in Hj' as [a Ha].
    destruct (Hslot i b Hb) as [cg_b Hcb].
    destruct (Hslot j a Ha) as [cg_a Hca].
    rewrite !nth_lookup, Hcb, Hca. simpl.
    rewrite cgroup_cmp_group_for. now apply (Hfree i j).
  - cbn [pqos trace num_groups cgroups pgroups Nat.add] in *.
    exists w', ctx'. split; [exact Hrun |]. split; [exact Hctx' |].
    split; [congruence |]. split; [congruence |]. split; [exact Hn' |].
    intros k s Hk. pose proof (lookup_lt_Some _ _ _ Hk) as Hlt.
    destruct (Hslot k s Hk) as [cg Hcg]. split.
    + eexists. split; [apply (Hcg' k _ ltac:(lia) Hcg) |].
      simpl. repeat split.
    + apply Hpg'. lia.
Qed.


(** X21.  A [Cores] option two of whose groups share a core is rejected
    as a whole: [rdtmon_config_cgroups] returns an error and every slot
    of the two tables is released, the groups that shared nothing
    included; [num_groups], assigned before the comparison, is left at
    the number of values that are not empty. *)
Theorem rdtmon_config_cgroups_rejects_overlap (item : oconfig_item_t)
  (w : world P) (ctx : rdtmon_ctx_t cap_t) (mon : pqos_cap_mon) :
  g_rdtmon w = Some ctx ->
  heap w = [] ->
  cap_mon ctx = Some mon ->
  forallb is_string (item_values item) = true ->
  Forall (fun s => parsed_cores s <> []) (group_values (item_values item)) ->
  Z.of_nat (length (group_values (item_values item))) <= RDTMON_MAX_CORES ->
  (length (group_values (item_values item)) <= length (cgroups ctx))%nat ->
  (length (group_values (item_values item)) <= length (pgroups ctx))%nat ->
  (exists i j a b,
      (j < i)%nat /\
      group_values (item_values item) !! j = Some a /\
      group_values (item_values item) !! i = Some b /\
      cgroup_cmp (group_for a zero_cgroup) (group_for b zero_cgroup) <> 0) ->
  exists r w' ctx',
    rdtmon_config_cgroups (Some item) w = Some (r, w') /\
    r < 0 /\
    g_rdtmon w' = Some ctx' /\
    forallb released (cgroups ctx') = true /\
    forallb absent (pgroups ctx') = true /\
    num_groups ctx' = Z.of_nat (length (group_values (item_values item))).
Proof.
  intros Hctx Hheap Hmon Hstr Hparse Hmax Hlc Hlp
    (i & j & a & b & Hij & Ha & Hb & Hcmp).
  set (gv := group_values (item_values item)) in *.
  destruct (oconfig_to_cgroups_run item w ctx Hctx Hheap Hstr Hparse Hmax Hlc)
    as (w1 & ctx1 & Hrun1 & Hctx1 & Hheap1 & Hq1 & Ht1 & Hpg1 & Hn1 & Hm1
        & Hlen1 & _ & Hnew1).
  fold gv in Hrun1, Hnew1.
  unfold rdtmon_config_cgroups. rewrite Hstr.
  rewrite (bind_run _ _ _ _ _ Hrun1).
  pose proof (lookup_lt_Some _ _ _ Hb) as Hi.
  assert (E1 : (Z.of_nat (length gv) <? 0) = false) by (apply Z.ltb_ge; lia).
  assert (E2 : (Z.of_nat (length gv) =? 0) = false) by (apply Z.eqb_neq; lia).
  rewrite E1, E2.
  assert (Hslot : forall k s, gv !! k = Some s ->
                    exists cg, cgroups ctx1 !! k = Some (group_for s cg)).
  { intros k s Hk.
    assert (Hlt : (k < length (cgroups ctx))%nat).
    { apply lookup_lt_Some in Hk. lia. }
    apply lookup_lt_is_Some_2 in Hlt as [cg Hcg].
    exists cg. now apply Hnew1. }
  apply (rdtmon_config_cgroups_validate_overlap (length gv) w1 ctx1 mon);
    try congruence; try lia.
  exists i. split; [exact Hi |].
  unfold overlaps_earlier. apply existsb_exists. exists j. split.
  - apply in_seq. lia.
  - destruct (Hslot i b Hb) as [cg_b Hcb].
    destruct (Hslot j a Ha) as [cg_a Hca].
    rewrite !nth_lookup, Hcb, Hca. simpl.
    rewrite cgroup_cmp_group_for.
    apply negb_true_iff. now apply Z.eqb_neq.
Qed.

End Accepts.

Section Rejects.

Context {P : Type} `{PqosLib P} `{Daemon}.

(** Values that name no group are passed over. *)
Lemma oconfig_to_cgroups_loop_empty (max index : Z) (w : world P) :
  forall vals,
    forallb is_string vals = true ->
    group_values vals = [] ->
    oconfig_to_cgroups_loop vals max index w = Some (index, w).
Proof.
  induction vals as [| v vals IH]; intros Hstr Hgv; [reflexivity |].
  destruct v as [[s |] | |]; try discriminate Hstr.
  - unfold group_values in Hgv. simpl in Hgv. simpl.
    destruct (String.length s =? 0)%nat; [| discriminate Hgv].
    now apply IH.
  - now apply IH.
Qed.

(** X11.  Values that are empty strings or [NULL] count for nothing: an
    option all of whose values are such is configured like an option
    without values, that is, with the default groups. *)
Theorem rdtmon_config_cgroups_empty_values (item : oconfig_item_t)
  (w : world P) :
  forallb is_string (item_values item) = true ->
  group_values (item_values item) = [] ->
  rdtmon_config_cgroups (Some item) w
  = rdtmon_config_cgroups
      (Some (OconfigItem (item_key item) [] (item_children item))) w.
Proof.
  intros Hstr Hgv. unfold rdtmon_config_cgroups. rewrite Hstr.
  cbn [item_values forallb]. unfold oconfig_to_cgroups.
  change (RDTMON_MAX_CORES <=? 0) with false. cbv iota.
  unfold bind at 1 4.
  now rewrite (oconfig_to_cgroups_loop_empty _ _ _ _ Hstr Hgv).
Qed.

(** X12.  A value that is not empty and parses to nothing makes the
    configuration fail, wherever it stands among the first
    [RDTMON_MAX_CORES] groups: [rdtmon_config_cgroups] returns [-EINVAL],
    the groups set from the values before it are released again, the
    default groups are not tried, and [num_groups] is not written. *)
Theorem rdtmon_config_cgroups_unparsable (item : oconfig_item_t)
  (pre post : list oconfig_value_t) (s : string) (w : world P)
  (ctx : rdtmon_ctx_t cap_t) :
  g_rdtmon w = Some ctx ->
  heap w = [] ->
  item_values item = pre ++ OCONFIG_TYPE_STRING (Some s) :: post ->
  forallb is_string (item_values item) = true ->
  Forall (fun s => parsed_cores s <> []) (group_values pre) ->
  Z.of_nat (length (group_values pre)) < RDTMON_MAX_CORES ->
  (length (group_values pre) <= length (cgroups ctx))%nat ->
  String.length s <> 0%nat ->
  parsed_cores s = [] ->
  exists w' ctx',
    rdtmon_config_cgroups (Some item) w = Some (- EINVAL, w') /\
    g_rdtmon w' = Some ctx' /\
    forallb released (cgroups ctx') = true /\
    forallb absent (pgroups ctx') = true /\
    num_groups ctx' = num_groups ctx /\
    pqos w' = pqos w /\ trace w' = trace w.
Proof.
  intros Hctx Hheap Hvals Hstr Hparse Hmax Hlen Hs Hbad.
  unfold rdtmon_config_cgroups. rewrite Hstr. unfold oconfig_to_cgroups.
  change (RDTMON_MAX_CORES <=? 0) with false. cbv iota.
  rewrite Hvals in *. rewrite forallb_app in Hstr.
  apply andb_prop in Hstr as [Hpre _].
  destruct (oconfig_to_cgroups_loop_run RDTMON_MAX_CORES pre 0 w ctx
              Hctx Hheap Hpre Hparse)
    as (w1 & ctx1 & Hctx1 & _ & Hq1 & Ht1 & _ & Hn1 & _ & _ & _ & _ & _
        & Hrun);
    [reflexivity | cbn [Nat.add]; lia | exact Hlen |].
  specialize (Hrun (OCONFIG_TYPE_STRING (Some s) :: post)).
  cbn [Nat.add] in Hrun. change (Z.of_nat 0) with 0 in Hrun.
  assert (E : (Z.of_nat (length (group_values pre)) <? RDTMON_MAX_CORES)
              = true) by (apply Z.ltb_lt; lia).
  rewrite E in Hrun. cbn [oconfig_to_cgroups_loop] in Hrun.
  apply Nat.eqb_neq in Hs. rewrite Hs in Hrun.
  change (strlisttonums (sstrncpy s DATA_MAX_NAME_LEN)
            (Z.to_nat RDTMON_MAX_CORES)) with (parsed_cores s) in Hrun.
  rewrite Hbad in Hrun. cbn [length] in Hrun.
  change (Z.of_nat 0 =? 0) with true in Hrun. cbv iota in Hrun.
  rewrite (bind_run _ _ _ _ _ Hrun).
  change (- EINVAL <? 0) with true. cbv iota.
  destruct (free_then_return (- EINVAL) w1 ctx1 Hctx1)
    as (w' & ctx' & Hfree & Hctx' & Hrel & Habs & Hn').
  exists w', ctx'. split; [exact Hfree |].
  repeat split; try assumption; try congruence.
  - apply bind_Some in Hfree as ([] & w2 & Hf & Hp).
    apply pure_Some in Hp as [_ ->].
    apply rdtmon_free_cgroups_Some in Hf
      as (c & c' & _ & _ & _ & _ & _ & _ & Hq).
    congruence.
  - apply bind_Some in Hfree as ([] & w2 & Hf & Hp).
    apply pure_Some in Hp as [_ ->].
    apply rdtmon_free_cgroups_Some in Hf
      as (c & c' & _ & _ & _ & _ & _ & Ht & _).
    congruence.
Qed.

Lemma group_values_app (vals post : list oconfig_value_t) :
  group_values (vals ++ post) = group_values vals ++ group_values post.
Proof. unfold group_values. apply omap_app. Qed.

(** X13.  Once [RDTMON_MAX_CORES] groups are set, [oconfig_to_cgroups]
    returns without a look at the values that follow: whatever strings
    they are, malformed ones included, the configuration goes on as if
    they were not there. *)
Theorem rdtmon_config_cgroups_too_many (key : string)
  (vals post : list oconfig_value_t) (children : list oconfig_item_t)
  (w : world P) (ctx : rdtmon_ctx_t cap_t) :
  g_rdtmon w = Some ctx ->
  heap w = [] ->
  forallb is_string vals = true ->
  forallb is_string post = true ->
  Forall (fun s => parsed_cores s <> []) (group_values vals) ->
  Z.of_nat (length (group_values vals)) = RDTMON_MAX_CORES ->
  (length (group_values vals) <= length (cgroups ctx))%nat ->
  rdtmon_config_cgroups (Some (OconfigItem key (vals ++ post) children)) w
  = rdtmon_config_cgroups (Some (OconfigItem key vals children)) w.
Proof.
  intros Hctx Hheap Hvals Hpost Hparse Hfull Hlen.
  unfold rdtmon_config_cgroups. cbn [item_values].
  rewrite forallb_app, Hvals, Hpost. cbn [andb].
  unfold oconfig_to_cgroups.
  change (RDTMON_MAX_CORES <=? 0) with false. cbv iota.
  destruct (oconfig_to_cgroups_loop_run RDTMON_MAX_CORES vals 0 w ctx
              Hctx Hheap Hvals Hparse)
    as (w1 & ctx1 & _ & _ & _ & _ & _ & _ & _ & _ & _ & _ & _ & Hrun);
    [reflexivity | cbn [Nat.add]; lia | exact Hlen |].
  pose proof (Hrun post) as Hlong. pose proof (Hrun []) as Hshort.
  rewrite app_nil_r in Hshort.
  cbn [Nat.add] in Hlong, Hshort.
  assert (E : (Z.of_nat (length (group_values vals)) <? RDTMON_MAX_CORES)
              = false) by (apply Z.ltb_ge; lia).
  rewrite E in Hlong, Hshort. change (Z.of_nat 0) with 0 in Hlong, Hshort.
  now rewrite (bind_run _ _ _ _ _ Hlong), (bind_run _ _ _ _ _ Hshort).
Qed.

End Rejects.

Section WellFormed.

Context `{Daemon}.

(** X14.  The group a value stands for is well formed in the sense of the
    comparison, its core array being the parsed list itself, as long as
    every parsed core is below [2^32]: the parser yields no core twice,
    and the narrowing to [unsigned] then changes nothing. *)
Theorem group_for_well_formed (s : string) (cg : rdtmon_core_group_t) :
  parsed_cores s <> [] ->
  Forall (fun c => c < UINT_MODULUS) (parsed_cores s) ->
  well_formed (group_for s cg) (parsed_cores s).
Proof.
  intros Hne Hsmall. unfold parsed_cores in *.
  assert (Hsound : NoDup (strlisttonums (sstrncpy s DATA_MAX_NAME_LEN)
                            (Z.to_nat RDTMON_MAX_CORES))
                   /\ fits_uint64 (strlisttonums (sstrncpy s DATA_MAX_NAME_LEN)
                                     (Z.to_nat RDTMON_MAX_CORES))).
  { unfold strlisttonums.
    destruct (Z.to_nat RDTMON_MAX_CORES =? 0)%nat.
    - split; [apply NoDup_nil_2 | apply Forall_nil_2].
    - apply parse_tokens_sound; [apply NoDup_nil_2 | apply Forall_nil_2]. }
  destruct Hsound as (Hnd & Hfit).
  unfold well_formed, group_for, parsed_cores. cbn [cores num_cores].
  repeat split; try assumption.
  f_equal. rewrite <- (map_id (strlisttonums _ _)) at 2.
  apply map_ext_in. intros c Hc.
  unfold fits_uint64 in Hfit. rewrite Forall_forall in Hfit, Hsmall.
  apply list_elem_of_In in Hc.
  specialize (Hfit c Hc). specialize (Hsmall c Hc). cbv beta in Hsmall.
  apply Z.mod_small. lia.
Qed.

End WellFormed.

Section OconfigRuns.

#[local] Existing Instance Mock.lib.
#[local] Existing Instance Mock.daemon.

Lemma parsed_all (l : list string) :
  forallb (fun s => negb (length (parsed_cores s) =? 0)%nat) l = true ->
  Forall (fun s => parsed_cores s <> []) l.
Proof.
  intros Hall. apply Forall_forall. intros s Hs.
  rewrite forallb_forall in Hall. apply list_elem_of_In in Hs.
  specialize (Hall s Hs). intros Hnil. rewrite Hnil in Hall. discriminate Hall.
Qed.

Lemma group_for_well_formed_witness :
  parsed_cores "0-3,8" = [0; 1; 2; 3; 8] /\
  well_formed (group_for "0-3,8" zero_cgroup) (parsed_cores "0-3,8").
Proof.
  split; [vm_compute; reflexivity |].
  apply (group_for_well_formed "0-3,8" zero_cgroup).
  - vm_compute. discriminate.
  - apply Forall_forall. intros c Hc. apply list_elem_of_In in Hc.
    vm_compute in Hc. unfold UINT_MODULUS.
    repeat (destruct Hc as [<- | Hc]; [reflexivity |]). contradiction.
Defined.

Lemma oconfig_to_cgroups_builds_witness :
  exists ctx,
    g_rdtmon (Mock.ready Mock.eight_cores []) = Some ctx /\
    exists w' ctx',
      oconfig_to_cgroups (Mock.cores_option ["0-3"; ""; "5"]%string)
        RDTMON_MAX_CORES (Mock.ready Mock.eight_cores [])
      = Some (Z.of_nat
                (length (group_values
                           (item_values
                              (Mock.cores_option ["0-3"; ""; "5"]%string)))),
              w') /\
      g_rdtmon w' = Some ctx' /\
      heap w' = [] /\
      pqos w' = pqos (Mock.ready Mock.eight_cores []) /\
      trace w' = trace (Mock.ready Mock.eight_cores []) /\
      pgroups ctx' = pgroups ctx /\ num_groups ctx' = num_groups ctx /\
      (forall k,
          (length (group_values
                     (item_values (Mock.cores_option ["0-3"; ""; "5"]%string)))
           <= k)%nat ->
          cgroups ctx' !! k = cgroups ctx !! k) /\
      (forall k s cg,
          group_values
            (item_values (Mock.cores_option ["0-3"; ""; "5"]%string)) !! k
          = Some s ->
          cgroups ctx !! k = Some cg ->
          cgroups ctx' !! k = Some (group_for s cg)).
Proof.
  eexists. split; [vm_compute; reflexivity |].
  apply (oconfig_to_cgroups_builds
           (Mock.cores_option ["0-3"; ""; "5"]%string)
           (Mock.ready Mock.eight_cores [])).
  - vm_compute. reflexivity.
  - reflexivity.
  - reflexivity.
  - apply parsed_all. vm_compute. reflexivity.
  - vm_compute. discriminate.
  - apply Nat.leb_le. vm_compute. reflexivity.
Defined.

Lemma rdtmon_config_cgroups_accepts_witness :
  exists w' ctx',
    rdtmon_config_cgroups (Some (Mock.cores_option ["0-3"; "4-7"]%string))
      (Mock.ready Mock.eight_cores []) = Some (0, w') /\
    g_rdtmon w' = Some ctx' /\
    pqos w' = pqos (Mock.ready Mock.eight_cores []) /\
    trace w' = trace (Mock.ready Mock.eight_cores []) /\
    num_groups ctx'
    = Z.of_nat
        (length (group_values
                   (item_values (Mock.cores_option ["0-3"; "4-7"]%string)))) /\
    (forall k s,
        group_values (item_values (Mock.cores_option ["0-3"; "4-7"]%string))
          !! k = Some s ->
        (exists cg,
            cgroups ctx' !! k = Some cg /\
            desc cg = Some s /\
            num_cores cg = Z.of_nat (length (parsed_cores s)) /\
            cores cg
            = Some (map (fun c => c mod UINT_MODULUS) (parsed_cores s)) /\
            events cg = available_events (Mock.monitoring Mock.eight_cores)) /\
        pgroups ctx' !! k = Some (Some fresh_mon_data)).
Proof.
  eapply (rdtmon_config_cgroups_accepts
            (Mock.cores_option ["0-3"; "4-7"]%string)
            (Mock.ready Mock.eight_cores [])).
  - vm_compute. reflexivity.
  - reflexivity.
  - reflexivity.
  - reflexivity.
  - vm_compute. discriminate.
  - apply parsed_all. vm_compute. reflexivity.
  - vm_compute. discriminate.
  - apply Nat.leb_le. vm_compute. reflexivity.
  - apply Nat.leb_le. vm_compute. reflexivity.
  - intros i j a b Hij Ha Hb.
    change (group_values
              (item_values (Mock.cores_option ["0-3"; "4-7"]%string)))
      with ["0-3"; "4-7"]%string in Ha, Hb.
    destruct i as [| [| i]]; [lia | | discriminate Hb].
    destruct j as [| j]; [| lia].
    injection Ha as <-. injection Hb as <-. vm_compute. reflexivity.
Defined.

Lemma rdtmon_config_cgroups_rejects_overlap_witness :
  exists r w' ctx',
    rdtmon_config_cgroups
      (Some (Mock.cores_option ["0-3"; "6"; "3-4"]%string))
      (Mock.ready Mock.eight_cores []) = Some (r, w') /\
    r < 0 /\
    g_rdtmon w' = Some ctx' /\
    forallb released (cgroups ctx') = true /\
    forallb absent (pgroups ctx') = true /\
    num_groups ctx'
    = Z.of_nat
        (length (group_values
                   (item_values
                      (Mock.cores_option ["0-3"; "6"; "3-4"]%string)))).
Proof.
  eapply (rdtmon_config_cgroups_rejects_overlap
            (Mock.cores_option ["0-3"; "6"; "3-4"]%string)
            (Mock.ready Mock.eight_cores [])).
  - vm_compute. reflexivity.
  - reflexivity.
  - reflexivity.
  - reflexivity.
  - apply parsed_all. vm_compute. reflexivity.
  - vm_compute. discriminate.
  - apply Nat.leb_le. vm_compute. reflexivity.
  - apply Nat.leb_le. vm_compute. reflexivity.
  - exists 2%nat, 0%nat, "0-3"%string, "3-4"%string.
    split; [lia |]. split; [reflexivity |]. split; [reflexivity |].
    vm_compute. discriminate.
Defined.

Lemma rdtmon_config_cgroups_unparsable_witness :
  exists ctx,
    g_rdtmon (Mock.ready Mock.eight_cores []) = Some ctx /\
    exists w' ctx',
      rdtmon_config_cgroups (Some (Mock.cores_option ["0-3"; "4-"; "5"]%string))
        (Mock.ready Mock.eight_cores []) = Some (- EINVAL, w') /\
      g_rdtmon w' = Some ctx' /\
      forallb released (cgroups ctx') = true /\
      forallb absent (pgroups ctx') = true /\
      num_groups ctx' = num_groups ctx /\
      pqos w' = pqos (Mock.ready Mock.eight_cores []) /\
      trace w' = trace (Mock.ready Mock.eight_cores []).
Proof.
  eexists. split; [vm_compute; reflexivity |].
  apply (rdtmon_config_cgroups_unparsable
           (Mock.cores_option ["0-3"; "4-"; "5"]%string)
           [OCONFIG_TYPE_STRING (Some "0-3"%string)]
           [OCONFIG_TYPE_STRING (Some "5"%string)] "4-"
           (Mock.ready Mock.eight_cores [])).
  - vm_compute. reflexivity.
  - reflexivity.
  - reflexivity.
  - reflexivity.
  - apply parsed_all. vm_compute. reflexivity.
  - vm_compute. reflexivity.
  - apply Nat.leb_le. vm_compute. reflexivity.
  - discriminate.
  - vm_compute. reflexivity.
Defined.

Lemma rdtmon_config_cgroups_empty_values_witness :
  rdtmon_config_cgroups
    (Some (OconfigItem "Cores"
             [OCONFIG_TYPE_STRING (Some ""%string); OCONFIG_TYPE_STRING None]
             []))
    (Mock.ready Mock.sparse_cores [])
  = rdtmon_config_cgroups (Some (OconfigItem "Cores" [] []))
      (Mock.ready Mock.sparse_cores []).
Proof.
  apply (rdtmon_config_cgroups_empty_values
           (OconfigItem "Cores"
              [OCONFIG_TYPE_STRING (Some ""%string); OCONFIG_TYPE_STRING None]
              [])
           (Mock.ready Mock.sparse_cores [])).
  - reflexivity.
  - reflexivity.
Defined.

Lemma rdtmon_config_cgroups_too_many_witness :
  exists ctx,
    g_rdtmon (Mock.ready Mock.eight_cores []) = Some ctx /\
    rdtmon_config_cgroups
      (Some (OconfigItem "Cores"
               (replicate 512 (OCONFIG_TYPE_STRING (Some "0"%string))
                ++ [OCONFIG_TYPE_STRING (Some "abc"%string)]) []))
      (Mock.ready Mock.eight_cores [])
    = rdtmon_config_cgroups
        (Some (OconfigItem "Cores"
                 (replicate 512 (OCONFIG_TYPE_STRING (Some "0"%string))) []))
        (Mock.ready Mock.eight_cores []).
Proof.
  eexists. split; [vm_compute; reflexivity |].
  eapply (rdtmon_config_cgroups_too_many "Cores"
            (replicate 512 (OCONFIG_TYPE_STRING (Some "0"%string)))
            [OCONFIG_TYPE_STRING (Some "abc"%string)] []
            (Mock.ready Mock.eight_cores [])).
  - vm_compute. reflexivity.
  - reflexivity.
  - vm_compute. reflexivity.
  - reflexivity.
  - apply parsed_all. vm_compute. reflexivity.
  - vm_compute. reflexivity.
  - apply Nat.leb_le. vm_compute. reflexivity.
Defined.

End OconfigRuns.

(** * Further properties of the life cycle *)

Section Preinit.

Context {P : Type} `{PqosLib P}.

(** X15.  Without a context, [rdtmon_preinit] always returns, and in one
    of three ways: 0, with a context whose tables are empty, whose group
    count is 0 and whose monitoring capability is known; -1, with no
    context left and the library either never initialised or closed
    again by [pqos_fini]; or [-ENOMEM], with no call made into the
    library at all.  A context is never left half initialised. *)
Theorem rdtmon_preinit_outcome (w : world P) :
  g_rdtmon w = None ->
  exists r w',
    rdtmon_preinit w = Some (r, w') /\
    ((r = 0 /\
      exists ctx mon,
        g_rdtmon w' = Some ctx /\ cap_mon ctx = Some mon /\
        num_groups ctx = 0 /\
        cgroups ctx = replicate (Z.to_nat RDTMON_MAX_CORES) zero_cgroup /\
        pgroups ctx = replicate (Z.to_nat RDTMON_MAX_CORES) None)
     \/ (r = -1 /\ g_rdtmon w' = None /\
         (trace w' = EvPqosInit :: EvPqosFini :: trace w
          \/ exists t, trace w' = EvPqosFini :: t))
     \/ (r = - ENOMEM /\ g_rdtmon w' = None /\
         pqos w' = pqos w /\ trace w' = trace w)).
Proof.
  intros Hnull. unfold rdtmon_preinit. rewrite Hnull.
  unfold bind at 1. unfold malloc.
  assert (Hbody : forall v : world P,
    exists r w',
      (let* 'tt := set_g_rdtmon (Some zero_ctx) in
       let* _ := call EvPqosFini pqos_fini in
       let* r := call EvPqosInit pqos_init in
       if r =? PQOS_RETVAL_OK then
         let* '(r, a_cap, a_cpu) := call EvPqosCapGet pqos_cap_get in
         let* 'tt := set_caps a_cap a_cpu in
         if r =? PQOS_RETVAL_OK then
           let* ctx := deref_ctx in
           let* '(r, a_mon) :=
             call EvPqosCapGetType
               (fun p => pqos_cap_get_type p (pqos_cap ctx)) in
           let* 'tt := set_cap_mon a_mon in
           if r =? PQOS_RETVAL_PARAM then rdtmon_preinit_error2
           else
             match a_mon with
             | None => rdtmon_preinit_error2
             | Some _ => pure 0
             end
         else rdtmon_preinit_error2
       else rdtmon_preinit_error1) v = Some (r, w') /\
      ((r = 0 /\
        exists ctx mon,
          g_rdtmon w' = Some ctx /\ cap_mon ctx = Some mon /\
          num_groups ctx = 0 /\
          cgroups ctx = replicate (Z.to_nat RDTMON_MAX_CORES) zero_cgroup /\
          pgroups ctx = replicate (Z.to_nat RDTMON_MAX_CORES) None)
       \/ (r = -1 /\ g_rdtmon w' = None /\
           (trace w' = EvPqosInit :: EvPqosFini :: trace v
            \/ exists t, trace w' = EvPqosFini :: t)))).
  { intros v.
    unfold bind, set_g_rdtmon, call, set_caps, set_cap_mon, deref_ctx,
      store_ctx, rdtmon_preinit_error2, rdtmon_preinit_error1, bind,
      set_g_rdtmon, call, pure.
    cbn [g_rdtmon heap pqos trace].
    destruct (pqos_fini (pqos v)) as [r0 p0].
    cbn [g_rdtmon heap pqos trace].
    destruct (pqos_init p0) as [r1 p1].
    cbn [g_rdtmon heap pqos trace].
    destruct (r1 =? PQOS_RETVAL_OK); cbn [g_rdtmon heap pqos trace].
    2:{ eexists. eexists. split; [reflexivity |]. right.
        cbn [g_rdtmon trace]. repeat split. now left. }
    destruct (pqos_cap_get p1) as [[[r2 a_cap] a_cpu] p2].
    cbn [g_rdtmon heap pqos trace].
    destruct (r2 =? PQOS_RETVAL_OK); cbn [g_rdtmon heap pqos trace].
    2:{ destruct (pqos_fini p2) as [r3 p3].
        eexists. eexists. split; [reflexivity |]. right.
        cbn [g_rdtmon trace]. repeat split. right. eexists. reflexivity. }
    cbn [pqos_cap].
    destruct (pqos_cap_get_type p2 a_cap) as [[r3 a_mon] p3].
    cbn [g_rdtmon heap pqos trace].
    destruct (r3 =? PQOS_RETVAL_PARAM); cbn [g_rdtmon heap pqos trace].
    { destruct (pqos_fini p3) as [r4 p4].
      eexists. eexists. split; [reflexivity |]. right.
      cbn [g_rdtmon trace]. repeat split. right. eexists. reflexivity. }
    destruct a_mon as [mon |]; cbn [g_rdtmon heap pqos trace].
    - eexists. eexists. split; [reflexivity |]. left.
      split; [reflexivity |]. eexists. exists mon.
      cbn [g_rdtmon]. split; [reflexivity |]. repeat split.
    - destruct (pqos_fini p3) as [r4 p4].
      eexists. eexists. split; [reflexivity |]. right.
      cbn [g_rdtmon trace]. repeat split. right. eexists. reflexivity. }
  unfold bind at 1. unfold malloc.
  destruct (heap w) as [| ok h] eqn:Hheap.
  - destruct (Hbody w) as (r & w' & Hrun & Hres).
    exists r, w'. split; [exact Hrun |].
    destruct Hres as [Hok | Hko]; [now left | right; now left].
  - destruct ok.
    + destruct (Hbody (Build_world (g_rdtmon w) h (pqos w) (trace w)))
        as (r & w' & Hrun & Hres).
      exists r, w'. split; [exact Hrun |].
      destruct Hres as [Hok | Hko]; [now left | right; now left].
    + eexists. eexists. split; [reflexivity |]. right. right.
      cbn [g_rdtmon pqos trace]. repeat split. exact Hnull.
Qed.

End Preinit.

Section Start.

Context {P : Type} `{PqosLib P}.

Lemma lib_after_starts_step (cgs : list rdtmon_core_group_t)
  (pgs : list (option pqos_mon_data)) (from count : nat) (p : P) :
  lib_after_starts cgs pgs from (S count) p
  = lib_after_starts cgs pgs (S from) count (start_at cgs pgs p from).2.
Proof. reflexivity. Qed.

Lemma start_status_first (cgs : list rdtmon_core_group_t)
  (pgs : list (option pqos_mon_data)) (from : nat) (p : P) :
  start_status cgs pgs from p from = (start_at cgs pgs p from).1.1.
Proof. unfold start_status. now rewrite Nat.sub_diag. Qed.

Lemma start_status_later (cgs : list rdtmon_core_group_t)
  (pgs : list (option pqos_mon_data)) (from : nat) (p : P) (j : nat) :
  (from < j)%nat ->
  start_status cgs pgs from p j
  = start_status cgs pgs (S from) (start_at cgs pgs p from).2 j.
Proof.
  intros Hj. unfold start_status.
  replace (j - from)%nat with (S (j - S from)) by lia.
  now rewrite lib_after_starts_step.
Qed.

Lemma started_slot_first (cgs : list rdtmon_core_group_t)
  (pgs : list (option pqos_mon_data)) (from : nat) (p : P) :
  started_slot cgs pgs from p from
  = match nth from pgs None, (start_at cgs pgs p from).1.2 with
    | Some _, Some data => Some data
    | slot, _ => slot
    end.
Proof. unfold started_slot. now rewrite Nat.sub_diag. Qed.

Lemma started_slot_later (cgs : list rdtmon_core_group_t)
  (pgs : list (option pqos_mon_data)) (from : nat) (p : P) (j : nat) :
  (from < j)%nat ->
  started_slot cgs pgs from p j
  = started_slot cgs pgs (S from) (start_at cgs pgs p from).2 j.
Proof.
  intros Hj. unfold started_slot.
  replace (j - from)%nat with (S (j - S from)) by lia.
  now rewrite lib_after_starts_step.
Qed.

(** The loop of [rdtmon_init] always returns when the live groups lie
    within the tables: having started [m] groups in index order, each of
    them with success but the last when it returns -1.  [cgs] and [pgs]
    are the tables the run started from. *)
Lemma rdtmon_init_loop_run (cgs : list rdtmon_core_group_t)
  (pgs : list (option pqos_mon_data)) :
  forall (todo i : nat) (w : world P) (ctx : rdtmon_ctx_t cap_t),
    g_rdtmon w = Some ctx ->
    cgroups ctx = cgs ->
    length (pgroups ctx) = length pgs ->
    (forall k, (i <= k)%nat -> pgroups ctx !! k = pgs !! k) ->
    (i + todo <= length cgs)%nat ->
    (i + todo <= length pgs)%nat ->
    exists r w' ctx' m,
      rdtmon_init_loop todo (Z.of_nat i) w = Some (r, w') /\
      g_rdtmon w' = Some ctx' /\
      cgroups ctx' = cgs /\
      num_groups ctx' = num_groups ctx /\
      length (pgroups ctx') = length pgs /\
      heap w' = heap w /\
      (m <= todo)%nat /\
      trace w' = rev (map start_event (take m (drop i cgs))) ++ trace w /\
      pqos w' = lib_after_starts cgs pgs i m (pqos w) /\
      (forall j, (i <= j < i + m)%nat -> (S j < i + m)%nat \/ r = 0 ->
                 start_status cgs pgs i (pqos w) j = PQOS_RETVAL_OK) /\
      ((r = 0 /\ m = todo)
       \/ (r = -1 /\ (0 < m)%nat /\
           start_status cgs pgs i (pqos w) (i + m - 1) <> PQOS_RETVAL_OK)) /\
      (forall k, (i <= k < i + m)%nat ->
                 pgroups ctx' !! k
                 = Some (started_slot cgs pgs i (pqos w) k)) /\
      (forall k, (k < i \/ i + m <= k)%nat ->
                 pgroups ctx' !! k = pgroups ctx !! k).
Proof.
  induction todo as [| todo IH]; intros i w ctx Hctx Hcgs Hlen Hpgs Hlc Hlp.
  - exists 0, w, ctx, 0%nat. simpl.
    split; [reflexivity |]. split; [exact Hctx |]. split; [exact Hcgs |].
    split; [reflexivity |]. split; [exact Hlen |]. split; [reflexivity |].
    split; [lia |]. split; [reflexivity |]. split; [reflexivity |].
    split; [intros j Hj; lia |]. split; [now left |].
    split; [intros k Hk; lia | reflexivity].
  - cbn [rdtmon_init_loop].
    assert (Hi : (i < length cgs)%nat) by lia.
    apply lookup_lt_is_Some_2 in Hi as [cg Hcg].
    assert (Hi : (i < length pgs)%nat) by lia.
    apply lookup_lt_is_Some_2 in Hi as [slot Hslot].
    assert (Hcg' : cgroups ctx !! i = Some cg) by now rewrite Hcgs.
    assert (Hslot' : pgroups ctx !! i = Some slot)
      by now rewrite (Hpgs i ltac:(lia)).
    rewrite (bind_run _ _ _ _ _ (read_cgroup_run i cg w ctx Hctx Hcg')).
    rewrite (bind_run _ _ _ _ _ (deref_ctx_run w ctx Hctx)).
    rewrite Nat2Z.id, Hslot'. cbn [deref]. rewrite bind_pure.
    unfold bind at 1. unfold call at 1.
    assert (Hstart : pqos_mon_start (pqos w) (num_cores cg) (cores cg)
                       (events cg) (desc cg) slot
                     = start_at cgs pgs (pqos w) i).
    { unfold start_at. cbv zeta.
      now rewrite (nth_lookup_Some _ _ _ _ Hcg),
        (nth_lookup_Some _ _ _ _ Hslot). }
    rewrite Hstart.
    assert (Hnth : nth i pgs None = slot) by now apply nth_lookup_Some.
    destruct (start_at cgs pgs (pqos w) i) as [[r started] p'] eqn:Eres.
    match goal with
    | |- context [bind (write_pgroup _ ?pg) _ ?v] =>
        rewrite (bind_run _ _ _ _ _
                   (write_pgroup_run i pg v ctx Hctx ltac:(lia)))
    end.
    cbn [g_rdtmon heap pqos trace].
    assert (Hdrop : drop i cgs = cg :: drop (S i) cgs) by now apply drop_S.
    assert (Hfirst : start_status cgs pgs i (pqos w) i = r).
    { now rewrite start_status_first, Eres. }
    assert (Hfilled : started_slot cgs pgs i (pqos w) i
                      = match slot, started with
                        | Some _, Some data => Some data
                        | _, _ => slot
                        end).
    { rewrite started_slot_first, Eres, Hnth. simpl.
      now destruct slot, started. }
    destruct (r =? PQOS_RETVAL_OK) eqn:Eok.
    + apply Z.eqb_eq in Eok.
      replace (Z.of_nat i + 1) with (Z.of_nat (S i)) by lia.
      match goal with
      | |- context [rdtmon_init_loop todo _ ?v] =>
          destruct (IH (S i) v _ eq_refl)
            as (r' & w' & ctx' & m & Hrun & Hctx' & Hcg2 & Hn' & Hlen' & Hh'
                & Hm & Ht' & Hq' & Hok' & Hres & Hnew & Hkeep)
      end.
      * exact Hcgs.
      * cbn [pgroups]. rewrite length_insert. exact Hlen.
      * intros k Hk. cbn [pgroups].
        rewrite list_lookup_insert_ne by lia. apply Hpgs. lia.
      * lia.
      * lia.
      * cbn [cgroups pgroups num_groups heap pqos trace] in *.
        exists r', w', ctx', (S m). split; [exact Hrun |].
        split; [exact Hctx' |]. split; [exact Hcg2 |]. split; [exact Hn' |].
        split; [exact Hlen' |]. split; [exact Hh' |]. split; [lia |].
        split.
        { rewrite Ht', Hdrop. cbn [take map rev].
          now rewrite <- app_assoc. }
        split.
        { rewrite lib_after_starts_step, Eres. exact Hq'. }
        split.
        { intros j Hj Hlast. destruct (decide (j = i)) as [-> | Hne].
          - now rewrite Hfirst.
          - rewrite start_status_later, Eres by lia.
            apply Hok'; [lia |]. destruct Hlast; [left; lia | now right]. }
        split.
        { destruct Hres as [[-> ->] | (-> & Hpos & Hbad)];
            [left; now split |].
          right. split; [reflexivity |]. split; [lia |].
          rewrite start_status_later, Eres by lia.
          replace (i + S m - 1)%nat with (S i + m - 1)%nat by lia.
          exact Hbad. }
        split.
        { intros k Hk. destruct (decide (k = i)) as [-> | Hne].
          - rewrite Hkeep by lia. rewrite list_lookup_insert_eq by lia.
            now rewrite Hfilled.
          - rewrite started_slot_later, Eres by lia. apply Hnew. lia. }
        intros k Hk. rewrite Hkeep by lia.
        apply list_lookup_insert_ne. lia.
    + apply Z.eqb_neq in Eok.
      eexists (-1), _, _, 1%nat. split; [reflexivity |].
      cbn [g_rdtmon]. split; [reflexivity |].
      cbn [cgroups pgroups num_groups heap pqos trace].
      rewrite length_insert, Hdrop.
      split; [exact Hcgs |]. split; [reflexivity |].
      split; [exact Hlen |]. split; [reflexivity |]. split; [lia |].
      split; [reflexivity |].
      split.
      { unfold lib_after_starts. cbn [seq fold_left]. now rewrite Eres. }
      split.
      { intros j Hj [Hlast | Hr]; [lia | discriminate Hr]. }
      split.
      { right. split; [reflexivity |]. split; [lia |].
        replace (i + 1 - 1)%nat with i by lia. now rewrite Hfirst. }
      split.
      { intros k Hk. assert (k = i) as -> by lia.
        rewrite list_lookup_insert_eq by lia. now rewrite Hfilled. }
      intros k Hk. apply list_lookup_insert_ne. lia.
Qed.

(** X16.  With a context in place and the live groups within the
    tables, [rdtmon_init] always returns.  It asks the library to start
    the groups in index order, each with the cores, the event mask and
    the description of its slot, and goes on as long as the library
    answers [PQOS_RETVAL_OK]: it returns 0 when every live group was
    started with that status, and -1 at the first start that returns
    another status, with no further start and no stop, so that the
    groups started before stay started and the context stays in place.
    The library is left in the state these [m] starts lead to, the
    monitoring structures of the groups started hold what the library
    put there, the other slots of [pgroups], the group table and the
    group count are as before. *)
Theorem rdtmon_init_starts (w : world P) (ctx : rdtmon_ctx_t cap_t) :
  g_rdtmon w = Some ctx ->
  (Z.to_nat (num_groups ctx) <= length (cgroups ctx))%nat ->
  (Z.to_nat (num_groups ctx) <= length (pgroups ctx))%nat ->
  exists r w' ctx' m,
    rdtmon_init w = Some (r, w') /\
    g_rdtmon w' = Some ctx' /\
    cgroups ctx' = cgroups ctx /\
    num_groups ctx' = num_groups ctx /\
    (m <= Z.to_nat (num_groups ctx))%nat /\
    trace w' = rev (map start_event (take m (cgroups ctx))) ++ trace w /\
    ((r = 0 /\ m = Z.to_nat (num_groups ctx)) \/ (r = -1 /\ (0 < m)%nat)) /\
    pqos w' = lib_after_starts (cgroups ctx) (pgroups ctx) 0 m (pqos w) /\
    (forall j, (j < m)%nat -> (S j < m)%nat \/ r = 0 ->
               start_status (cgroups ctx) (pgroups ctx) 0 (pqos w) j
               = PQOS_RETVAL_OK) /\
    (r = -1 ->
     start_status (cgroups ctx) (pgroups ctx) 0 (pqos w) (m - 1)
     <> PQOS_RETVAL_OK) /\
    (forall k, (k < m)%nat ->
               pgroups ctx' !! k
               = Some (started_slot (cgroups ctx) (pgroups ctx) 0 (pqos w) k))
    /\
    (forall k, (m <= k)%nat -> pgroups ctx' !! k = pgroups ctx !! k).
Proof.
  intros Hctx Hlc Hlp. unfold rdtmon_init.
  assert (Hpre : rdtmon_preinit w = Some (0, w)).
  { unfold rdtmon_preinit. now rewrite Hctx. }
  rewrite (bind_run _ _ _ _ _ Hpre). change (0 =? 0) with true. cbv iota.
  rewrite (bind_run _ _ _ _ _ (deref_ctx_run w ctx Hctx)).
  destruct (rdtmon_init_loop_run (cgroups ctx) (pgroups ctx)
              (Z.to_nat (num_groups ctx)) 0 w ctx Hctx eq_refl eq_refl
              ltac:(reflexivity) Hlc Hlp)
    as (r & w' & ctx' & m & Hrun & Hctx' & Hcg' & Hn' & _ & _ & Hm & Ht'
        & Hq' & Hok' & Hres & Hnew & Hkeep).
  cbn [Nat.add] in *. rewrite drop_0 in Ht'.
  exists r, w', ctx', m. split; [exact Hrun |].
  split; [exact Hctx' |]. split; [exact Hcg' |]. split; [exact Hn' |].
  split; [exact Hm |]. split; [exact Ht' |]. split.
  { destruct Hres as [Hok | (Hr & Hpos & _)]; [now left | right; now split]. }
  split; [exact Hq' |]. split.
  { intros j Hj Hlast. apply Hok'; [lia | exact Hlast]. }
  split.
  { intros Hr. destruct Hres as [[Hz _] | (_ & _ & Hbad)]; [lia | exact Hbad]. }
  split.
  { intros k Hk. apply Hnew. lia. }
  intros k Hk. apply Hkeep. now right.
Qed.

End Start.

Section Cycle.

Context {P : Type} `{PqosLib P} `{Daemon}.

Lemma submit_records (cg : rdtmon_core_group_t) (name : string)
  (pv : pqos_event_values) (w : world P) (k : unit -> M P unit) :
  desc cg = Some name ->
  (let* 'tt := when (has_event (events cg) PQOS_MON_EVENT_L3_OCCUP)
                 (rdtmon_submit_gauge (desc cg) "llc"
                    (gauge_of_uint64 (llc pv))) in
   let* 'tt := when (has_event (events cg) PQOS_PERF_EVENT_IPC)
                 (rdtmon_submit_gauge (desc cg) "ipc"
                    (gauge_of_double (ipc pv))) in
   let* 'tt := when (has_event (events cg)
                       (Z.lor (Z.lor PQOS_MON_EVENT_LMEM_BW
                                 PQOS_MON_EVENT_TMEM_BW)
                          PQOS_MON_EVENT_RMEM_BW))
                 (rdtmon_submit_mbm (desc cg) pv) in
   k tt) w
  = k tt (Build_world (g_rdtmon w) (heap w) (pqos w)
            (map EvDispatch (rev (group_records cg name pv)) ++ trace w)).
Proof.
  intros Hname. unfold group_records. rewrite Hname.
  destruct w as [g h p t].
  destruct (has_event (events cg) PQOS_MON_EVENT_L3_OCCUP);
    destruct (has_event (events cg) PQOS_PERF_EVENT_IPC);
    destruct (has_event (events cg)
                (Z.lor (Z.lor PQOS_MON_EVENT_LMEM_BW PQOS_MON_EVENT_TMEM_BW)
                   PQOS_MON_EVENT_RMEM_BW));
    reflexivity.
Qed.

(** The loop of [rdtmon_read] over groups that have a description and a
    monitoring structure. *)
Lemma rdtmon_read_loop_run :
  forall (todo i : nat) (w : world P) (ctx : rdtmon_ctx_t cap_t),
    g_rdtmon w = Some ctx ->
    (forall k, (i <= k < i + todo)%nat -> monitored ctx k) ->
    rdtmon_read_loop todo (Z.of_nat i) w
    = Some (tt,
            Build_world (g_rdtmon w) (heap w) (pqos w)
              (map EvDispatch (rev (flat_map (records_at ctx) (seq i todo)))
               ++ trace w)).
Proof.
  induction todo as [| todo IH]; intros i w ctx Hctx Hmon.
  - now destruct w.
  - cbn [rdtmon_read_loop].
    destruct (Hmon i ltac:(lia)) as (cg & name & data & Hcg & Hname & Hpg).
    rewrite (bind_run _ _ _ _ _ (deref_ctx_run w ctx Hctx)).
    rewrite Nat2Z.id, Hpg. cbn [deref]. rewrite bind_pure.
    cbn [deref]. rewrite bind_pure. cbv zeta.
    rewrite (bind_run _ _ _ _ _ (read_cgroup_run i cg w ctx Hctx Hcg)).
    rewrite (submit_records cg name (values data) w
               (fun _ => rdtmon_read_loop todo (Z.of_nat i + 1)) Hname).
    replace (Z.of_nat i + 1) with (Z.of_nat (S i)) by lia.
    match goal with
    | |- rdtmon_read_loop todo _ ?v = _ =>
        rewrite (IH (S i) v ctx Hctx) by (intros k Hk; apply Hmon; lia)
    end.
    cbn [g_rdtmon heap pqos trace seq flat_map].
    unfold records_at at 2. rewrite Hcg, Hpg, Hname.
    now rewrite rev_app_distr, map_app, <- app_assoc.
Qed.

Lemma refresh_monitored (ctx : rdtmon_ctx_t cap_t)
  (polled : list (option pqos_mon_data)) (k : nat) :
  monitored ctx k ->
  monitored {| cgroups := cgroups ctx;
               pgroups := refresh (pgroups ctx) polled;
               num_groups := num_groups ctx;
               pqos_cpu := pqos_cpu ctx;
               pqos_cap := pqos_cap ctx;
               cap_mon := cap_mon ctx |} k.
Proof.
  intros (cg & name & data & Hcg & Hname & Hpg).
  unfold monitored. cbn [cgroups pgroups].
  unfold refresh. rewrite list_lookup_imap, Hpg. cbn [fmap option_fmap option_map].
  exists cg, name.
  destruct (polled !! k) as [[data' |] |]; eexists; repeat split; eassumption.
Qed.

(** X17.  A cycle whose poll succeeds, with live groups that have a
    description and a monitoring structure: [rdtmon_read] returns 0 and
    hands to the sink, group after group in index order, the records the
    event mask of the group asks for, first the cache occupancy, then the
    instructions per cycle, then the memory bandwidth, each with the
    values the poll just left.  Nothing else changes but the library and
    the monitoring data. *)
Theorem rdtmon_read_cycle (w : world P) (ctx : rdtmon_ctx_t cap_t)
  (polled : list (option pqos_mon_data)) (p' : P) :
  g_rdtmon w = Some ctx ->
  pqos_mon_poll (pqos w) (pgroups ctx) (num_groups ctx mod UINT_MODULUS)
  = (PQOS_RETVAL_OK, polled, p') ->
  (forall k, (k < Z.to_nat (num_groups ctx))%nat -> monitored ctx k) ->
  let ctx' := {| cgroups := cgroups ctx;
                 pgroups := refresh (pgroups ctx) polled;
                 num_groups := num_groups ctx;
                 pqos_cpu := pqos_cpu ctx;
                 pqos_cap := pqos_cap ctx;
                 cap_mon := cap_mon ctx |} in
  rdtmon_read w
  = Some (0,
          Build_world (Some ctx') (heap w) p'
            (map EvDispatch
               (rev (flat_map (records_at ctx')
                       (seq 0 (Z.to_nat (num_groups ctx)))))
             ++ EvPqosMonPoll (num_groups ctx mod UINT_MODULUS) :: trace w)).
Proof.
  intros Hctx Hpoll Hmon ctx'. unfold rdtmon_read. rewrite Hctx.
  unfold bind at 1. unfold call. rewrite Hpoll.
  unfold bind at 1. unfold set_pgroups, bind, deref_ctx, store_ctx.
  cbn [g_rdtmon heap pqos trace]. rewrite Hctx.
  rewrite Z.eqb_refl.
  cbn [g_rdtmon heap pqos trace]. cbv beta iota. fold ctx'.
  pose proof (rdtmon_read_loop_run (Z.to_nat (num_groups ctx)) 0
                (Build_world (Some ctx') (heap w) p'
                   (EvPqosMonPoll (num_groups ctx mod UINT_MODULUS)
                    :: trace w))
                ctx' eq_refl) as Hloop.
  change (Z.of_nat 0) with 0 in Hloop. rewrite Hloop.
  - reflexivity.
  - intros k Hk. apply refresh_monitored. apply Hmon. lia.
Qed.

End Cycle.

Section ShutdownFacts.

Context {P : Type} `{PqosLib P} `{PqosStop P} `{Daemon}.

Lemma rdtmon_shutdown_loop_run :
  forall (todo i : nat) (w : world P) (ctx : rdtmon_ctx_t cap_t),
    g_rdtmon w = Some ctx ->
    (i + todo <= length (pgroups ctx))%nat ->
    rdtmon_shutdown_loop todo (Z.of_nat i) w
    = Some (tt,
            Build_world (g_rdtmon w) (heap w)
              (stopped (take todo (drop i (pgroups ctx))) (pqos w))
              (trace w)).
Proof.
  induction todo as [| todo IH]; intros i w ctx Hctx Hlen.
  - now destruct w.
  - cbn [rdtmon_shutdown_loop].
    assert (Hi : (i < length (pgroups ctx))%nat) by lia.
    apply lookup_lt_is_Some_2 in Hi as [slot Hslot].
    rewrite (bind_run _ _ _ _ _ (deref_ctx_run w ctx Hctx)).
    rewrite Nat2Z.id, Hslot. cbn [deref]. rewrite bind_pure.
    unfold bind at 1. unfold call_unrecorded.
    rewrite (drop_S _ _ _ Hslot). cbn [take stopped fold_left].
    destruct (pqos_mon_stop (pqos w) slot) as [r p'] eqn:Estop.
    replace (Z.of_nat i + 1) with (Z.of_nat (S i)) by lia.
    match goal with
    | |- rdtmon_shutdown_loop todo _ ?v = _ =>
        rewrite (IH (S i) v ctx Hctx) by lia
    end.
    cbn [g_rdtmon heap pqos trace snd]. reflexivity.
Qed.

(** X18.  [rdtmon_shutdown] on a context whose live groups lie within
    the table always returns 0, whatever the library answers: it has
    called [pqos_mon_stop] on the first [num_groups] slots in index
    order, a [NULL] slot included, then [pqos_fini]; the context is gone,
    so that a poll or a second shutdown returns [-EINVAL] and changes
    nothing.  Without a context it returns [-EINVAL] at once. *)
Theorem rdtmon_shutdown_releases (w : world P) :
  (g_rdtmon w = None -> rdtmon_shutdown w = Some (- EINVAL, w)) /\
  (forall ctx,
      g_rdtmon w = Some ctx ->
      (Z.to_nat (num_groups ctx) <= length (pgroups ctx))%nat ->
      exists w',
        rdtmon_shutdown w = Some (0, w') /\
        g_rdtmon w' = None /\
        heap w' = heap w /\
        pqos w'
        = (pqos_fini
             (stopped (take (Z.to_nat (num_groups ctx)) (pgroups ctx))
                (pqos w))).2 /\
        trace w' = EvPqosFini :: trace w /\
        rdtmon_shutdown w' = Some (- EINVAL, w') /\
        rdtmon_read w' = Some (- EINVAL, w')).
Proof.
  split.
  - intros Hnull. unfold rdtmon_shutdown. now rewrite Hnull.
  - intros ctx Hctx Hlen. unfold rdtmon_shutdown at 1. rewrite Hctx.
    pose proof (rdtmon_shutdown_loop_run (Z.to_nat (num_groups ctx)) 0 w ctx
                  Hctx Hlen) as Hloop.
    change (Z.of_nat 0) with 0 in Hloop. rewrite drop_0 in Hloop.
    rewrite (bind_run _ _ _ _ _ Hloop).
    unfold bind at 1. unfold call. cbn [g_rdtmon heap pqos trace].
    destruct (pqos_fini
                (stopped (take (Z.to_nat (num_groups ctx)) (pgroups ctx))
                   (pqos w))) as [r p'].
    unfold bind, rdtmon_free_cgroups, bind, deref_ctx, store_ctx,
      set_g_rdtmon, pure.
    cbn [g_rdtmon heap pqos trace]. rewrite Hctx.
    cbn [g_rdtmon heap pqos trace].
    eexists. split; [reflexivity |]. cbn [g_rdtmon heap pqos trace snd].
    repeat split.
Qed.

End ShutdownFacts.

Section ConfigKeys.

Context {P : Type} `{PqosLib P} `{Daemon}.

Lemma tolower_zero (c : ascii) : tolower c = 0 <-> LibC.char_code c = 0.
Proof.
  unfold tolower.
  destruct ((65 <=? LibC.char_code c) && (LibC.char_code c <=? 90)) eqn:E.
  - apply andb_prop in E as [E1 E2]. apply Z.leb_le in E1. lia.
  - reflexivity.
Qed.

(** [strcasecmp] on strings without a NUL character: 0 exactly when the
    two are equal once upper case ASCII letters are lowered. *)
Lemma strcasecmp_zero (a : list ascii) :
  forall b,
    Forall (fun c => LibC.char_code c <> 0) a ->
    Forall (fun c => LibC.char_code c <> 0) b ->
    strcasecmp a b = 0 <-> map tolower a = map tolower b.
Proof.
  induction a as [| c a IH]; intros [| d b] Ha Hb; simpl.
  - split; reflexivity.
  - apply Forall_cons in Hb as [Hd _].
    split; [| discriminate]. intros Hz. exfalso.
    apply Hd, tolower_zero. lia.
  - apply Forall_cons in Ha as [Hc _].
    split; [| discriminate]. intros Hz. exfalso.
    now apply Hc, tolower_zero.
  - apply Forall_cons in Ha as [_ Ha]. apply Forall_cons in Hb as [_ Hb].
    destruct (tolower c =? tolower d) eqn:E.
    + apply Z.eqb_eq in E. rewrite (IH b Ha Hb). split.
      * intros ->. now rewrite E.
      * now intros [= _ ->].
    + apply Z.eqb_neq in E. split; [lia |]. intros [= Hcd _]. contradiction.
Qed.

(** X19.  [rdtmon_config] takes a child for the [Cores] option exactly
    when its key is [Cores] up to the case of ASCII letters; any other
    child is passed over without error and without any effect, and the
    loop goes on with the children that follow. *)
Theorem rdtmon_config_loop_keys (child : oconfig_item_t)
  (rest : list oconfig_item_t) (w : world P) :
  Forall (fun c => LibC.char_code c <> 0)
    (list_ascii_of_string (item_key child)) ->
  (map tolower (list_ascii_of_string (item_key child)) = map tolower Cores ->
   rdtmon_config_loop (child :: rest) w
   = (let* r := rdtmon_config_cgroups (Some child) in
      if r =? 0 then rdtmon_config_loop rest else pure r) w) /\
  (map tolower (list_ascii_of_string (item_key child)) <> map tolower Cores ->
   rdtmon_config_loop (child :: rest) w = rdtmon_config_loop rest w).
Proof.
  intros Hnul.
  assert (Hcores : Forall (fun c => LibC.char_code c <> 0) Cores).
  { unfold Cores. simpl. repeat constructor; discriminate. }
  pose proof (strcasecmp_zero Cores _ Hcores Hnul) as Hcmp.
  cbn [rdtmon_config_loop]. split; intros Hkey.
  - assert (E : strcasecmp Cores (list_ascii_of_string (item_key child)) = 0)
      by now apply Hcmp.
    now rewrite E.
  - destruct (strcasecmp Cores (list_ascii_of_string (item_key child)) =? 0)
      eqn:E; [| reflexivity].
    apply Z.eqb_eq, Hcmp in E. now symmetry in E.
Qed.

End ConfigKeys.

Section FreeFacts.

Context {P : Type} `{PqosLib P}.

Lemma free_cgroup_idempotent (cg : rdtmon_core_group_t) :
  free_cgroup (free_cgroup cg) = free_cgroup cg.
Proof. reflexivity. Qed.

(** X20.  [rdtmon_free_cgroups] on a context releases every slot of the
    two tables whatever they held, keeps the event masks, the group
    count and the capabilities, touches neither the library nor the
    trace, and can be run again without any further effect: no slot is
    freed twice. *)
Theorem rdtmon_free_cgroups_safe (w : world P) (ctx : rdtmon_ctx_t cap_t) :
  g_rdtmon w = Some ctx ->
  exists w' ctx',
    rdtmon_free_cgroups w = Some (tt, w') /\
    g_rdtmon w' = Some ctx' /\
    forallb released (cgroups ctx') = true /\
    forallb absent (pgroups ctx') = true /\
    map events (cgroups ctx') = map events (cgroups ctx) /\
    num_groups ctx' = num_groups ctx /\
    cap_mon ctx' = cap_mon ctx /\
    heap w' = heap w /\ pqos w' = pqos w /\ trace w' = trace w /\
    rdtmon_free_cgroups w' = Some (tt, w').
Proof.
  intros Hctx. unfold rdtmon_free_cgroups, bind, deref_ctx, store_ctx.
  rewrite Hctx. cbn [g_rdtmon]. rewrite Hctx.
  eexists. eexists. split; [reflexivity |].
  cbn [g_rdtmon]. split; [reflexivity |].
  cbn [g_rdtmon heap pqos trace cgroups pgroups num_groups cap_mon pqos_cpu
       pqos_cap].
  split; [apply released_free_cgroup |].
  split; [apply absent_cleared |].
  split; [now rewrite map_map |].
  repeat (split; [reflexivity |]).
  now rewrite !map_map.
Qed.

End FreeFacts.

Section LifecycleMoreRuns.

#[local] Existing Instance Mock.lib.
#[local] Existing Instance Mock.daemon.
#[local] Existing Instance mock_stop.

Lemma rdtmon_preinit_outcome_witness :
  exists r w',
    rdtmon_preinit (Mock.boot Mock.eight_cores []) = Some (r, w') /\
    ((r = 0 /\
      exists ctx mon,
        g_rdtmon w' = Some ctx /\ cap_mon ctx = Some mon /\
        num_groups ctx = 0 /\
        cgroups ctx = replicate (Z.to_nat RDTMON_MAX_CORES) zero_cgroup /\
        pgroups ctx = replicate (Z.to_nat RDTMON_MAX_CORES) None)
     \/ (r = -1 /\ g_rdtmon w' = None /\
         (trace w'
          = EvPqosInit :: EvPqosFini :: trace (Mock.boot Mock.eight_cores [])
          \/ exists t, trace w' = EvPqosFini :: t))
     \/ (r = - ENOMEM /\ g_rdtmon w' = None /\
         pqos w' = pqos (Mock.boot Mock.eight_cores []) /\
         trace w' = trace (Mock.boot Mock.eight_cores []))).
Proof.
  apply (rdtmon_preinit_outcome (Mock.boot Mock.eight_cores [])).
  reflexivity.
Defined.

Lemma rdtmon_init_starts_witness :
  exists w ctx,
    rdtmon_config (Mock.plugin_block ["0-3"; "4-7"]%string)
      (Mock.boot Mock.eight_cores []) = Some (0, w) /\
    g_rdtmon w = Some ctx /\
    (exists w', rdtmon_init w = Some (0, w')) /\
    exists r w' ctx' m,
      rdtmon_init w = Some (r, w') /\
      g_rdtmon w' = Some ctx' /\
      cgroups ctx' = cgroups ctx /\
      num_groups ctx' = num_groups ctx /\
      (m <= Z.to_nat (num_groups ctx))%nat /\
      trace w' = rev (map start_event (take m (cgroups ctx))) ++ trace w /\
      ((r = 0 /\ m = Z.to_nat (num_groups ctx)) \/ (r = -1 /\ (0 < m)%nat)) /\
      pqos w' = lib_after_starts (cgroups ctx) (pgroups ctx) 0 m (pqos w) /\
      (forall j, (j < m)%nat -> (S j < m)%nat \/ r = 0 ->
                 start_status (cgroups ctx) (pgroups ctx) 0 (pqos w) j
                 = PQOS_RETVAL_OK) /\
      (r = -1 ->
       start_status (cgroups ctx) (pgroups ctx) 0 (pqos w) (m - 1)
       <> PQOS_RETVAL_OK) /\
      (forall k, (k < m)%nat ->
                 pgroups ctx' !! k
                 = Some (started_slot (cgroups ctx) (pgroups ctx) 0
                           (pqos w) k))
      /\
      (forall k, (m <= k)%nat -> pgroups ctx' !! k = pgroups ctx !! k).
Proof.
  eexists. eexists. split; [vm_compute; reflexivity |].
  split; [reflexivity |].
  split; [eexists; vm_compute; reflexivity |].
  eapply rdtmon_init_starts.
  - reflexivity.
  - apply Nat.leb_le. vm_compute. reflexivity.
  - apply Nat.leb_le. vm_compute. reflexivity.
Defined.

(** A start that fails: after the option [Cores "0-3" "2-5"] was
    rejected, the first live slot is released, its start returns
    [PQOS_RETVAL_PARAM], and [rdtmon_init] returns -1 after that one
    call. *)
Lemma rdtmon_init_first_start_fails :
  exists w ctx w',
    rdtmon_config (Mock.plugin_block ["0-3"; "2-5"]%string)
      (Mock.boot Mock.eight_cores []) = Some (- EINVAL, w) /\
    g_rdtmon w = Some ctx /\
    start_status (cgroups ctx) (pgroups ctx) 0 (pqos w) 0
    = Mock.RETVAL_PARAM /\
    rdtmon_init w = Some (-1, w') /\
    trace w' = start_event (nth 0 (cgroups ctx) zero_cgroup) :: trace w.
Proof.
  eexists. eexists. eexists. split; [vm_compute; reflexivity |].
  split; [reflexivity |]. split; [vm_compute; reflexivity |].
  split; [vm_compute; reflexivity |]. vm_compute. reflexivity.
Qed.

Lemma rdtmon_free_cgroups_safe_witness :
  exists ctx,
    g_rdtmon (Mock.running Mock.eight_cores ["0-3"; "4-7"]%string) = Some ctx /\
    exists w' ctx',
      rdtmon_free_cgroups (Mock.running Mock.eight_cores ["0-3"; "4-7"]%string)
      = Some (tt, w') /\
      g_rdtmon w' = Some ctx' /\
      forallb released (cgroups ctx') = true /\
      forallb absent (pgroups ctx') = true /\
      map events (cgroups ctx') = map events (cgroups ctx) /\
      num_groups ctx' = num_groups ctx /\
      cap_mon ctx' = cap_mon ctx /\
      heap w' = heap (Mock.running Mock.eight_cores ["0-3"; "4-7"]%string) /\
      pqos w' = pqos (Mock.running Mock.eight_cores ["0-3"; "4-7"]%string) /\
      trace w' = trace (Mock.running Mock.eight_cores ["0-3"; "4-7"]%string) /\
      rdtmon_free_cgroups w' = Some (tt, w').
Proof.
  eexists. split; [vm_compute; reflexivity |].
  eapply (rdtmon_free_cgroups_safe
            (Mock.running Mock.eight_cores ["0-3"; "4-7"]%string)).
  reflexivity.
Defined.

Lemma rdtmon_shutdown_releases_witness :
  exists ctx w',
    g_rdtmon (Mock.running Mock.eight_cores ["0-3"; "4-7"]%string) = Some ctx /\
    rdtmon_shutdown (Mock.running Mock.eight_cores ["0-3"; "4-7"]%string)
    = Some (0, w') /\
    g_rdtmon w' = None /\
    heap w' = heap (Mock.running Mock.eight_cores ["0-3"; "4-7"]%string) /\
    pqos w'
    = (pqos_fini
         (stopped (take (Z.to_nat (num_groups ctx)) (pgroups ctx))
            (pqos (Mock.running Mock.eight_cores ["0-3"; "4-7"]%string)))).2 /\
    trace w'
    = EvPqosFini
      :: trace (Mock.running Mock.eight_cores ["0-3"; "4-7"]%string) /\
    rdtmon_shutdown w' = Some (- EINVAL, w') /\
    rdtmon_read w' = Some (- EINVAL, w').
Proof.
  assert (Hctx : exists ctx,
             g_rdtmon (Mock.running Mock.eight_cores ["0-3"; "4-7"]%string)
             = Some ctx
             /\ (Z.to_nat (num_groups ctx) <= length (pgroups ctx))%nat).
  { eexists. split; [vm_compute; reflexivity |].
    apply Nat.leb_le. vm_compute. reflexivity. }
  destruct Hctx as (ctx & Hctx & Hlen).
  destruct (proj2 (rdtmon_shutdown_releases
                     (Mock.running Mock.eight_cores ["0-3"; "4-7"]%string))
              ctx Hctx Hlen) as (w' & Hrest).
  exists ctx, w'. split; [exact Hctx | exact Hrest].
Defined.

Lemma rdtmon_read_cycle_witness :
  exists ctx polled p',
    g_rdtmon (Mock.running Mock.eight_cores ["0-3"; "4-7"]%string) = Some ctx /\
    pqos_mon_poll (pqos (Mock.running Mock.eight_cores ["0-3"; "4-7"]%string))
      (pgroups ctx) (num_groups ctx mod UINT_MODULUS)
    = (PQOS_RETVAL_OK, polled, p') /\
    let ctx' := {| cgroups := cgroups ctx;
                   pgroups := refresh (pgroups ctx) polled;
                   num_groups := num_groups ctx;
                   pqos_cpu := pqos_cpu ctx;
                   pqos_cap := pqos_cap ctx;
                   cap_mon := cap_mon ctx |} in
    rdtmon_read (Mock.running Mock.eight_cores ["0-3"; "4-7"]%string)
    = Some (0,
            Build_world (Some ctx')
              (heap (Mock.running Mock.eight_cores ["0-3"; "4-7"]%string)) p'
              (map EvDispatch
                 (rev (flat_map (records_at ctx')
                         (seq 0 (Z.to_nat (num_groups ctx)))))
               ++ EvPqosMonPoll (num_groups ctx mod UINT_MODULUS)
                  :: trace (Mock.running Mock.eight_cores
                              ["0-3"; "4-7"]%string))).
Proof.
  eexists. eexists. eexists.
  split; [vm_compute; reflexivity |].
  split; [vm_compute; reflexivity |].
  apply (rdtmon_read_cycle
           (Mock.running Mock.eight_cores ["0-3"; "4-7"]%string)).
  - vm_compute. reflexivity.
  - vm_compute. reflexivity.
  - intros k Hk. cbn [num_groups] in Hk.
    change (Z.to_nat 2) with 2%nat in Hk.
    destruct k as [| [| k]]; [| | lia];
      (eexists; eexists; eexists;
       split; [vm_compute; reflexivity |];
       split; [reflexivity |]; vm_compute; reflexivity).
Defined.

Lemma rdtmon_config_loop_keys_witness :
  rdtmon_config_loop
    [OconfigItem "Interval" [OCONFIG_TYPE_NUMBER 1] []]
    (Mock.ready Mock.eight_cores [])
  = rdtmon_config_loop [] (Mock.ready Mock.eight_cores []).
Proof.
  apply (rdtmon_config_loop_keys
           (OconfigItem "Interval" [OCONFIG_TYPE_NUMBER 1] []) []
           (Mock.ready Mock.eight_cores [])).
  - simpl. repeat constructor; discriminate.
  - vm_compute. discriminate.
Defined.

End LifecycleMoreRuns.
